(** * memory_cli: a shallow embedding of the episodic memory engine

    The development follows [memory_cli.py]: text primitives first, then the
    canonical event log, the reducer, ingestion, consolidation, retrieval and
    packing, disputes and the utility projection.

    Conventions.
    - A Python [str] is a [string]; a character stands for a code point
      below 256.  On these code points [str.lower] moves [A-Z] and the
      Latin-1 capitals, [str.isspace] and [\s] hold of the same twelve
      characters, and [[a-z0-9]] is ASCII.
    - A Python [int] is a [Z] (or a [nat] where it is a count).
    - A Python [float] is modelled by what the code does with it.  The
      dispute weights, their sum and the thresholds are added and compared
      as binary64 numbers, so they are [PrimFloat.float]s; [SUM] over a
      [REAL] column adds the rows one by one in rowid order, from [0.0].
      A score rounded to six places that is only stored and compared is
      the rational it prints as ([Q]).  A quotient of two counts and a
      cosine are given by their exact value, a real ([R]), of which the
      code holds the binary64 rounding.
    - A table is the list of its rows in rowid order.
    - A raised exception is [Raise]; state is passed explicitly. *)

From Stdlib Require Import PrimFloat.
From Stdlib Require Import String Ascii List ZArith QArith Reals Lra Lia Bool Arith.
From Stdlib Require Import DecimalString Sorted.
From stdpp Require Import gmap strings.
Import ListNotations.

#[local] Close Scope Q_scope.
#[local] Set Warnings "-inexact-float".
#[local] Open Scope string_scope.
#[local] Open Scope list_scope.
#[local] Open Scope nat_scope.

Notation "a =s? b" := (String.eqb a b) (at level 70, no associativity).

(* ===================================================================== *)
(** * Part I: the program *)
(* ===================================================================== *)

(** ** Text primitives *)

Module Text.

Definition STOPWORDS : list string :=
  [ "a"; "an"; "and"; "are"; "as"; "at"; "be"; "but"; "by"; "for"; "from";
    "has"; "have"; "if"; "in"; "is"; "it"; "of"; "on"; "or"; "that"; "the";
    "to"; "was"; "were"; "with"; "you"; "your"; "i"; "we"; "this"; "those";
    "these" ].

Definition code (c : ascii) : N := N_of_ascii c.

(** The code points below 256 that [str.lower] moves: [A-Z] and the
    Latin-1 capitals 192 to 222, the multiplication sign 215 excepted.
    Each goes 32 places up. *)
Definition is_upper (c : ascii) : bool :=
  (((65 <=? code c) && (code c <=? 90))
   || ((192 <=? code c) && (code c <=? 222) && negb (code c =? 215)))%N.

Definition lower_char (c : ascii) : ascii :=
  if is_upper c then ascii_of_N (code c + 32) else c.

(** [str.lower()] *)
Fixpoint lower (s : string) : string :=
  match s with
  | EmptyString => EmptyString
  | String c s' => String (lower_char c) (lower s')
  end.

(** The character class [[a-z0-9]]. *)
Definition is_token_char (c : ascii) : bool :=
  (((97 <=? code c) && (code c <=? 122)) || ((48 <=? code c) && (code c <=? 57)))%N.

Definition flush (cur : string) (rest : list string) : list string :=
  match cur with
  | EmptyString => rest
  | _ => cur :: rest
  end.

(** [re.findall(r"[a-z0-9]+", s)]: the maximal runs of token characters,
    left to right; [cur] is the run being read. *)
Fixpoint findall_runs (cur : string) (s : string) : list string :=
  match s with
  | EmptyString => flush cur []
  | String c s' =>
      if is_token_char c then findall_runs (cur ++ String c EmptyString) s'
      else flush cur (findall_runs EmptyString s')
  end.

Definition mem_string (x : string) (l : list string) : bool :=
  existsb (String.eqb x) l.

(** [raw = re.findall(r"[a-z0-9]+", (text or "").lower())] *)
Definition raw_tokens (text : string) : list string :=
  findall_runs EmptyString (lower text).

(** [tokenize]: the raw tokens that are not stopwords. *)
Definition tokenize (text : string) : list string :=
  List.filter (fun t => negb (mem_string t STOPWORDS)) (raw_tokens text).

(** The [for tok in tokens: if len(tok) >= 4: return tok] loop. *)
Fixpoint first_long_token (tokens : list string) : option string :=
  match tokens with
  | [] => None
  | tok :: rest =>
      if (4 <=? String.length tok)%nat then Some tok else first_long_token rest
  end.

Definition topic_key (statement : string) : string :=
  let tokens := tokenize statement in
  match first_long_token tokens with
  | Some tok => tok
  | None =>
      match tokens with
      | t :: _ => t
      | [] => "general"
      end
  end.

(** The topic key as the specification words it, over a given token list:
    the first token of at least four characters, else the first token,
    else ["general"]. *)
Definition topic_key_of_tokens (tokens : list string) : string :=
  match find (fun t => (4 <=? String.length t)%nat) tokens with
  | Some t => t
  | None => hd "general" tokens
  end.

(** [s in t] on strings: [needle] occurs in [hay]. *)
Fixpoint contains (needle hay : string) : bool :=
  if String.prefix needle hay then true
  else match hay with
       | EmptyString => false
       | String _ hay' => contains needle hay'
       end.

(** [any(k in low for k in keys)] *)
Definition any_in (keys : list string) (low : string) : bool :=
  existsb (fun k => contains k low) keys.

Definition contains_failure_signal (text : string) : bool :=
  let t := lower text in
  any_in ["error"; "failed"; "exception"; "traceback"; "non-zero"; "timeout"; "panic"] t.

(** Python's [str.isspace] on code points below 256, which is also what
    [\s] matches there. *)
Definition is_space (c : ascii) : bool :=
  (((9 <=? code c) && (code c <=? 13)) || ((28 <=? code c) && (code c <=? 32))
   || (code c =? 133) || (code c =? 160))%N.

(** [text.strip()] followed by [re.sub(r"\s+", " ", _)]: leading and
    trailing whitespace goes, every inner run becomes one blank.
    [pending] records a run of whitespace seen after some kept text. *)
Fixpoint collapse_ws (started pending : bool) (s : string) : string :=
  match s with
  | EmptyString => EmptyString
  | String c s' =>
      if is_space c then collapse_ws started started s'
      else if pending then String " " (String c (collapse_ws true false s'))
           else String c (collapse_ws true false s')
  end.

Definition normalize_statement (text : string) : string :=
  let t := collapse_ws false false text in
  if (280 <? String.length t)%nat then String.substring 0 277 t ++ "..." else t.

End Text.

(** ** Collaborators *)

(** [str(n)] for a non-negative integer. *)
Definition str_of_nat (n : nat) : string := NilEmpty.string_of_uint (Nat.to_uint n).

(** A JSON object with string values, as the metadata dictionaries are. *)
Definition metadata := list (string * string).

(** The dictionary that [record_episode] hashes. *)
Record episode_canon := {
  canon_episode_id : string;
  canon_user_text : string;
  canon_assistant_text : string;
  canon_model_name : option string;
  canon_metadata : metadata;
  canon_started_at : string;
  canon_ended_at : string }.

(** What the engine takes from its surroundings: the digests, the JSON
    serializer, the artifact directory next to the database and
    [os.path.join], the random identifiers and the two clocks.  The [n]-th
    identifier drawn and the [n]-th reading of a clock are given by
    functions of [n], so that nothing is assumed about their values. *)
Class Platform := {
  sha256_text : string -> string;
  md5_int : string -> N;
  canonical_json_episode : episode_canon -> string;
  artifacts_dir : string;
  path_join : string -> string -> string;
  uuid4_hex : nat -> string;
  now_iso : nat -> string;
  current_timestamp : nat -> string }.

(** [deterministic_id(prefix, *parts)] with the default [size = 16]. *)
Definition deterministic_id `{Platform} (prefix : string) (parts : list string) : string :=
  (prefix ++ "_" ++ String.substring 0 16 (sha256_text (String.concat "|" parts)))%string.

(** A platform for worked examples: digests are the identity, identifiers
    and clock readings are numbered. *)
Definition example_platform : Platform :=
  {| sha256_text := fun s => s;
     md5_int := fun s => N.of_nat (String.length s);
     canonical_json_episode := fun c =>
       String.concat "," [canon_episode_id c; canon_user_text c; canon_assistant_text c;
                          canon_started_at c; canon_ended_at c];
     artifacts_dir := ".memory/artifacts";
     path_join := fun dir name => (dir ++ "/" ++ name)%string;
     uuid4_hex := fun n => ("uuid" ++ str_of_nat n)%string;
     now_iso := fun n => ("t" ++ str_of_nat n)%string;
     current_timestamp := fun n => ("t" ++ str_of_nat n)%string |}.
(** ** Packing *)

Module Pack.

Record score_components := {
  sc_lexical : Q; sc_semantic : Q; sc_scope : Q; sc_kind_prior : Q;
  sc_truth : Q; sc_utility : Q; sc_recency : Q }.

Record scored_card := {
  card_id : string;
  kind : string;
  statement : string;
  scope_tier : string;
  scope_id : string;
  topic_key : string;
  status : string;
  score_total : Q;
  components : score_components;
  updated_event_id : Z }.

Definition PACK_TOTAL_CAP : nat := 8.
Definition PACK_TOPIC_CAP : nat := 2.
Definition PACK_SLOT_CAPS : gmap string nat :=
  {[ "constraints_commitments" := 3; "negative_result" := 2; "tactic" := 2; "fact" := 3 ]}.

Definition group_for_kind (k : string) : string :=
  if (k =s? "constraint") || (k =s? "commitment") || (k =s? "preference")
  then "constraints_commitments"
  else if k =s? "negative_result" then "negative_result"
  else if k =s? "tactic" then "tactic"
  else "fact".

(** [d[k]] on a [defaultdict(int)], and on a dict whose key is present. *)
Definition count_of (d : gmap string nat) (k : string) : nat := default 0 (d !! k).

Record pack_state := {
  selected : list scored_card;
  topic_counts : gmap string nat;
  slot_counts : gmap string nat }.

Definition pack_init : pack_state :=
  {| selected := [];
     topic_counts := ∅;
     slot_counts := {[ "constraints_commitments" := 0; "negative_result" := 0;
                       "tactic" := 0; "fact" := 0 ]} |}.

(** [selected.append(cand); slot_counts[group] += 1; topic_counts[topic] += 1] *)
Definition take (cand : scored_card) (group : string) (st : pack_state) : pack_state :=
  {| selected := selected st ++ [cand];
     topic_counts := <[topic_key cand := S (count_of (topic_counts st) (topic_key cand))]> (topic_counts st);
     slot_counts := <[group := S (count_of (slot_counts st) group)]> (slot_counts st) |}.

Fixpoint preselect_negative (ranked : list scored_card) (st : pack_state) : pack_state :=
  match ranked with
  | [] => st
  | cand :: rest =>
      if (kind cand =s? "negative_result")
         && (count_of (topic_counts st) (topic_key cand) <? PACK_TOPIC_CAP)
      then
        let group := "negative_result" in
        if count_of (slot_counts st) group <? count_of PACK_SLOT_CAPS group
        then take cand group st
        else preselect_negative rest st
      else preselect_negative rest st
  end.

Fixpoint fill (ranked : list scored_card) (st : pack_state) : pack_state :=
  match ranked with
  | [] => st
  | cand :: rest =>
      if PACK_TOTAL_CAP <=? length (selected st) then st
      else if existsb (fun s => card_id s =s? card_id cand) (selected st) then fill rest st
      else if PACK_TOPIC_CAP <=? count_of (topic_counts st) (topic_key cand) then fill rest st
      else
        let group := group_for_kind (kind cand) in
        if count_of PACK_SLOT_CAPS group <=? count_of (slot_counts st) group then fill rest st
        else fill rest (take cand group st)
  end.

Definition select_cards (ranked : list scored_card) (has_recent_failure : bool) : pack_state :=
  let st := if has_recent_failure then preselect_negative ranked pack_init else pack_init in
  let st := fill ranked st in
  {| selected := firstn PACK_TOTAL_CAP (selected st);
     topic_counts := topic_counts st;
     slot_counts := slot_counts st |}.

Record exposure := {
  exposure_id : string;
  exp_card_id : string;
  exp_channel : string;
  rank_position : nat;
  exp_score_total : Q }.

(** [for idx, c in enumerate(selected)], with [idx] counted from [start]. *)
Fixpoint exposures_from `{Platform} (pack_id channel : string) (start : nat)
    (sel : list scored_card) : list exposure :=
  match sel with
  | [] => []
  | c :: rest =>
      {| exposure_id := deterministic_id "exp" [pack_id; card_id c; str_of_nat (start + 1)];
         exp_card_id := card_id c;
         exp_channel := channel;
         rank_position := start + 1;
         exp_score_total := score_total c |}
      :: exposures_from pack_id channel (S start) rest
  end.

Definition exposures_of `{Platform} (pack_id channel : string) (sel : list scored_card) :=
  exposures_from pack_id channel 0 sel.

(** Vocabulary of the packing properties. *)

Definition count_where {A} (p : A -> bool) (l : list A) : nat := length (List.filter p l).

Definition has_topic (t : string) (c : scored_card) : bool := topic_key c =s? t.
Definition in_group (g : string) (c : scored_card) : bool := group_for_kind (kind c) =s? g.

Record pack_inv (ranked : list scored_card) (st : pack_state) : Prop := {
  inv_from_ranked : forall c, In c (selected st) -> In c ranked;
  inv_nodup : List.NoDup (map card_id (selected st));
  inv_topics : forall t, count_of (topic_counts st) t = count_where (has_topic t) (selected st);
  inv_slots : forall g, count_of (slot_counts st) g = count_where (in_group g) (selected st);
  inv_topic_cap : forall t, count_of (topic_counts st) t <= PACK_TOPIC_CAP;
  inv_slot_cap : forall g, count_of (slot_counts st) g <= count_of PACK_SLOT_CAPS g;
  inv_total : length (selected st) <= PACK_TOTAL_CAP }.

Definition kind_is (k : string) (c : scored_card) : bool := kind c =s? k.
Definition kind_is_normative (c : scored_card) : bool :=
  (kind c =s? "preference") || (kind c =s? "constraint") || (kind c =s? "commitment").

Definition same_card_id (c : scored_card) (x : scored_card) : bool := card_id x =s? card_id c.

(** A card cannot be added to the pack: it is in it, the pack is full, its
    topic is full or its slot is full. *)
Definition blocked (c : scored_card) (st : pack_state) : Prop :=
  existsb (same_card_id c) (selected st) = true
  \/ PACK_TOTAL_CAP <= length (selected st)
  \/ PACK_TOPIC_CAP <= count_of (topic_counts st) (topic_key c)
  \/ count_of PACK_SLOT_CAPS (group_for_kind (kind c))
     <= count_of (slot_counts st) (group_for_kind (kind c)).

Definition demo_card (id k topic : string) : scored_card :=
  {| card_id := id; kind := k; statement := ""; scope_tier := "repo"; scope_id := "default";
     topic_key := topic; status := "active"; score_total := 0%Q;
     components := {| sc_lexical := 0; sc_semantic := 0; sc_scope := 0; sc_kind_prior := 0;
                      sc_truth := 0; sc_utility := 0; sc_recency := 0 |}%Q;
     updated_event_id := 1%Z |}.

End Pack.

(** ** Similarity *)

Module Similarity.
Import Text.

(** [set(tokenize(a))] *)
Definition token_set (text : string) : gset string := list_to_set (tokenize text).

Definition jaccard_similarity (a b : string) : R :=
  let ta := token_set a in
  let tb := token_set b in
  if bool_decide (ta = ∅) && bool_decide (tb = ∅) then 1%R
  else if bool_decide (ta = ∅) || bool_decide (tb = ∅) then 0%R
  else
    let inter := size (ta ∩ tb) in
    let union := size (ta ∪ tb) in
    if union =? 0 then 0%R else (INR inter / INR union)%R.

(** [Counter(tokens)] *)
Definition Counter (tokens : list string) : gmap string nat :=
  fold_left (fun m t => <[t := S (default 0 (m !! t))]> m) tokens ∅.

(** [sum(v * v for v in c.values())] *)
Definition sum_squares (c : gmap string nat) : nat :=
  map_fold (fun _ v acc => acc + v * v) 0 c.

(** [sum(ca[t] * cb[t] for t in common)] *)
Definition dot_common (ca cb : gmap string nat) : nat :=
  set_fold (fun t acc => acc + default 0 (ca !! t) * default 0 (cb !! t)) 0
           (dom ca ∩ dom cb).

Definition cosine_similarity_text (a b : string) : R :=
  let ca := Counter (tokenize a) in
  let cb := Counter (tokenize b) in
  if bool_decide (ca = ∅) || bool_decide (cb = ∅) then 0%R
  else
    let dot := dot_common ca cb in
    let na := sqrt (INR (sum_squares ca)) in
    let nb := sqrt (INR (sum_squares cb)) in
    if Req_dec_T na 0 then 0%R
    else if Req_dec_T nb 0 then 0%R
    else (INR dot / (na * nb))%R.

(** [sum(x * y for x, y in zip(a, b))] *)
Fixpoint dot_product (a b : list R) : R :=
  match a, b with
  | x :: a', y :: b' => (x * y + dot_product a' b')%R
  | _, _ => 0%R
  end.

Definition cosine_from_vectors (a b : list R) : R :=
  match a, b with
  | [], _ | _, [] => 0%R
  | _, _ =>
      if negb (length a =? length b) then 0%R
      else
        let dot := dot_product a b in
        let na := sqrt (dot_product a a) in
        let nb := sqrt (dot_product b b) in
        if Req_dec_T na 0 then 0%R
        else if Req_dec_T nb 0 then 0%R
        else (dot / (na * nb))%R
  end.

(** [pseudo_embedding]: one bucket per token, picked by the MD5 of
    ["{salt}:{tok}"] modulo [dim], then the vector is scaled to unit
    length.  With [dim = 0] a token makes [h % dim] raise
    [ZeroDivisionError]: [None]. *)
Definition bucket `{Platform} (salt tok : string) (dim : nat) : nat :=
  N.to_nat (md5_int (salt ++ ":" ++ tok) mod N.of_nat dim).

Definition pseudo_embedding `{Platform} (text : string) (dim : nat) (salt : string)
  : option (list R) :=
  let toks := tokenize text in
  match dim, toks with
  | O, _ :: _ => None
  | _, _ =>
      let vec := fold_left (fun vec tok => alter (fun v => (v + 1)%R) (bucket salt tok dim) vec)
                           toks (replicate dim 0%R) in
      let norm := sqrt (dot_product vec vec) in
      Some (if Rlt_dec 0 norm then map (fun v => (v / norm)%R) vec else vec)
  end.

End Similarity.

(** ** Scoring *)

Module Scoring.
Import Similarity.

(** A row of the [retrieve_cards] query: the card joined with its utility
    statistics and its stored embedding (already parsed, [[]] when absent
    or unreadable). *)
Record card_row := {
  card_id : string;
  kind : string;
  statement : string;
  scope_tier : string;
  scope_id : string;
  topic_key : string;
  status : string;
  updated_event_id : Z;
  wins : Z;
  losses : Z;
  reuse : Z;
  embedding_model : string;
  embedding_vector : list R }.

Definition tier_rank (tier : string) : nat :=
  if tier =s? "repo" then 3
  else if tier =s? "domain" then 2
  else if tier =s? "global" then 1
  else 0.

Definition scope_score (desired_tier desired_scope_id card_tier card_scope_id : string) : R :=
  if (desired_tier =s? card_tier) && (desired_scope_id =s? card_scope_id) then 1%R
  else if tier_rank desired_tier <? tier_rank card_tier then 0.2%R
  else if card_tier =s? desired_tier then 0.8%R
  else if card_tier =s? "global" then 0.6%R
  else if card_tier =s? "domain" then 0.7%R
  else 0.5%R.

Definition kind_prior (k : string) : R :=
  if k =s? "constraint" then 1.0%R
  else if k =s? "commitment" then 0.9%R
  else if k =s? "preference" then 0.8%R
  else if k =s? "negative_result" then 0.85%R
  else if k =s? "tactic" then 0.8%R
  else if k =s? "fact" then 0.75%R
  else 0.5%R.

Definition status_weight (st mode : string) : R :=
  if mode =s? "auto_pack" then
    if st =s? "active" then 1.0%R
    else if st =s? "needs_recheck" then 0.35%R
    else if st =s? "deprecated" then 0.15%R
    else if st =s? "archived" then 0.1%R
    else 0.1%R
  else
    if st =s? "active" then 1.0%R
    else if st =s? "needs_recheck" then 0.8%R
    else if st =s? "deprecated" then 0.65%R
    else if st =s? "archived" then 0.6%R
    else 0.5%R.

(** The utility component of a row. *)
Definition utility_of (k : string) (wins losses reuse : Z) : R :=
  if k =s? "tactic" then
    let denom := Z.max 1 (wins + losses) in
    (IZR (wins - losses) / IZR denom + Rmin 1.0 (IZR reuse / 10.0))%R
  else 0.0%R.

Record components := {
  lexical : R; semantic : R; scope : R; prior : R; truth : R; utility : R; recency : R }.

(** The body of the scoring loop of [retrieve_cards], before rounding.
    [None] when the query embedding cannot be computed. *)
Definition score_components `{Platform} (query desired_tier desired_scope_id mode : string)
    (max_event_id : Z) (r : card_row) : option components :=
  match pseudo_embedding query 64 (embedding_model r) with
  | None => None
  | Some qvec =>
      Some {| lexical := jaccard_similarity query (statement r);
              semantic := cosine_from_vectors qvec (embedding_vector r);
              scope := scope_score desired_tier desired_scope_id (scope_tier r) (scope_id r);
              prior := kind_prior (kind r);
              truth := status_weight (status r) mode;
              utility := utility_of (kind r) (wins r) (losses r) (reuse r);
              recency := (IZR (updated_event_id r) / IZR max_event_id)%R |}
  end.

Definition score_total (mode : string) (st : string) (c : components) : R :=
  let total := (0.35 * lexical c + 0.25 * semantic c + 0.15 * scope c + 0.10 * prior c
                + 0.10 * truth c + 0.05 * utility c + 0.02 * recency c)%R in
  if (mode =s? "auto_pack") && (st =s? "needs_recheck") then (total * 0.35)%R else total.

Definition unit_interval (x : R) : Prop := (0 <= x <= 1)%R.

Definition example_row : card_row :=
  {| card_id := "card_1"; kind := "tactic"; statement := "run the pin versions command";
     scope_tier := "repo"; scope_id := "default"; topic_key := "versions";
     status := "active"; updated_event_id := 4; wins := 1; losses := 0; reuse := 10;
     embedding_model := "pseudo-v1"; embedding_vector := [] |}.

End Scoring.
(** ** The store *)

Module Engine.

Inductive error :=
| ValueError (msg : string)
| IntegrityError (msg : string)
| KeyError (key : string)
| ZeroDivisionError.

Inductive result (A : Type) :=
| Ok (a : A)
| Raise (e : error).
Arguments Ok {A} a.
Arguments Raise {A} e.

(** [d.get(k, default)] on a metadata dictionary. *)
Fixpoint md_get (m : metadata) (k default : string) : string :=
  match m with
  | [] => default
  | (k', v) :: m' => if k' =s? k then v else md_get m' k default
  end.

(** *** Canonical tables *)

Record episode_row := {
  ep_episode_id : string;
  ep_user_text : string;
  ep_assistant_text : string;
  ep_model_name : option string;
  ep_metadata : metadata;
  ep_payload_hash : string;
  ep_started_at : string;
  ep_ended_at : string }.

Record artifact_row := {
  art_artifact_id : string;
  art_episode_id : string;
  art_artifact_kind : string;
  art_content_path : string;
  art_content_hash : string;
  art_mime_type : string;
  art_metadata : metadata }.

Record evidence_row := {
  ev_evidence_ref_id : string;
  ev_episode_id : string;
  ev_artifact_id : option string;
  ev_ref_kind : string;
  ev_target_id : string;
  ev_start_offset : option Z;
  ev_end_offset : option Z;
  ev_line_start : option Z;
  ev_line_end : option Z;
  ev_excerpt_text : string;
  ev_ref_hash : string;
  ev_created_at : string }.

(** *** Event payloads

    One constructor per dictionary shape that the engine builds.  A handler
    that reads a key its payload lacks raises [KeyError]. *)

Record Candidate := {
  candidate_id : string;
  cand_kind : string;
  cand_statement : string;
  cand_scope_tier : string;
  cand_scope_id : string;
  cand_topic_key : string;
  cand_evidence_ref_ids : list string }.

Record card_payload := {
  cp_card_id : string;
  cp_kind : string;
  cp_statement : string;
  cp_scope_tier : string;
  cp_scope_id : string;
  cp_topic_key : string;
  cp_tags : list string;
  cp_status : string;
  cp_supersedes_card_id : option string;
  cp_evidence_ref_ids : list string }.

Inductive reject_details :=
| InvariantReason (reason : string)
| MatchedCard (matched_card_id : string) (lexical cosine : R)
| KindCap (cap : nat)
| SoftCap (cap : nat)
| Budget (budget : nat).

Record snapshot_payload := {
  snap_pack_id : string;
  snap_channel : string;
  snap_query_text : string;
  snap_policy_version : string;
  snap_ranked_candidates : list Pack.scored_card;
  snap_selected_cards : list (Pack.scored_card * list string) }.

Inductive payload :=
| PayEpisodeRecorded (episode_id payload_hash : string)
| PayArtifactRecorded (artifact_id artifact_kind content_hash : string)
| PayEvidenceRefRecorded (evidence_ref_id ref_kind ref_hash : string)
| PayConsolidationTriggered (episode_id trigger : string)
| PayCandidateProposed (cand : Candidate)
| PayCardRejected (cand_id kind statement reason_code : string) (details : reject_details)
| PayCardAdmitted (cand_id reason_code : string) (card : card_payload)
| PayCardMerged (cand_id target_card_id : string) (evidence_ref_ids : list string)
                (reason_code : string)
| PayCardSuperseded (cand_id old_card_id new_card_id from_status reason_code : string)
| PayCardArchived (card_id reason_code : string)
| PayCardStatusChanged (card_id from_status to_status reason_code : string)
                       (dispute_mass threshold : float)
| PayCardDeprecated (card_id reason_code : string)
| PayDisputeRecorded (dispute_id card_id evidence_ref_id : string) (weight : float)
| PayExposureRecorded (channel : string) (pack_snapshot : snapshot_payload)
                      (exposures : list Pack.exposure)
| PayOutcomeRecorded (outcome_type : string) (evidence_ref_ids : list string)
                     (metadata_json : metadata).

(** A row of [memory_events].  The columns [payload_json] and
    [payload_hash] are functions of the payload, which the row keeps. *)
Record event_row := {
  me_event_id : Z;
  me_episode_id : string;
  me_seq_no : Z;
  me_event_type : string;
  me_payload : payload;
  me_idempotency_key : string;
  me_producer : string;
  me_rule_version : string;
  me_created_at : string }.

(** *** Projections *)

Record card_row := {
  c_card_id : string;
  c_kind : string;
  c_statement : string;
  c_scope_tier : string;
  c_scope_id : string;
  c_topic_key : string;
  c_tags : list string;
  c_status : string;
  c_supersedes_card_id : option string;
  c_created_event_id : Z;
  c_updated_event_id : Z;
  c_archived_at : option string }.

Record decision_row := {
  cd_event_id : Z;
  cd_episode_id : string;
  cd_candidate_id : option string;
  cd_action : string;
  cd_reason_code : option string;
  cd_details : payload;
  cd_created_at : string }.

Record ledger_row := {
  cl_episode_id : string;
  cl_proposed_count : nat;
  cl_admitted_count : nat;
  cl_rejected_count : nat;
  cl_merged_count : nat;
  cl_superseded_count : nat;
  cl_archived_count : nat;
  cl_reason_breakdown : gmap string nat;
  cl_computed_at : string }.

Record fts_row := {
  fts_card_id : string;
  fts_statement : string;
  fts_topic_key : string;
  fts_tags : list string }.

Record embedding_row := {
  ce_card_id : string;
  ce_embedding_model : string;
  ce_embedding_vector : list R;
  ce_updated_event_id : Z }.

Record snapshot_row := {
  ps_pack_id : string;
  ps_episode_id : string;
  ps_channel : string;
  ps_query_text : string;
  ps_policy_version : string;
  ps_ranked_candidates : list Pack.scored_card;
  ps_selected_cards : list (Pack.scored_card * list string);
  ps_created_at : string }.

Record exposure_row := {
  x_exposure_id : string;
  x_episode_id : string;
  x_pack_id : string;
  x_card_id : string;
  x_channel : string;
  x_rank_position : nat;
  x_score_total : Q;
  x_source_event_id : Z;
  x_created_at : string }.

Record dispute_row := {
  d_dispute_id : string;
  d_card_id : string;
  d_evidence_ref_id : string;
  d_weight : float;
  d_event_id : Z;
  d_created_at : string }.

Record history_row := {
  h_card_id : string;
  h_event_id : Z;
  h_from_status : string;
  h_to_status : string;
  h_reason_code : string;
  h_created_at : string }.

Record outcome_row := {
  o_event_id : Z;
  o_episode_id : string;
  o_outcome_type : string;
  o_evidence_ref_ids : list string;
  o_metadata : metadata;
  o_created_at : string }.

(** A row of [utility_stats] without its key. *)
Record utility_stat := {
  u_wins : Z;
  u_losses : Z;
  u_reuse : Z;
  u_updated_event_id : Z }.

(** *** The database, the artifact files and the draws made so far

    [utility_stats] is keyed by [card_id] and no operation depends on the
    order of its rows, so it is a finite map.  [files] maps the path of an
    artifact file to its content.  [clock_reads] and
    [uuid_draws] count the readings of the clocks and the identifiers
    drawn. *)
Record store := {
  episodes : list episode_row;
  artifacts : list artifact_row;
  evidence_refs : list evidence_row;
  memory_events : list event_row;
  cards : list card_row;
  card_evidence_refs : list (string * string);
  consolidation_decisions : list decision_row;
  consolidation_ledger : list ledger_row;
  cards_fts : list fts_row;
  card_embeddings : list embedding_row;
  pack_snapshots : list snapshot_row;
  exposures : list exposure_row;
  disputes : list dispute_row;
  card_status_history : list history_row;
  outcomes : list outcome_row;
  utility_stats : gmap string utility_stat;
  files : gmap string string;
  clock_reads : nat;
  uuid_draws : nat }.

Definition set_episodes (v : list episode_row) (s : store) : store :=
  let 'Build_store a0 a1 a2 a3 a4 a5 a6 a7 a8 a9 a10 a11 a12 a13 a14 a15 a16 a17 a18 := s in
  Build_store v a1 a2 a3 a4 a5 a6 a7 a8 a9 a10 a11 a12 a13 a14 a15 a16 a17 a18.

Definition set_artifacts (v : list artifact_row) (s : store) : store :=
  let 'Build_store a0 a1 a2 a3 a4 a5 a6 a7 a8 a9 a10 a11 a12 a13 a14 a15 a16 a17 a18 := s in
  Build_store a0 v a2 a3 a4 a5 a6 a7 a8 a9 a10 a11 a12 a13 a14 a15 a16 a17 a18.

Definition set_evidence_refs (v : list evidence_row) (s : store) : store :=
  let 'Build_store a0 a1 a2 a3 a4 a5 a6 a7 a8 a9 a10 a11 a12 a13 a14 a15 a16 a17 a18 := s in
  Build_store a0 a1 v a3 a4 a5 a6 a7 a8 a9 a10 a11 a12 a13 a14 a15 a16 a17 a18.

Definition set_memory_events (v : list event_row) (s : store) : store :=
  let 'Build_store a0 a1 a2 a3 a4 a5 a6 a7 a8 a9 a10 a11 a12 a13 a14 a15 a16 a17 a18 := s in
  Build_store a0 a1 a2 v a4 a5 a6 a7 a8 a9 a10 a11 a12 a13 a14 a15 a16 a17 a18.

Definition set_cards (v : list card_row) (s : store) : store :=
  let 'Build_store a0 a1 a2 a3 a4 a5 a6 a7 a8 a9 a10 a11 a12 a13 a14 a15 a16 a17 a18 := s in
  Build_store a0 a1 a2 a3 v a5 a6 a7 a8 a9 a10 a11 a12 a13 a14 a15 a16 a17 a18.

Definition set_card_evidence_refs (v : list (string * string)) (s : store) : store :=
  let 'Build_store a0 a1 a2 a3 a4 a5 a6 a7 a8 a9 a10 a11 a12 a13 a14 a15 a16 a17 a18 := s in
  Build_store a0 a1 a2 a3 a4 v a6 a7 a8 a9 a10 a11 a12 a13 a14 a15 a16 a17 a18.

Definition set_consolidation_decisions (v : list decision_row) (s : store) : store :=
  let 'Build_store a0 a1 a2 a3 a4 a5 a6 a7 a8 a9 a10 a11 a12 a13 a14 a15 a16 a17 a18 := s in
  Build_store a0 a1 a2 a3 a4 a5 v a7 a8 a9 a10 a11 a12 a13 a14 a15 a16 a17 a18.

Definition set_consolidation_ledger (v : list ledger_row) (s : store) : store :=
  let 'Build_store a0 a1 a2 a3 a4 a5 a6 a7 a8 a9 a10 a11 a12 a13 a14 a15 a16 a17 a18 := s in
  Build_store a0 a1 a2 a3 a4 a5 a6 v a8 a9 a10 a11 a12 a13 a14 a15 a16 a17 a18.

Definition set_cards_fts (v : list fts_row) (s : store) : store :=
  let 'Build_store a0 a1 a2 a3 a4 a5 a6 a7 a8 a9 a10 a11 a12 a13 a14 a15 a16 a17 a18 := s in
  Build_store a0 a1 a2 a3 a4 a5 a6 a7 v a9 a10 a11 a12 a13 a14 a15 a16 a17 a18.

Definition set_card_embeddings (v : list embedding_row) (s : store) : store :=
  let 'Build_store a0 a1 a2 a3 a4 a5 a6 a7 a8 a9 a10 a11 a12 a13 a14 a15 a16 a17 a18 := s in
  Build_store a0 a1 a2 a3 a4 a5 a6 a7 a8 v a10 a11 a12 a13 a14 a15 a16 a17 a18.

Definition set_pack_snapshots (v : list snapshot_row) (s : store) : store :=
  let 'Build_store a0 a1 a2 a3 a4 a5 a6 a7 a8 a9 a10 a11 a12 a13 a14 a15 a16 a17 a18 := s in
  Build_store a0 a1 a2 a3 a4 a5 a6 a7 a8 a9 v a11 a12 a13 a14 a15 a16 a17 a18.

Definition set_exposures (v : list exposure_row) (s : store) : store :=
  let 'Build_store a0 a1 a2 a3 a4 a5 a6 a7 a8 a9 a10 a11 a12 a13 a14 a15 a16 a17 a18 := s in
  Build_store a0 a1 a2 a3 a4 a5 a6 a7 a8 a9 a10 v a12 a13 a14 a15 a16 a17 a18.

Definition set_disputes (v : list dispute_row) (s : store) : store :=
  let 'Build_store a0 a1 a2 a3 a4 a5 a6 a7 a8 a9 a10 a11 a12 a13 a14 a15 a16 a17 a18 := s in
  Build_store a0 a1 a2 a3 a4 a5 a6 a7 a8 a9 a10 a11 v a13 a14 a15 a16 a17 a18.

Definition set_card_status_history (v : list history_row) (s : store) : store :=
  let 'Build_store a0 a1 a2 a3 a4 a5 a6 a7 a8 a9 a10 a11 a12 a13 a14 a15 a16 a17 a18 := s in
  Build_store a0 a1 a2 a3 a4 a5 a6 a7 a8 a9 a10 a11 a12 v a14 a15 a16 a17 a18.

Definition set_outcomes (v : list outcome_row) (s : store) : store :=
  let 'Build_store a0 a1 a2 a3 a4 a5 a6 a7 a8 a9 a10 a11 a12 a13 a14 a15 a16 a17 a18 := s in
  Build_store a0 a1 a2 a3 a4 a5 a6 a7 a8 a9 a10 a11 a12 a13 v a15 a16 a17 a18.

Definition set_utility_stats (v : gmap string utility_stat) (s : store) : store :=
  let 'Build_store a0 a1 a2 a3 a4 a5 a6 a7 a8 a9 a10 a11 a12 a13 a14 a15 a16 a17 a18 := s in
  Build_store a0 a1 a2 a3 a4 a5 a6 a7 a8 a9 a10 a11 a12 a13 a14 v a16 a17 a18.

Definition set_files (v : gmap string string) (s : store) : store :=
  let 'Build_store a0 a1 a2 a3 a4 a5 a6 a7 a8 a9 a10 a11 a12 a13 a14 a15 a16 a17 a18 := s in
  Build_store a0 a1 a2 a3 a4 a5 a6 a7 a8 a9 a10 a11 a12 a13 a14 a15 v a17 a18.

Definition set_clock_reads (v : nat) (s : store) : store :=
  let 'Build_store a0 a1 a2 a3 a4 a5 a6 a7 a8 a9 a10 a11 a12 a13 a14 a15 a16 a17 a18 := s in
  Build_store a0 a1 a2 a3 a4 a5 a6 a7 a8 a9 a10 a11 a12 a13 a14 a15 a16 v a18.

Definition set_uuid_draws (v : nat) (s : store) : store :=
  let 'Build_store a0 a1 a2 a3 a4 a5 a6 a7 a8 a9 a10 a11 a12 a13 a14 a15 a16 a17 a18 := s in
  Build_store a0 a1 a2 a3 a4 a5 a6 a7 a8 a9 a10 a11 a12 a13 a14 a15 a16 a17 v.

Definition empty_store : store :=
  Build_store [] [] [] [] [] [] [] [] [] [] [] [] [] [] [] ∅ ∅ 0 0.

(** The projections, as one value. *)
Definition projection (s : store) :=
  (cards s, card_evidence_refs s, consolidation_decisions s, consolidation_ledger s,
   cards_fts s, card_embeddings s, pack_snapshots s, exposures s, disputes s,
   card_status_history s, outcomes s, utility_stats s).

(** Computations that read and write the store and may raise. *)
Definition M (A : Type) : Type := store -> result (A * store).

Definition ret {A} (a : A) : M A := fun s => Ok (a, s).

Definition bind {A B} (m : M A) (f : A -> M B) : M B :=
  fun s => match m s with
           | Ok (a, s') => f a s'
           | Raise e => Raise e
           end.

Definition raise {A} (e : error) : M A := fun _ => Raise e.
Definition get_store : M store := fun s => Ok (s, s).
Definition modify (f : store -> store) : M unit := fun s => Ok (tt, f s).

Notation "x <- m ;; k" := (bind m (fun x => k))
  (at level 62, m at next level, right associativity).
Notation "m ;;; k" := (bind m (fun _ => k))
  (at level 62, right associativity).

(** [for x in xs: body(x)] *)
Fixpoint for_each {A} (xs : list A) (body : A -> M unit) : M unit :=
  match xs with
  | [] => ret tt
  | x :: rest => body x ;;; for_each rest body
  end.

(** *** SQL on a table kept as a list of rows

    A table is given with the test [same] that two rows share their primary
    key. *)

Definition select_one {A} (p : A -> bool) (rows : list A) : option A := List.find p rows.

(** [INSERT OR IGNORE]: a row whose key is taken is dropped. *)
Definition insert_or_ignore {A} (same : A -> A -> bool) (row : A) (rows : list A) : list A :=
  if existsb (same row) rows then rows else rows ++ [row].

(** [INSERT OR REPLACE]: the row of that key, if any, is deleted first. *)
Definition insert_or_replace {A} (same : A -> A -> bool) (row : A) (rows : list A) : list A :=
  List.filter (fun r => negb (same row r)) rows ++ [row].

(** [UPDATE ... WHERE p] *)
Definition update_where {A} (p : A -> bool) (f : A -> A) (rows : list A) : list A :=
  map (fun r => if p r then f r else r) rows.

(** [sorted(rows, key)] and [ORDER BY]: a stable insertion sort, [le x y]
    telling that [x] may come before [y]. *)
Fixpoint insert_by {A} (le : A -> A -> bool) (x : A) (l : list A) : list A :=
  match l with
  | [] => [x]
  | y :: l' => if le x y then x :: l else y :: insert_by le x l'
  end.

Definition sort_by {A} (le : A -> A -> bool) (l : list A) : list A :=
  fold_right (insert_by le) [] l.

(** [MAX] of a column: [None] on no row. *)
Definition max_Z (l : list Z) : option Z :=
  fold_left (fun m x => match m with None => Some x | Some y => Some (Z.max y x) end) l None.

Definition max_string (l : list string) : option string :=
  fold_left (fun m x => match m with
                        | None => Some x
                        | Some y => Some (if String.leb x y then y else x)
                        end) l None.

(** Truth value of a Python string. *)
Definition truthy (x : string) : bool := negb (x =s? "").

Definition require (b : bool) (e : error) : M unit :=
  if b then ret tt else raise e.

Definition same_episode (a b : episode_row) : bool := ep_episode_id a =s? ep_episode_id b.
Definition same_artifact (a b : artifact_row) : bool := art_artifact_id a =s? art_artifact_id b.
Definition same_evidence (a b : evidence_row) : bool :=
  ev_evidence_ref_id a =s? ev_evidence_ref_id b.
Definition same_card (a b : card_row) : bool := c_card_id a =s? c_card_id b.
Definition same_link (a b : string * string) : bool :=
  (fst a =s? fst b) && (snd a =s? snd b).
Definition same_ledger (a b : ledger_row) : bool := cl_episode_id a =s? cl_episode_id b.
Definition same_embedding (a b : embedding_row) : bool := ce_card_id a =s? ce_card_id b.
Definition same_snapshot (a b : snapshot_row) : bool := ps_pack_id a =s? ps_pack_id b.
Definition same_exposure (a b : exposure_row) : bool := x_exposure_id a =s? x_exposure_id b.
Definition same_dispute (a b : dispute_row) : bool := d_dispute_id a =s? d_dispute_id b.
Definition same_history (a b : history_row) : bool :=
  (h_card_id a =s? h_card_id b) && (h_event_id a =? h_event_id b)%Z.
Definition same_outcome (a b : outcome_row) : bool := (o_event_id a =? o_event_id b)%Z.

Definition episode_exists (s : store) (episode_id : string) : bool :=
  existsb (fun r => ep_episode_id r =s? episode_id) (episodes s).
Definition artifact_exists (s : store) (artifact_id : string) : bool :=
  existsb (fun r => art_artifact_id r =s? artifact_id) (artifacts s).
Definition evidence_exists (s : store) (evidence_ref_id : string) : bool :=
  existsb (fun r => ev_evidence_ref_id r =s? evidence_ref_id) (evidence_refs s).
Definition card_exists (s : store) (card_id : string) : bool :=
  existsb (fun r => c_card_id r =s? card_id) (cards s).
Definition find_card (s : store) (card_id : string) : option card_row :=
  select_one (fun r => c_card_id r =s? card_id) (cards s).

(** *** Constants *)

Definition SCHEMA_VERSION : nat := 1.
Definition RULE_VERSION : string := "v1".

Definition KINDS : list string :=
  ["preference"; "constraint"; "commitment"; "fact"; "tactic"; "negative_result"].
Definition NORMATIVE_KINDS : list string := ["preference"; "constraint"; "commitment"].
Definition SCOPE_TIERS : list string := ["repo"; "domain"; "global"].
Definition STATUSES : list string := ["active"; "needs_recheck"; "deprecated"; "archived"].
Definition CHANNELS : list string := ["auto_pack"; "search"; "explicit_read"; "check"].
Definition TERMINAL_OUTCOMES : list string :=
  ["tool_success"; "tool_failure"; "user_confirmed_helpful"; "user_corrected"].

Definition CONSOLIDATION_EVENTS : list string :=
  ["candidate_proposed"; "card_rejected"; "card_admitted"; "card_merged";
   "card_superseded"; "card_archived"].

Definition is_in (x : string) (l : list string) : bool := Text.mem_string x l.

Section Reducer.
Context `{Platform}.

(** [now_iso()]: one more reading of the clock. *)
Definition read_now_iso : M string := fun s =>
  Ok (now_iso (clock_reads s), set_clock_reads (S (clock_reads s)) s).

(** [CURRENT_TIMESTAMP], the default of a [created_at] column. *)
Definition read_current_timestamp : M string := fun s =>
  Ok (current_timestamp (clock_reads s), set_clock_reads (S (clock_reads s)) s).

(** [payload.get("candidate_id")] and [payload.get("reason_code")] *)
Definition candidate_id_of (p : payload) : option string :=
  match p with
  | PayCandidateProposed c => Some (candidate_id c)
  | PayCardRejected c _ _ _ _ => Some c
  | PayCardAdmitted c _ _ => Some c
  | PayCardMerged c _ _ _ => Some c
  | PayCardSuperseded c _ _ _ _ => Some c
  | _ => None
  end.

Definition reason_code_of (p : payload) : option string :=
  match p with
  | PayCardRejected _ _ _ r _ => Some r
  | PayCardAdmitted _ r _ => Some r
  | PayCardMerged _ _ _ r => Some r
  | PayCardSuperseded _ _ _ _ r => Some r
  | PayCardArchived _ r => Some r
  | PayCardStatusChanged _ _ _ r _ _ => Some r
  | PayCardDeprecated _ r => Some r
  | _ => None
  end.

(** [refresh_ledger]: the counts of the episode's consolidation events and
    the histogram of their reason codes.  [memory_events] is in [event_id]
    order. *)
Definition refresh_ledger (episode_id : string) : M unit :=
  s <- get_store ;;
  let mine := List.filter (fun e => me_episode_id e =s? episode_id) (memory_events s) in
  let rows := List.filter (fun e => is_in (me_event_type e) CONSOLIDATION_EVENTS) mine in
  let count t := length (List.filter (fun e => me_event_type e =s? t) rows) in
  let reasons :=
    fold_left (fun m r =>
                 match reason_code_of (me_payload r) with
                 | Some reason =>
                     if truthy reason then <[reason := S (default 0 (m !! reason))]> m else m
                 | None => m
                 end) rows (∅ : gmap string nat) in
  computed_at <- match max_string (map me_created_at mine) with
                 | Some latest => if truthy latest then ret latest else read_now_iso
                 | None => read_now_iso
                 end ;;
  modify (fun s =>
    set_consolidation_ledger
      (insert_or_replace same_ledger
         {| cl_episode_id := episode_id;
            cl_proposed_count := count "candidate_proposed";
            cl_admitted_count := count "card_admitted";
            cl_rejected_count := count "card_rejected";
            cl_merged_count := count "card_merged";
            cl_superseded_count := count "card_superseded";
            cl_archived_count := count "card_archived";
            cl_reason_breakdown := reasons;
            cl_computed_at := computed_at |}
         (consolidation_ledger s)) s).

(** [refresh_card_indices]: the full-text row and the embedding of a card. *)
Definition refresh_card_indices (card_id : string) (updated_event_id : Z) : M unit :=
  s <- get_store ;;
  match find_card s card_id with
  | None => ret tt
  | Some row =>
      let model := "pseudo-v1" in
      match Similarity.pseudo_embedding (c_statement row) 64 model with
      | None => raise ZeroDivisionError
      | Some vec =>
          modify (fun s =>
            let fts := List.filter (fun r => negb (fts_card_id r =s? card_id)) (cards_fts s)
                       ++ [{| fts_card_id := c_card_id row; fts_statement := c_statement row;
                              fts_topic_key := c_topic_key row; fts_tags := c_tags row |}] in
            let emb := insert_or_replace same_embedding
                         {| ce_card_id := c_card_id row; ce_embedding_model := model;
                            ce_embedding_vector := vec;
                            ce_updated_event_id := updated_event_id |}
                         (card_embeddings s) in
            set_card_embeddings emb (set_cards_fts fts s))
      end
  end.

(** [INSERT OR REPLACE INTO card_status_history]: the card must exist
    (foreign key). *)
Definition record_status_history (card_id : string) (event_id : Z)
    (from_status to_status reason_code event_ts : string) : M unit :=
  s <- get_store ;;
  require (card_exists s card_id) (IntegrityError "FOREIGN KEY constraint failed") ;;;
  modify (fun s =>
    set_card_status_history
      (insert_or_replace same_history
         {| h_card_id := card_id; h_event_id := event_id; h_from_status := from_status;
            h_to_status := to_status; h_reason_code := reason_code;
            h_created_at := event_ts |}
         (card_status_history s)) s).

(** [UPDATE cards SET status = ?, updated_event_id = ? WHERE card_id = ?]:
    a status outside the four fails the CHECK when a row is touched. *)
Definition update_card_status (card_id to_status : string) (event_id : Z)
    (archived_at : option string) : M unit :=
  s <- get_store ;;
  require (negb (card_exists s card_id) || is_in to_status STATUSES)
          (IntegrityError "CHECK constraint failed") ;;;
  modify (fun s =>
    set_cards
      (update_where (fun r => c_card_id r =s? card_id)
         (fun r => {| c_card_id := c_card_id r; c_kind := c_kind r;
                      c_statement := c_statement r; c_scope_tier := c_scope_tier r;
                      c_scope_id := c_scope_id r; c_topic_key := c_topic_key r;
                      c_tags := c_tags r; c_status := to_status;
                      c_supersedes_card_id := c_supersedes_card_id r;
                      c_created_event_id := c_created_event_id r;
                      c_updated_event_id := event_id;
                      c_archived_at := match archived_at with
                                       | Some t => Some t
                                       | None => c_archived_at r
                                       end |})
         (cards s)) s).

(** [UPDATE cards SET updated_event_id = ? WHERE card_id = ?] *)
Definition touch_card (card_id : string) (event_id : Z) : M unit :=
  modify (fun s =>
    set_cards
      (update_where (fun r => c_card_id r =s? card_id)
         (fun r => {| c_card_id := c_card_id r; c_kind := c_kind r;
                      c_statement := c_statement r; c_scope_tier := c_scope_tier r;
                      c_scope_id := c_scope_id r; c_topic_key := c_topic_key r;
                      c_tags := c_tags r; c_status := c_status r;
                      c_supersedes_card_id := c_supersedes_card_id r;
                      c_created_event_id := c_created_event_id r;
                      c_updated_event_id := event_id;
                      c_archived_at := c_archived_at r |})
         (cards s)) s).

(** [INSERT OR IGNORE INTO card_evidence_refs]: both ends must exist. *)
Definition link_evidence (card_id : string) (evidence_ref_ids : list string) : M unit :=
  for_each evidence_ref_ids (fun ev_id =>
    s <- get_store ;;
    require (card_exists s card_id && evidence_exists s ev_id)
            (IntegrityError "FOREIGN KEY constraint failed") ;;;
    modify (fun s =>
      set_card_evidence_refs
        (insert_or_ignore same_link (card_id, ev_id) (card_evidence_refs s)) s)).

(** [INSERT OR REPLACE INTO cards] for an admitted card. *)
Definition upsert_card (card : card_payload) (event_id : Z) : M unit :=
  s <- get_store ;;
  require (is_in (cp_kind card) KINDS && is_in (cp_scope_tier card) SCOPE_TIERS
           && is_in (cp_status card) STATUSES)
          (IntegrityError "CHECK constraint failed") ;;;
  require (match cp_supersedes_card_id card with
           | None => true
           | Some old => card_exists s old || (old =s? cp_card_id card)
           end)
          (IntegrityError "FOREIGN KEY constraint failed") ;;;
  let created := match find_card s (cp_card_id card) with
                 | Some old => c_created_event_id old
                 | None => event_id
                 end in
  modify (fun s =>
    set_cards
      (insert_or_replace same_card
         {| c_card_id := cp_card_id card; c_kind := cp_kind card;
            c_statement := cp_statement card; c_scope_tier := cp_scope_tier card;
            c_scope_id := cp_scope_id card; c_topic_key := cp_topic_key card;
            c_tags := cp_tags card; c_status := cp_status card;
            c_supersedes_card_id := cp_supersedes_card_id card;
            c_created_event_id := created; c_updated_event_id := event_id;
            c_archived_at := None |}
         (cards s)) s).

Definition apply_consolidation_event (event_id : Z) (episode_id event_type : string)
    (p : payload) (event_ts : string) : M unit :=
  modify (fun s =>
    set_consolidation_decisions
      (consolidation_decisions s
       ++ [{| cd_event_id := event_id; cd_episode_id := episode_id;
              cd_candidate_id := candidate_id_of p; cd_action := event_type;
              cd_reason_code := reason_code_of p; cd_details := p;
              cd_created_at := event_ts |}]) s) ;;;
  if event_type =s? "card_admitted" then
    match p with
    | PayCardAdmitted _ _ card =>
        upsert_card card event_id ;;;
        link_evidence (cp_card_id card) (cp_evidence_ref_ids card)
    | _ => raise (KeyError "card")
    end
  else if event_type =s? "card_merged" then
    match p with
    | PayCardMerged _ target evidence_ref_ids _ =>
        touch_card target event_id ;;;
        link_evidence target evidence_ref_ids
    | _ => raise (KeyError "target_card_id")
    end
  else if event_type =s? "card_superseded" then
    match p with
    | PayCardSuperseded _ old _ from_status reason =>
        update_card_status old "deprecated" event_id None ;;;
        record_status_history old event_id from_status "deprecated" reason event_ts
    | _ => raise (KeyError "old_card_id")
    end
  else if event_type =s? "card_archived" then
    match p with
    | PayCardArchived card_id reason =>
        s <- get_store ;;
        let from_status := match find_card s card_id with
                           | Some row => c_status row
                           | None => "active"
                           end in
        update_card_status card_id "archived" event_id (Some event_ts) ;;;
        record_status_history card_id event_id from_status "archived" reason event_ts
    | _ => raise (KeyError "card_id")
    end
  else ret tt.

(** The card ids that a consolidation payload names, [sorted(set(card_ids))]. *)
Definition payload_card_ids (p : payload) : list string :=
  let ids := match p with
             | PayCardAdmitted _ _ card => [cp_card_id card]
             | PayCardMerged _ target _ _ => [target]
             | PayCardSuperseded _ old new _ _ => [old; new]
             | PayCardArchived card_id _ => [card_id]
             | _ => []
             end in
  sort_by String.leb (nodup string_dec (List.filter truthy ids)).

End Reducer.
(** *** The utility projection *)

(** [stats[cid]] together with [updated_event[cid]]: the two dictionaries
    always have the same keys. *)
Abbreviation stats_map := (gmap string utility_stat).

Definition find_event (s : store) (event_id : Z) : option event_row :=
  select_one (fun e => (me_event_id e =? event_id)%Z) (memory_events s).

Definition is_tactic (s : store) (card_id : string) : bool :=
  match find_card s card_id with
  | Some c => c_kind c =s? "tactic"
  | None => false
  end.

(** The first query: exposures of tactic cards on every channel, grouped
    by card, with [COUNT( * )] and [MAX(source_event_id)]. *)
Definition reuse_stats (s : store) : stats_map :=
  let rows := List.filter (fun e => is_tactic s (x_card_id e)) (exposures s) in
  fold_left
    (fun stats cid =>
       let mine := List.filter (fun e => x_card_id e =s? cid) rows in
       <[cid := {| u_wins := 0; u_losses := 0; u_reuse := Z.of_nat (length mine);
                   u_updated_event_id := default 0%Z (max_Z (map x_source_event_id mine)) |}]>
         stats)
    (nodup string_dec (map x_card_id rows)) ∅.

(** The outcomes of an episode joined with their events, by [seq_no]. *)
Definition outcome_rows (s : store) (episode_id : string) : list (outcome_row * Z) :=
  let joined :=
    flat_map (fun o => match find_event s (o_event_id o) with
                       | Some e => [(o, me_seq_no e)]
                       | None => []
                       end)
             (List.filter (fun o => o_episode_id o =s? episode_id) (outcomes s)) in
  sort_by (fun a b => (snd a <=? snd b)%Z) joined.

Record outcome_signals := {
  anchored_present : bool;
  success_signal : bool;
  failure_signal : bool;
  first_terminal_seq : option Z;
  first_terminal_event : Z }.

(** The body of [for row in outcome_rows]. *)
Definition scan_step (sig : outcome_signals) (row : outcome_row * Z) : outcome_signals :=
  let o := fst row in
  {| anchored_present :=
       match o_evidence_ref_ids o with [] => anchored_present sig | _ => true end;
     success_signal :=
       if is_in (o_outcome_type o) ["tool_success"; "user_confirmed_helpful"]
       then true else success_signal sig;
     failure_signal :=
       if is_in (o_outcome_type o) ["tool_failure"; "user_corrected"]
       then true else failure_signal sig;
     first_terminal_seq :=
       match first_terminal_seq sig with
       | None => if is_in (o_outcome_type o) TERMINAL_OUTCOMES
                 then Some (snd row) else None
       | Some q => Some q
       end;
     first_terminal_event :=
       match first_terminal_seq sig with
       | None => if is_in (o_outcome_type o) TERMINAL_OUTCOMES
                 then o_event_id o else first_terminal_event sig
       | Some _ => first_terminal_event sig
       end |}.

(** The scan of the outcome rows. *)
Definition scan_outcomes (rows : list (outcome_row * Z)) : outcome_signals :=
  fold_left scan_step rows
    {| anchored_present := false; success_signal := false; failure_signal := false;
       first_terminal_seq := None; first_terminal_event := 0 |}.

(** [ORDER BY e.rank_position ASC, e.score_total DESC, e.card_id ASC] *)
Definition exposure_before (a b : exposure_row) : bool :=
  if x_rank_position a <? x_rank_position b then true
  else if x_rank_position b <? x_rank_position a then false
  else if Qle_bool (x_score_total a) (x_score_total b)
          && negb (Qle_bool (x_score_total b) (x_score_total a)) then false
  else if Qle_bool (x_score_total b) (x_score_total a)
          && negb (Qle_bool (x_score_total a) (x_score_total b)) then true
  else String.leb (x_card_id a) (x_card_id b).

(** The second query: the [auto_pack] exposures of tactic cards of the
    episode whose event comes before [first_seq], in rank order. *)
Definition exposure_rows (s : store) (episode_id : string) (first_seq : Z)
  : list exposure_row :=
  sort_by exposure_before
    (List.filter
       (fun e => (x_episode_id e =s? episode_id) && (x_channel e =s? "auto_pack")
                 && is_tactic s (x_card_id e)
                 && match find_event s (x_source_event_id e) with
                    | Some ev => (me_seq_no ev <? first_seq)%Z
                    | None => false
                    end)
       (exposures s)).

(** The body of [for ex in eligible]. *)
Definition credit (sig : outcome_signals) (stats : stats_map) (ex : exposure_row)
  : stats_map :=
  let cid := x_card_id ex in
  let cur := default {| u_wins := 0; u_losses := 0; u_reuse := 0; u_updated_event_id := 0 |}
                     (stats !! cid) in
  <[cid := {| u_wins := if success_signal sig then u_wins cur + 1 else u_wins cur;
              u_losses := if failure_signal sig then u_losses cur + 1 else u_losses cur;
              u_reuse := u_reuse cur;
              u_updated_event_id := Z.max (u_updated_event_id cur) (first_terminal_event sig) |}]>
    stats.

(** The exposures that an episode credits: the first two, when the episode
    has an anchored outcome and a terminal one. *)
Definition eligible (s : store) (episode_id : string) : outcome_signals * list exposure_row :=
  let sig := scan_outcomes (outcome_rows s episode_id) in
  match anchored_present sig, first_terminal_seq sig with
  | true, Some first_seq => (sig, firstn 2 (exposure_rows s episode_id first_seq))
  | _, _ => (sig, [])
  end.

Definition attribute_episode (s : store) (stats : stats_map) (episode_id : string)
  : stats_map :=
  let '(sig, rows) := eligible s episode_id in
  fold_left (credit sig) rows stats.

(** [recompute_utility_projection]: the table is emptied and written anew.
    Every key of [stats] is a card of the cards table, so the foreign key
    of [utility_stats] holds. *)
Definition recompute_utility_projection (s : store) : store :=
  let episode_ids := nodup string_dec (map o_episode_id (outcomes s)) in
  set_utility_stats (fold_left (attribute_episode s) episode_ids (reuse_stats s)) s.

Section Log.
Context `{Platform}.

(** *** The reducer *)

(** [event_ts = event_created_at or now_iso()] *)
Definition event_timestamp (event_created_at : string) : M string :=
  if truthy event_created_at then ret event_created_at else read_now_iso.

(** The branches of [apply_event], one definition per event type. *)

Definition handle_consolidation (event_id : Z) (episode_id event_type : string)
    (p : payload) (event_ts : string) : M unit :=
  apply_consolidation_event event_id episode_id event_type p event_ts ;;;
  refresh_ledger episode_id ;;;
  if is_in event_type ["card_admitted"; "card_merged"; "card_superseded"; "card_archived"]
  then for_each (payload_card_ids p) (fun cid => refresh_card_indices cid event_id)
  else ret tt.

Definition handle_card_status_changed (event_id : Z) (p : payload) (event_ts : string)
  : M unit :=
  match p with
  | PayCardStatusChanged card_id from_status to_status reason _ _ =>
      update_card_status card_id to_status event_id None ;;;
      record_status_history card_id event_id from_status to_status reason event_ts ;;;
      refresh_card_indices card_id event_id
  | _ => raise (KeyError "card_id")
  end.

Definition handle_card_deprecated (event_id : Z) (p : payload) (event_ts : string)
  : M unit :=
  match p with
  | PayCardDeprecated card_id reason =>
      s <- get_store ;;
      let from_status := match find_card s card_id with
                         | Some row => c_status row
                         | None => "active"
                         end in
      update_card_status card_id "deprecated" event_id None ;;;
      record_status_history card_id event_id from_status "deprecated" reason event_ts ;;;
      refresh_card_indices card_id event_id
  | _ => raise (KeyError "card_id")
  end.

Definition handle_dispute_recorded (event_id : Z) (p : payload) (event_ts : string)
  : M unit :=
  match p with
  | PayDisputeRecorded dispute_id card_id evidence_ref_id weight =>
      s <- get_store ;;
      require (card_exists s card_id && evidence_exists s evidence_ref_id)
              (IntegrityError "FOREIGN KEY constraint failed") ;;;
      modify (fun s =>
        set_disputes
          (insert_or_replace same_dispute
             {| d_dispute_id := dispute_id; d_card_id := card_id;
                d_evidence_ref_id := evidence_ref_id; d_weight := weight;
                d_event_id := event_id; d_created_at := event_ts |}
             (disputes s)) s)
  | _ => raise (KeyError "dispute_id")
  end.

(** [pack_snapshots], [exposures] and [outcomes] refer to the episode by a
    foreign key; the exposures of one event share the episode that the
    snapshot was checked against. *)
Definition handle_exposure_recorded (event_id : Z) (episode_id : string) (p : payload)
    (event_ts : string) : M unit :=
  match p with
  | PayExposureRecorded _ snap exps =>
      require (is_in (snap_channel snap) CHANNELS) (IntegrityError "CHECK constraint failed") ;;;
      s <- get_store ;;
      require (episode_exists s episode_id)
              (IntegrityError "FOREIGN KEY constraint failed") ;;;
      modify (fun s =>
        set_pack_snapshots
          (insert_or_replace same_snapshot
             {| ps_pack_id := snap_pack_id snap; ps_episode_id := episode_id;
                ps_channel := snap_channel snap; ps_query_text := snap_query_text snap;
                ps_policy_version := snap_policy_version snap;
                ps_ranked_candidates := snap_ranked_candidates snap;
                ps_selected_cards := snap_selected_cards snap;
                ps_created_at := event_ts |}
             (pack_snapshots s)) s) ;;;
      for_each exps (fun exp =>
        s <- get_store ;;
        require (card_exists s (Pack.exp_card_id exp))
                (IntegrityError "FOREIGN KEY constraint failed") ;;;
        require (is_in (Pack.exp_channel exp) CHANNELS)
                (IntegrityError "CHECK constraint failed") ;;;
        modify (fun s =>
          set_exposures
            (insert_or_replace same_exposure
               {| x_exposure_id := Pack.exposure_id exp; x_episode_id := episode_id;
                  x_pack_id := snap_pack_id snap; x_card_id := Pack.exp_card_id exp;
                  x_channel := Pack.exp_channel exp;
                  x_rank_position := Pack.rank_position exp;
                  x_score_total := Pack.exp_score_total exp;
                  x_source_event_id := event_id; x_created_at := event_ts |}
               (exposures s)) s)) ;;;
      modify recompute_utility_projection
  | _ => raise (KeyError "pack_snapshot")
  end.

Definition handle_outcome_recorded (event_id : Z) (episode_id : string) (p : payload)
    (event_ts : string) : M unit :=
  match p with
  | PayOutcomeRecorded outcome_type evidence_ref_ids meta =>
      s <- get_store ;;
      require (episode_exists s episode_id)
              (IntegrityError "FOREIGN KEY constraint failed") ;;;
      modify (fun s =>
        set_outcomes
          (insert_or_replace same_outcome
             {| o_event_id := event_id; o_episode_id := episode_id;
                o_outcome_type := outcome_type; o_evidence_ref_ids := evidence_ref_ids;
                o_metadata := meta; o_created_at := event_ts |}
             (outcomes s)) s) ;;;
      modify recompute_utility_projection
  | _ => raise (KeyError "outcome_type")
  end.

Definition apply_event (event_id : Z) (episode_id event_type : string) (p : payload)
    (event_created_at : string) : M unit :=
  event_ts <- event_timestamp event_created_at ;;
  if is_in event_type CONSOLIDATION_EVENTS then
    handle_consolidation event_id episode_id event_type p event_ts
  else if event_type =s? "card_status_changed" then
    handle_card_status_changed event_id p event_ts
  else if event_type =s? "card_deprecated" then
    handle_card_deprecated event_id p event_ts
  else if event_type =s? "dispute_recorded" then
    handle_dispute_recorded event_id p event_ts
  else if event_type =s? "exposure_recorded" then
    handle_exposure_recorded event_id episode_id p event_ts
  else if event_type =s? "outcome_recorded" then
    handle_outcome_recorded event_id episode_id p event_ts
  else ret tt.

(** *** The append contract *)

Record append_result := {
  r_event_id : Z;
  r_episode_id : string;
  r_seq_no : Z;
  r_inserted : bool }.

(** [COALESCE(MAX(seq_no), 0) + 1] over the events of the episode. *)
Definition next_seq (events : list event_row) (episode_id : string) : Z :=
  default 0%Z
    (max_Z (map me_seq_no (List.filter (fun e => me_episode_id e =s? episode_id) events)))
  + 1.

(** [cur.lastrowid] of an [AUTOINCREMENT] key: rows are never deleted from
    [memory_events], so it is one more than the largest id. *)
Definition next_event_id (events : list event_row) : Z :=
  default 0%Z (max_Z (map me_event_id events)) + 1.

Definition find_by_key (events : list event_row) (idempotency_key : string)
  : option event_row :=
  select_one (fun e => me_idempotency_key e =s? idempotency_key) events.

Definition append_event (episode_id event_type : string) (p : payload)
    (idempotency_key producer rule_version : string) (apply : bool) : M append_result :=
  s <- get_store ;;
  match find_by_key (memory_events s) idempotency_key with
  | Some row =>
      ret {| r_event_id := me_event_id row; r_episode_id := me_episode_id row;
             r_seq_no := me_seq_no row; r_inserted := false |}
  | None =>
      let seq_no := next_seq (memory_events s) episode_id in
      require (episode_exists s episode_id)
              (IntegrityError "FOREIGN KEY constraint failed") ;;;
      let event_id := next_event_id (memory_events s) in
      created_at <- read_current_timestamp ;;
      modify (fun s =>
        set_memory_events
          (memory_events s
           ++ [{| me_event_id := event_id; me_episode_id := episode_id;
                  me_seq_no := seq_no; me_event_type := event_type; me_payload := p;
                  me_idempotency_key := idempotency_key; me_producer := producer;
                  me_rule_version := rule_version; me_created_at := created_at |}]) s) ;;;
      (if apply then apply_event event_id episode_id event_type p created_at else ret tt) ;;;
      ret {| r_event_id := event_id; r_episode_id := episode_id; r_seq_no := seq_no;
             r_inserted := true |}
  end.

(** *** Sequence integrity *)

(** [_seq_integrity_issues]: the episodes whose sorted sequence numbers are
    not [1..N], each with the numbers found. *)
Definition seq_integrity_issues (s : store) : list (string * list Z) :=
  flat_map
    (fun ep =>
       let episode_id := ep_episode_id ep in
       let seqs := sort_by Z.leb
                     (map me_seq_no
                        (List.filter (fun e => me_episode_id e =s? episode_id)
                                     (memory_events s))) in
       let expected := map Z.of_nat (seq 1 (length seqs)) in
       if bool_decide (seqs = expected) then [] else [(episode_id, seqs)])
    (episodes s).

End Log.
(** *** Disputes *)

(** [DISPUTE_WEIGHTS.get(ref_kind, 0.0)] *)
Definition dispute_weight (ref_kind : string) : float :=
  if ref_kind =s? "tool_output" then 1.0%float
  else if ref_kind =s? "doc_span" then 0.7%float
  else if ref_kind =s? "user_span" then 0.4%float
  else 0.0%float.

(** [DISPUTE_THRESHOLDS.get(scope_tier, 4.0)] *)
Definition dispute_threshold (scope_tier : string) : float :=
  if scope_tier =s? "repo" then 2.0%float
  else if scope_tier =s? "domain" then 3.0%float
  else if scope_tier =s? "global" then 4.0%float
  else 4.0%float.

(** The threshold as the f-string of the idempotency key prints it. *)
Definition threshold_repr (scope_tier : string) : string :=
  if scope_tier =s? "repo" then "2.0"
  else if scope_tier =s? "domain" then "3.0"
  else if scope_tier =s? "global" then "4.0"
  else "4.0".

(** [SELECT COALESCE(SUM(weight), 0.0) FROM disputes WHERE card_id = ?]:
    the weights of the card's rows are added one by one, in rowid order,
    starting from [0.0]; each addition rounds to binary64. *)
Definition dispute_mass (s : store) (card_id : string) : float :=
  fold_left PrimFloat.add
    (map d_weight (List.filter (fun d => d_card_id d =s? card_id) (disputes s))) 0%float.

Record dispute_result := {
  dr_dispute_id : string;
  dr_weight : option float;
  dr_dispute_mass : option float;
  dr_threshold : option float;
  dr_status_changed : bool }.

Section Dispute.
Context `{Platform}.

Definition dispute_key (card_id evidence_ref_id : string) : string :=
  ("dispute_recorded:" ++ card_id ++ ":" ++ evidence_ref_id)%string.

Definition status_key (card_id scope_tier : string) : string :=
  ("card_status_changed:" ++ card_id ++ ":needs_recheck:" ++ threshold_repr scope_tier)%string.

Definition record_dispute (episode_id card_id evidence_ref_id producer : string)
  : M dispute_result :=
  s <- get_store ;;
  match select_one (fun r => ev_evidence_ref_id r =s? evidence_ref_id) (evidence_refs s) with
  | None => raise (ValueError ("Evidence ref not found: " ++ evidence_ref_id))
  | Some ref =>
      let weight := dispute_weight (ev_ref_kind ref) in
      let dispute_id := deterministic_id "disp" [card_id; evidence_ref_id] in
      append_event episode_id "dispute_recorded"
        (PayDisputeRecorded dispute_id card_id evidence_ref_id weight)
        (dispute_key card_id evidence_ref_id) producer RULE_VERSION true ;;;
      s <- get_store ;;
      match find_card s card_id with
      | None =>
          ret {| dr_dispute_id := dispute_id; dr_weight := None; dr_dispute_mass := None;
                 dr_threshold := None; dr_status_changed := false |}
      | Some card =>
          let mass := dispute_mass s card_id in
          let threshold := dispute_threshold (c_scope_tier card) in
          let changed := PrimFloat.leb threshold mass && (c_status card =s? "active") in
          (if changed then
             append_event episode_id "card_status_changed"
               (PayCardStatusChanged card_id "active" "needs_recheck"
                  "dispute_threshold_exceeded" mass threshold)
               (status_key card_id (c_scope_tier card)) producer RULE_VERSION true ;;;
             ret tt
           else ret tt) ;;;
          ret {| dr_dispute_id := dispute_id; dr_weight := Some weight;
                 dr_dispute_mass := Some mass; dr_threshold := Some threshold;
                 dr_status_changed := changed |}
      end
  end.

(** A series of calls, one per evidence reference; each answer is kept
    with the store that its call left. *)
Fixpoint record_disputes (episode_id card_id : string) (evidence_ref_ids : list string)
    (producer : string) : M (list (dispute_result * store)) :=
  match evidence_ref_ids with
  | [] => ret []
  | ev :: rest =>
      r <- record_dispute episode_id card_id ev producer ;;
      s <- get_store ;;
      rs <- record_disputes episode_id card_id rest producer ;;
      ret ((r, s) :: rs)
  end.

End Dispute.

(** The [card_status_changed] events that flag a card for recheck because
    of disputes. *)
Definition is_recheck_event (card_id : string) (e : event_row) : bool :=
  (me_event_type e =s? "card_status_changed")
  && match me_payload e with
     | PayCardStatusChanged cid from_status to_status reason _ _ =>
         (cid =s? card_id) && (from_status =s? "active") && (to_status =s? "needs_recheck")
         && (reason =s? "dispute_threshold_exceeded")
     | _ => false
     end.

Definition recheck_events (s : store) (card_id : string) : list event_row :=
  List.filter (is_recheck_event card_id) (memory_events s).

Definition card_status (s : store) (card_id : string) : option string :=
  option_map c_status (find_card s card_id).

(** The row that a status change leaves. *)
Definition with_status (to_status : string) (event_id : Z) (r : card_row) : card_row :=
  {| c_card_id := c_card_id r; c_kind := c_kind r; c_statement := c_statement r;
     c_scope_tier := c_scope_tier r; c_scope_id := c_scope_id r;
     c_topic_key := c_topic_key r; c_tags := c_tags r; c_status := to_status;
     c_supersedes_card_id := c_supersedes_card_id r;
     c_created_event_id := c_created_event_id r; c_updated_event_id := event_id;
     c_archived_at := c_archived_at r |}.

(** *** What a dispute is expected to do

    The tables of the specification, written out: the weight of an
    evidence kind and the threshold of a scope tier. *)
Definition tabled_weight (ref_kind : string) (w : float) : Prop :=
  (ref_kind = "tool_output" -> w = 1.0%float)
  /\ (ref_kind = "doc_span" -> w = 0.7%float)
  /\ (ref_kind = "user_span" -> w = 0.4%float)
  /\ (~ In ref_kind ["tool_output"; "doc_span"; "user_span"] -> w = 0.0%float).

Definition tabled_threshold (scope_tier : string) (t : float) : Prop :=
  (scope_tier = "repo" -> t = 2.0%float)
  /\ (scope_tier = "domain" -> t = 3.0%float)
  /\ (scope_tier = "global" -> t = 4.0%float)
  /\ (~ In scope_tier ["repo"; "domain"; "global"] -> t = 4.0%float).

(** The weights that a table of disputes holds against a card, added up
    in table order. *)
Definition summed_weights (rows : list dispute_row) (card_id : string) : float :=
  fold_left PrimFloat.add
    (map d_weight (List.filter (fun d => d_card_id d =s? card_id) rows)) 0%float.

(** The mass that a call reported has reached the threshold it reported. *)
Definition reached (r : dispute_result) : bool :=
  match dr_dispute_mass r, dr_threshold r with
  | Some mass, Some threshold => PrimFloat.leb threshold mass
  | _, _ => false
  end.


Section DisputeVocabulary.
Context `{Platform}.

(** From store [s], a dispute of card [cid] on evidence [ev] was answered
    by [r] and left store [s1]: the weight is the tabled one of the
    reference's kind and the threshold the tabled one of the card's tier;
    a dispute whose key is not yet logged puts its row at the end of the
    table, with that weight, and a repeated one leaves the table alone;
    the mass reported is the sum over the card's rows of the table as it
    is left; the dispute is logged. *)
Definition answered (cid : string) (s : store) (ev : string) (r : dispute_result)
    (s1 : store) : Prop :=
  exists card ref w t,
    find_card s cid = Some card
    /\ select_one (fun x => ev_evidence_ref_id x =s? ev) (evidence_refs s) = Some ref
    /\ tabled_weight (ev_ref_kind ref) w /\ dr_weight r = Some w
    /\ tabled_threshold (c_scope_tier card) t /\ dr_threshold r = Some t
    /\ match find_by_key (memory_events s) (dispute_key cid ev) with
       | Some _ => disputes s1 = disputes s
       | None =>
           exists row,
             disputes s1
             = List.filter (fun d => negb (same_dispute row d)) (disputes s) ++ [row]
             /\ d_dispute_id row = deterministic_id "disp" [cid; ev]
             /\ d_card_id row = cid /\ d_evidence_ref_id row = ev /\ d_weight row = w
       end
    /\ find_by_key (memory_events s1) (dispute_key cid ev) <> None
    /\ dr_dispute_mass r = Some (summed_weights (disputes s1) cid)
    /\ dr_status_changed r
       = PrimFloat.leb t (summed_weights (disputes s1) cid) && (c_status card =s? "active").



End DisputeVocabulary.

(** *** Ingestion *)

(** [text[start:stop]] for integers of either sign. *)
Definition py_slice (text : string) (start stop : Z) : string :=
  let len := Z.of_nat (String.length text) in
  let norm i := if (i <? 0)%Z then Z.max (i + len) 0 else Z.min i len in
  let a := norm start in
  let b := norm stop in
  if (a <? b)%Z then String.substring (Z.to_nat a) (Z.to_nat (b - a)) text else "".

(** The line boundaries of [str.splitlines] among the code points below 256,
    carriage return apart. *)
Definition is_linebreak (c : ascii) : bool :=
  let n := Text.code c in
  ((n =? 10) || (n =? 11) || (n =? 12) || (n =? 28) || (n =? 29) || (n =? 30)
   || (n =? 133))%N.

Fixpoint splitlines_from (cur : string) (s : string) : list string :=
  match s with
  | EmptyString => Text.flush cur []
  | String c s' =>
      if (Text.code c =? 13)%N then
        match s' with
        | String c' s'' =>
            if (Text.code c' =? 10)%N then cur :: splitlines_from EmptyString s''
            else cur :: splitlines_from EmptyString s'
        | EmptyString => [cur]
        end
      else if is_linebreak c then cur :: splitlines_from EmptyString s'
      else splitlines_from (cur ++ String c EmptyString) s'
  end.

Definition splitlines (s : string) : list string := splitlines_from EmptyString s.

(** Reading a file in text mode turns [\r\n] and [\r] into [\n]. *)
Fixpoint universal_newlines (s : string) : string :=
  match s with
  | EmptyString => EmptyString
  | String c s' =>
      if (Text.code c =? 13)%N then
        match s' with
        | String c' s'' =>
            if (Text.code c' =? 10)%N then String c' (universal_newlines s'')
            else String (ascii_of_N 10) (universal_newlines s')
        | EmptyString => String (ascii_of_N 10) EmptyString
        end
      else String c (universal_newlines s')
  end.

Definition read_file (fs : gmap string string) (path : string) : option string :=
  universal_newlines <$> (fs !! path).

(** [str(z)] and the [None] of an f-string. *)
Definition str_of_Z (z : Z) : string :=
  if (z <? 0)%Z then ("-" ++ str_of_nat (Z.to_nat (- z)))%string else str_of_nat (Z.to_nat z).

Definition str_of_opt_Z (z : option Z) : string :=
  match z with Some v => str_of_Z v | None => "None" end.

(** The input of [record_episode]; an absent key is [None]. *)
Record artifact_input := {
  ai_artifact_id : option string;
  ai_artifact_kind : option string;
  ai_mime_type : option string;
  ai_metadata : option metadata;
  ai_content : option string;
  ai_content_path : option string }.

Record evidence_input := {
  ei_evidence_ref_id : option string;
  ei_ref_kind : option string;
  ei_artifact_id : option string;
  ei_target_id : option string;
  ei_start_offset : option Z;
  ei_end_offset : option Z;
  ei_line_start : option Z;
  ei_line_end : option Z;
  ei_excerpt_text : option string }.

Record episode_payload := {
  p_episode_id : option string;
  p_user_text : option string;
  p_assistant_text : option string;
  p_model_name : option string;
  p_started_at : option string;
  p_ended_at : option string;
  p_metadata : option metadata;
  p_artifacts : list artifact_input;
  p_evidence_refs : list evidence_input }.

(** [x or ""] *)
Definition text_of (x : option string) : string := default "" x.

Definition is_truthy (x : option string) : bool :=
  match x with Some v => truthy v | None => false end.

Section Ingest.
Context `{Platform}.

(** [uuid.uuid4().hex]: one more identifier drawn. *)
Definition draw_uuid : M string := fun s =>
  Ok (uuid4_hex (uuid_draws s), set_uuid_draws (S (uuid_draws s)) s).

(** [x or f"{prefix}_{uuid.uuid4().hex[:16]}"] *)
Definition id_or_fresh (x : option string) (prefix : string) : M string :=
  if is_truthy x then ret (text_of x)
  else u <- draw_uuid ;; ret (prefix ++ "_" ++ String.substring 0 16 u)%string.

(** [x or now_iso()] *)
Definition time_or_now (x : option string) : M string :=
  if is_truthy x then ret (text_of x) else read_now_iso.

Definition write_file (path content : string) : M unit :=
  modify (fun s => set_files (<[path := content]> (files s)) s).

Definition extract_evidence_excerpt (episode_id ref_kind : string)
    (artifact_id : option string) (start_offset end_offset line_start line_end : option Z)
    (s : store) : string :=
  if ref_kind =s? "user_span" then
    match select_one (fun r => ep_episode_id r =s? episode_id) (episodes s) with
    | None => ""
    | Some row =>
        let text := ep_user_text row in
        match start_offset, end_offset with
        | Some a, Some b => py_slice text a b
        | _, _ => py_slice text 0 280
        end
    end
  else if is_truthy artifact_id then
    match select_one (fun r => art_artifact_id r =s? text_of artifact_id) (artifacts s) with
    | None => ""
    | Some row =>
        if truthy (art_content_path row) then
          match read_file (files s) (art_content_path row) with
          | None => ""
          | Some content =>
              match line_start, line_end with
              | Some ls, Some le =>
                  let lines := splitlines content in
                  let a := Z.max 1 ls in
                  let b := Z.max a le in
                  py_slice
                    (String.concat (String (ascii_of_N 10) EmptyString)
                       (firstn (Z.to_nat (b - (a - 1))) (skipn (Z.to_nat (a - 1)) lines)))
                    0 280
              | _, _ =>
                  match start_offset, end_offset with
                  | Some a, Some b => py_slice content a b
                  | _, _ => py_slice content 0 280
                  end
              end
          end
        else ""
    end
  else "".

(** The body of [for i, art in enumerate(artifacts)]. *)
Definition ingest_artifact (episode_id producer : string) (art : artifact_input) : M unit :=
  artifact_id <- id_or_fresh (ai_artifact_id art) "art" ;;
  let artifact_kind := default "tool_output" (ai_artifact_kind art) in
  let mime_type := default "text/plain" (ai_mime_type art) in
  let art_meta := default [] (ai_metadata art) in
  let content := text_of (ai_content art) in
  content_path <-
    (if is_truthy (ai_content_path art) then
       let path := text_of (ai_content_path art) in
       s <- get_store ;;
       (if truthy content && negb (bool_decide (is_Some (files s !! path)))
        then write_file path content else ret tt) ;;;
       ret path
     else
       let path := path_join artifacts_dir (artifact_id ++ ".txt") in
       write_file path content ;;; ret path) ;;
  s <- get_store ;;
  let content_hash :=
    if truthy content then sha256_text content
    else match read_file (files s) content_path with
         | Some text => sha256_text text
         | None => sha256_text ""
         end in
  (if is_in artifact_kind ["tool_output"; "doc"] then
     modify (fun s =>
       set_artifacts
         (insert_or_ignore same_artifact
            {| art_artifact_id := artifact_id; art_episode_id := episode_id;
               art_artifact_kind := artifact_kind; art_content_path := content_path;
               art_content_hash := content_hash; art_mime_type := mime_type;
               art_metadata := art_meta |}
            (artifacts s)) s)
   else ret tt) ;;;
  append_event episode_id "artifact_recorded"
    (PayArtifactRecorded artifact_id artifact_kind content_hash)
    ("artifact_recorded:" ++ episode_id ++ ":" ++ artifact_id ++ ":" ++ content_hash)
    producer RULE_VERSION true ;;;
  ret tt.

(** The body of [for i, ref in enumerate(evidence_refs)].  A row that fails
    the CHECK on [ref_kind] or whose key is taken is skipped; a row that
    would be inserted must name an existing artifact or none. *)
Definition ingest_evidence (episode_id producer : string) (ref : evidence_input) : M unit :=
  evidence_ref_id <- id_or_fresh (ei_evidence_ref_id ref) "ev" ;;
  let ref_kind := default "user_span" (ei_ref_kind ref) in
  let artifact_id := ei_artifact_id ref in
  let target_id :=
    if is_truthy (ei_target_id ref) then text_of (ei_target_id ref)
    else if is_truthy artifact_id then text_of artifact_id else "episode" in
  s <- get_store ;;
  let excerpt_text :=
    if is_truthy (ei_excerpt_text ref) then text_of (ei_excerpt_text ref)
    else extract_evidence_excerpt episode_id ref_kind artifact_id
           (ei_start_offset ref) (ei_end_offset ref) (ei_line_start ref) (ei_line_end ref) s in
  let ref_hash :=
    sha256_text
      (if truthy excerpt_text then excerpt_text
       else (target_id ++ ":" ++ str_of_opt_Z (ei_start_offset ref) ++ ":"
             ++ str_of_opt_Z (ei_end_offset ref) ++ ":" ++ str_of_opt_Z (ei_line_start ref)
             ++ ":" ++ str_of_opt_Z (ei_line_end ref))%string) in
  (if is_in ref_kind ["user_span"; "tool_output"; "doc_span"]
      && negb (evidence_exists s evidence_ref_id)
   then
     require (match artifact_id with
              | Some a => artifact_exists s a
              | None => true
              end) (IntegrityError "FOREIGN KEY constraint failed") ;;;
     created_at <- read_current_timestamp ;;
     modify (fun s =>
       set_evidence_refs
         (evidence_refs s
          ++ [{| ev_evidence_ref_id := evidence_ref_id; ev_episode_id := episode_id;
                 ev_artifact_id := artifact_id; ev_ref_kind := ref_kind;
                 ev_target_id := target_id; ev_start_offset := ei_start_offset ref;
                 ev_end_offset := ei_end_offset ref; ev_line_start := ei_line_start ref;
                 ev_line_end := ei_line_end ref; ev_excerpt_text := excerpt_text;
                 ev_ref_hash := ref_hash; ev_created_at := created_at |}]) s)
   else ret tt) ;;;
  append_event episode_id "evidence_ref_recorded"
    (PayEvidenceRefRecorded evidence_ref_id ref_kind ref_hash)
    ("evidence_ref_recorded:" ++ episode_id ++ ":" ++ evidence_ref_id ++ ":" ++ ref_hash)
    producer RULE_VERSION true ;;;
  ret tt.

Record ingest_result := {
  ir_episode_id : string;
  ir_artifacts : nat;
  ir_evidence_refs : nat }.

Definition record_episode (payload : episode_payload) (producer : string) : M ingest_result :=
  episode_id <- id_or_fresh (p_episode_id payload) "ep" ;;
  let user_text := text_of (p_user_text payload) in
  let assistant_text := text_of (p_assistant_text payload) in
  let model_name := p_model_name payload in
  started_at <- time_or_now (p_started_at payload) ;;
  ended_at <- time_or_now (p_ended_at payload) ;;
  let meta := default [] (p_metadata payload) in
  let payload_hash :=
    sha256_text
      (canonical_json_episode
         {| canon_episode_id := episode_id; canon_user_text := user_text;
            canon_assistant_text := assistant_text; canon_model_name := model_name;
            canon_metadata := meta; canon_started_at := started_at;
            canon_ended_at := ended_at |}) in
  modify (fun s =>
    set_episodes
      (insert_or_ignore same_episode
         {| ep_episode_id := episode_id; ep_user_text := user_text;
            ep_assistant_text := assistant_text; ep_model_name := model_name;
            ep_metadata := meta; ep_payload_hash := payload_hash;
            ep_started_at := started_at; ep_ended_at := ended_at |}
         (episodes s)) s) ;;;
  append_event episode_id "episode_recorded" (PayEpisodeRecorded episode_id payload_hash)
    ("episode_recorded:" ++ episode_id ++ ":" ++ payload_hash) producer RULE_VERSION true ;;;
  for_each (p_artifacts payload) (ingest_artifact episode_id producer) ;;;
  for_each (p_evidence_refs payload) (ingest_evidence episode_id producer) ;;;
  append_event episode_id "consolidation_triggered"
    (PayConsolidationTriggered episode_id "post_episode_record")
    ("consolidation_triggered:" ++ episode_id) producer RULE_VERSION true ;;;
  ret {| ir_episode_id := episode_id; ir_artifacts := length (p_artifacts payload);
         ir_evidence_refs := length (p_evidence_refs payload) |}.

End Ingest.

(** *** Consolidation: candidates, the evidence invariant, the best match *)

(** The kind that [generate_candidates] gives a normalized excerpt [text]
    of an evidence reference of kind [ref_kind]. *)
Definition candidate_kind (ref_kind text : string) : string :=
  let low := Text.lower text in
  if ref_kind =s? "user_span" then
    if Text.any_in ["prefer"; "i like"; "please use"; "verbosity"] low then "preference"
    else if Text.any_in ["must"; "do not"; "don't"; "never"; "always"; "only"] low
    then "constraint"
    else if Text.any_in ["i will"; "i'll"; "we will"; "plan to"; "going to"] low
    then "commitment"
    else "fact"
  else if ref_kind =s? "tool_output" then
    if Text.contains_failure_signal text then "negative_result"
    else if Text.any_in ["run "; "command"; "steps"; "procedure"; "workflow"] low
    then "tactic"
    else "fact"
  else if ref_kind =s? "doc_span" then
    if Text.any_in ["run "; "steps"; "procedure"; "how to"] low then "tactic" else "fact"
  else "fact".

Section Consolidate.
Context `{Platform}.

(** [for idx, row in enumerate(ev_rows)], with [idx] counted from [start]:
    a row whose excerpt normalizes to nothing is skipped, and still counts
    in [idx]. *)
Fixpoint candidates_from (episode_id scope_tier scope_id : string) (start : nat)
    (ev_rows : list evidence_row) : list Candidate :=
  match ev_rows with
  | [] => []
  | row :: rest =>
      let text := Text.normalize_statement (ev_excerpt_text row) in
      if truthy text then
        let kind := candidate_kind (ev_ref_kind row) text in
        {| candidate_id :=
             deterministic_id "cand"
               [episode_id; str_of_nat start; kind;
                Text.lower (Text.normalize_statement text)];
           cand_kind := kind;
           cand_statement := text;
           cand_scope_tier := scope_tier;
           cand_scope_id := scope_id;
           cand_topic_key := Text.topic_key text;
           cand_evidence_ref_ids := [ev_evidence_ref_id row] |}
        :: candidates_from episode_id scope_tier scope_id (S start) rest
      else candidates_from episode_id scope_tier scope_id (S start) rest
  end.

Definition generate_candidates (episode_id scope_tier scope_id : string)
    (ev_rows : list evidence_row) : list Candidate :=
  candidates_from episode_id scope_tier scope_id 0 ev_rows.

End Consolidate.

(** [ORDER BY created_at, evidence_ref_id] *)
Definition evidence_before (a b : evidence_row) : bool :=
  if String.ltb (ev_created_at a) (ev_created_at b) then true
  else if String.ltb (ev_created_at b) (ev_created_at a) then false
  else String.leb (ev_evidence_ref_id a) (ev_evidence_ref_id b).

(** The evidence rows of the episode, as [consolidate_episode] reads them. *)
Definition episode_evidence (s : store) (episode_id : string) : list evidence_row :=
  sort_by evidence_before
    (List.filter (fun r => ev_episode_id r =s? episode_id) (evidence_refs s)).

(** [kinds = {r["ref_kind"] for r in rows}] over the rows whose id is among
    the candidate's. *)
Definition evidence_kinds (s : store) (ids : list string) : list string :=
  map ev_ref_kind (List.filter (fun r => is_in (ev_evidence_ref_id r) ids) (evidence_refs s)).

Definition validate_evidence_invariant (cand : Candidate) (s : store) : bool * string :=
  match cand_evidence_ref_ids cand with
  | [] => (false, "missing_evidence")
  | _ =>
      let kinds := evidence_kinds s (cand_evidence_ref_ids cand) in
      if is_in (cand_kind cand) ["preference"; "constraint"; "commitment"] then
        if negb (is_in "user_span" kinds) then (false, "normative_requires_user_span")
        else (true, "ok")
      else if cand_kind cand =s? "tactic" then
        if negb (is_in "tool_output" kinds || is_in "doc_span" kinds)
        then (false, "tactic_requires_tool_or_doc")
        else (true, "ok")
      else if cand_kind cand =s? "negative_result" then
        if negb (is_in "tool_output" kinds)
        then (false, "negative_result_requires_tool_output")
        else if negb (Text.contains_failure_signal (Text.lower (cand_statement cand)))
        then (false, "negative_result_requires_failure_signal")
        else (true, "ok")
      else if cand_kind cand =s? "fact" then
        match kinds with
        | [] => (false, "fact_requires_anchor")
        | _ => (true, "ok")
        end
      else (true, "ok")
  end.

(** The rows of the three queries on cards of the candidate's kind and
    scope that are active or flagged for recheck. *)
Definition comparable (cand : Candidate) (r : card_row) : bool :=
  (c_kind r =s? cand_kind cand) && (c_scope_tier r =s? cand_scope_tier cand)
  && (c_scope_id r =s? cand_scope_id cand)
  && is_in (c_status r) ["active"; "needs_recheck"].

Record best_match := {
  bm_card_id : string;
  bm_lexical : R;
  bm_cosine : R;
  bm_score : R }.

Definition match_of (cand : Candidate) (r : card_row) : best_match :=
  let lex := Similarity.jaccard_similarity (cand_statement cand) (c_statement r) in
  let cos := Similarity.cosine_similarity_text (cand_statement cand) (c_statement r) in
  {| bm_card_id := c_card_id r; bm_lexical := lex; bm_cosine := cos;
     bm_score := ((lex + cos) / 2)%R |}.

(** The loop of [find_best_similarity_match] over the rows in the order the
    query returns them: a row replaces the best one only with a strictly
    larger score. *)
Definition best_step (cand : Candidate) (best : option best_match) (r : card_row)
  : option best_match :=
  match best with
  | None => Some (match_of cand r)
  | Some b => if Rgt_dec (bm_score (match_of cand r)) (bm_score b)
              then Some (match_of cand r) else Some b
  end.

Definition best_of (cand : Candidate) (rows : list card_row) : option best_match :=
  fold_left (best_step cand) rows None.

(** The query has no [ORDER BY].  SQLite answers it through the index
    [idx_cards_scope_kind], whose last column is [status]: the active
    cards come first, then those flagged for recheck, each group in rowid
    order. *)
Definition by_status (rows : list card_row) : list card_row :=
  List.filter (fun r => c_status r =s? "active") rows
  ++ List.filter (fun r => c_status r =s? "needs_recheck") rows.

Definition find_best_similarity_match (cand : Candidate) (s : store) : option best_match :=
  best_of cand (by_status (List.filter (comparable cand) (cards s))).

(** The two similarity gates of [consolidate_episode] on the best match. *)
Definition is_duplicate (b : best_match) : bool :=
  (if Rge_dec (bm_lexical b) 0.80 then true else false)
  && (if Rge_dec (bm_cosine b) 0.92 then true else false).

Definition lacks_novelty (b : best_match) : bool :=
  (if Rge_dec (bm_lexical b) 0.65 then true else false)
  || (if Rge_dec (bm_cosine b) 0.78 then true else false).
(** *** Consolidation: the episode loop *)

(** [KIND_PRIORITY.get(kind, 99)] *)
Definition KIND_PRIORITY (kind : string) : nat :=
  if kind =s? "constraint" then 0
  else if kind =s? "commitment" then 1
  else if kind =s? "preference" then 2
  else if kind =s? "negative_result" then 3
  else if kind =s? "tactic" then 4
  else if kind =s? "fact" then 5
  else 99.

(** [EPISODE_KIND_CAPS[kind]]: [None] stands for [KeyError]. *)
Definition EPISODE_KIND_CAPS (kind : string) : option nat :=
  if kind =s? "fact" then Some 4
  else if kind =s? "tactic" then Some 2
  else if kind =s? "negative_result" then Some 2
  else if kind =s? "preference" then Some 2
  else if kind =s? "constraint" then Some 1
  else if kind =s? "commitment" then Some 1
  else None.

Definition EPISODE_SOFT_CAP : nat := 12.

Definition budget_row (preference constraint commitment fact tactic negative_result : nat)
    (kind : string) : option nat :=
  if kind =s? "preference" then Some preference
  else if kind =s? "constraint" then Some constraint
  else if kind =s? "commitment" then Some commitment
  else if kind =s? "fact" then Some fact
  else if kind =s? "tactic" then Some tactic
  else if kind =s? "negative_result" then Some negative_result
  else None.

(** [BUDGET_CAPS[scope_tier][kind]]: [None] stands for [KeyError]. *)
Definition BUDGET_CAPS (scope_tier kind : string) : option nat :=
  if scope_tier =s? "repo" then budget_row 80 120 120 300 120 120 kind
  else if scope_tier =s? "domain" then budget_row 40 60 60 180 80 80 kind
  else if scope_tier =s? "global" then budget_row 20 30 30 100 40 40 kind
  else None.

(** The order of tuples of strings. *)
Fixpoint strings_leb (a b : list string) : bool :=
  match a, b with
  | [], _ => true
  | _ :: _, [] => false
  | x :: a', y :: b' =>
      if String.ltb x y then true
      else if String.ltb y x then false
      else strings_leb a' b'
  end.

(** The sort key of the candidates: kind priority, then the lower-case
    normalized statement, the scope and the candidate id. *)
Definition candidate_before (a b : Candidate) : bool :=
  if KIND_PRIORITY (cand_kind a) <? KIND_PRIORITY (cand_kind b) then true
  else if KIND_PRIORITY (cand_kind b) <? KIND_PRIORITY (cand_kind a) then false
  else strings_leb
         [Text.lower (Text.normalize_statement (cand_statement a)); cand_scope_tier a;
          cand_scope_id a; candidate_id a]
         [Text.lower (Text.normalize_statement (cand_statement b)); cand_scope_tier b;
          cand_scope_id b; candidate_id b].

(** [ORDER BY updated_event_id DESC, card_id ASC] *)
Definition card_recent_first (a b : card_row) : bool :=
  if (c_updated_event_id b <? c_updated_event_id a)%Z then true
  else if (c_updated_event_id a <? c_updated_event_id b)%Z then false
  else String.leb (c_card_id a) (c_card_id b).

Definition find_exact_merge_target (cand : Candidate) (s : store) : option string :=
  let norm := Text.lower (Text.normalize_statement (cand_statement cand)) in
  option_map c_card_id
    (List.find (fun r => Text.lower (Text.normalize_statement (c_statement r)) =s? norm)
       (sort_by card_recent_first (List.filter (comparable cand) (cards s)))).

Definition find_supersede_target (cand : Candidate) (s : store) : option string :=
  if negb (is_in (cand_kind cand) NORMATIVE_KINDS) then None
  else
    match sort_by card_recent_first
            (List.filter (fun r => comparable cand r
                                   && (c_topic_key r =s? cand_topic_key cand))
                         (cards s)) with
    | r :: _ => Some (c_card_id r)
    | [] => None
    end.

(** [count_episode_admitted_by_kind]: the kinds of the cards that the
    episode's [card_admitted] events carry, every kind of [KINDS] present. *)
Definition count_episode_admitted_by_kind (s : store) (episode_id : string)
  : gmap string nat :=
  let rows := List.filter (fun e => (me_episode_id e =s? episode_id)
                                    && (me_event_type e =s? "card_admitted"))
                          (memory_events s) in
  let out := fold_left
               (fun out e =>
                  match me_payload e with
                  | PayCardAdmitted _ _ card =>
                      if truthy (cp_kind card)
                      then <[cp_kind card := S (default 0 (out !! cp_kind card))]> out
                      else out
                  | _ => out
                  end) rows (∅ : gmap string nat) in
  fold_left (fun out k => <[k := default 0 (out !! k)]> out) KINDS out.

(** [SELECT COUNT( * ) FROM cards WHERE scope_tier = ? AND kind = ? AND
    status IN ('active', 'needs_recheck')] *)
Definition active_scope_count (s : store) (scope_tier kind : string) : nat :=
  length (List.filter (fun r => (c_scope_tier r =s? scope_tier) && (c_kind r =s? kind)
                                && is_in (c_status r) ["active"; "needs_recheck"])
                      (cards s)).

(** The counters of the loop. *)
Record tally := {
  t_admitted : nat;
  t_rejected : nat;
  t_merged : nat;
  t_superseded : nat;
  t_by_kind : gmap string nat;
  t_total : nat }.

Definition one_rejected (t : tally) : tally :=
  {| t_admitted := t_admitted t; t_rejected := S (t_rejected t); t_merged := t_merged t;
     t_superseded := t_superseded t; t_by_kind := t_by_kind t; t_total := t_total t |}.

Definition one_merged (t : tally) : tally :=
  {| t_admitted := t_admitted t; t_rejected := t_rejected t; t_merged := S (t_merged t);
     t_superseded := t_superseded t; t_by_kind := t_by_kind t; t_total := t_total t |}.

Definition one_admitted (kind : string) (t : tally) : tally :=
  {| t_admitted := S (t_admitted t); t_rejected := t_rejected t; t_merged := t_merged t;
     t_superseded := t_superseded t;
     t_by_kind := <[kind := S (default 0 (t_by_kind t !! kind))]> (t_by_kind t);
     t_total := S (t_total t) |}.

Definition one_superseded (t : tally) : tally :=
  {| t_admitted := t_admitted t; t_rejected := t_rejected t; t_merged := t_merged t;
     t_superseded := S (t_superseded t); t_by_kind := t_by_kind t; t_total := t_total t |}.

Record consolidation_result := {
  cr_episode_id : string;
  cr_proposed : nat;
  cr_admitted : nat;
  cr_rejected : nat;
  cr_merged : nat;
  cr_superseded : nat;
  cr_ledger : option ledger_row }.

Section ConsolidateLoop.
Context `{Platform}.

Definition append_reject (episode_id : string) (cand : Candidate) (reason : string)
    (details : reject_details) (producer : string) : M unit :=
  append_event episode_id "card_rejected"
    (PayCardRejected (candidate_id cand) (cand_kind cand) (cand_statement cand) reason details)
    ("card_rejected:" ++ episode_id ++ ":" ++ candidate_id cand ++ ":" ++ reason)
    producer RULE_VERSION true ;;;
  ret tt.

(** The last part of the loop body: the candidate is merged into a card of
    the same statement, or admitted, then the card it supersedes is
    retired. *)
Definition merge_or_admit (episode_id producer : string) (t : tally) (cand : Candidate)
  : M tally :=
  s <- get_store ;;
  let merged_target := find_exact_merge_target cand s in
  if is_truthy merged_target then
    append_event episode_id "card_merged"
      (PayCardMerged (candidate_id cand) (text_of merged_target)
         (cand_evidence_ref_ids cand) "exact_statement_match")
      ("card_merged:" ++ episode_id ++ ":" ++ candidate_id cand ++ ":"
       ++ text_of merged_target)
      producer RULE_VERSION true ;;;
    ret (one_merged t)
  else
    let supersede_target := find_supersede_target cand s in
    let card_id :=
      deterministic_id "card"
        [cand_kind cand; cand_scope_tier cand; cand_scope_id cand;
         Text.lower (Text.normalize_statement (cand_statement cand))] in
    append_event episode_id "card_admitted"
      (PayCardAdmitted (candidate_id cand) "admitted"
         {| cp_card_id := card_id; cp_kind := cand_kind cand;
            cp_statement := cand_statement cand; cp_scope_tier := cand_scope_tier cand;
            cp_scope_id := cand_scope_id cand; cp_topic_key := cand_topic_key cand;
            cp_tags := []; cp_status := "active";
            cp_supersedes_card_id := supersede_target;
            cp_evidence_ref_ids := cand_evidence_ref_ids cand |})
      ("card_admitted:" ++ episode_id ++ ":" ++ candidate_id cand ++ ":" ++ card_id)
      producer RULE_VERSION true ;;;
    let t := one_admitted (cand_kind cand) t in
    if is_truthy supersede_target then
      s <- get_store ;;
      let from_status := match find_card s (text_of supersede_target) with
                         | Some row => c_status row
                         | None => "active"
                         end in
      append_event episode_id "card_superseded"
        (PayCardSuperseded (candidate_id cand) (text_of supersede_target) card_id
           from_status "normative_user_supersession")
        ("card_superseded:" ++ episode_id ++ ":" ++ text_of supersede_target ++ ":" ++ card_id)
        producer RULE_VERSION true ;;;
      ret (one_superseded t)
    else ret t.

(** The caps of the loop body, after the similarity gates. *)
Definition check_caps (episode_id producer : string) (t : tally) (cand : Candidate)
  : M tally :=
  match EPISODE_KIND_CAPS (cand_kind cand) with
  | None => raise (KeyError (cand_kind cand))
  | Some kind_cap =>
      if kind_cap <=? default 0 (t_by_kind t !! cand_kind cand) then
        append_reject episode_id cand "episode_kind_cap_exceeded" (KindCap kind_cap) producer ;;;
        ret (one_rejected t)
      else if EPISODE_SOFT_CAP <=? t_total t then
        append_reject episode_id cand "episode_soft_cap_exceeded" (SoftCap EPISODE_SOFT_CAP)
          producer ;;;
        ret (one_rejected t)
      else
        s <- get_store ;;
        match BUDGET_CAPS (cand_scope_tier cand) (cand_kind cand) with
        | None => raise (KeyError (if is_in (cand_scope_tier cand) SCOPE_TIERS
                                   then cand_kind cand else cand_scope_tier cand))
        | Some budget =>
            if budget <=? active_scope_count s (cand_scope_tier cand) (cand_kind cand) then
              append_reject episode_id cand "scope_kind_budget_exceeded" (Budget budget)
                producer ;;;
              ret (one_rejected t)
            else merge_or_admit episode_id producer t cand
        end
  end.

(** The body of [for cand in candidates]. *)
Definition consolidate_candidate (episode_id producer : string) (t : tally)
    (cand : Candidate) : M tally :=
  append_event episode_id "candidate_proposed" (PayCandidateProposed cand)
    ("candidate_proposed:" ++ episode_id ++ ":" ++ candidate_id cand)
    producer RULE_VERSION true ;;;
  s <- get_store ;;
  let verdict := validate_evidence_invariant cand s in
  if negb (fst verdict) then
    append_reject episode_id cand "missing_required_evidence"
      (InvariantReason (snd verdict)) producer ;;;
    ret (one_rejected t)
  else
    match find_best_similarity_match cand s with
    | Some best =>
        if is_duplicate best then
          append_reject episode_id cand "duplicate_of_existing_card"
            (MatchedCard (bm_card_id best) (bm_lexical best) (bm_cosine best)) producer ;;;
          ret (one_rejected t)
        else if lacks_novelty best then
          append_reject episode_id cand "novelty_below_threshold"
            (MatchedCard (bm_card_id best) (bm_lexical best) (bm_cosine best)) producer ;;;
          ret (one_rejected t)
        else check_caps episode_id producer t cand
    | None => check_caps episode_id producer t cand
    end.

Fixpoint consolidate_all (episode_id producer : string) (candidates : list Candidate)
    (t : tally) : M tally :=
  match candidates with
  | [] => ret t
  | cand :: rest =>
      t' <- consolidate_candidate episode_id producer t cand ;;
      consolidate_all episode_id producer rest t'
  end.

Definition consolidate_episode (episode_id producer : string) : M consolidation_result :=
  s <- get_store ;;
  match select_one (fun r => ep_episode_id r =s? episode_id) (episodes s) with
  | None => raise (ValueError ("Episode not found: " ++ episode_id))
  | Some episode =>
      let scope_tier := md_get (ep_metadata episode) "scope_tier" "repo" in
      let scope_id := md_get (ep_metadata episode) "scope_id" "default" in
      let candidates :=
        sort_by candidate_before
          (generate_candidates episode_id scope_tier scope_id
             (episode_evidence s episode_id)) in
      let admitted_by_kind := count_episode_admitted_by_kind s episode_id in
      let admitted_total := map_fold (fun _ v acc => acc + v) 0 admitted_by_kind in
      t <- consolidate_all episode_id producer candidates
             {| t_admitted := 0; t_rejected := 0; t_merged := 0; t_superseded := 0;
                t_by_kind := admitted_by_kind; t_total := admitted_total |} ;;
      refresh_ledger episode_id ;;;
      s' <- get_store ;;
      ret {| cr_episode_id := episode_id; cr_proposed := length candidates;
             cr_admitted := t_admitted t; cr_rejected := t_rejected t;
             cr_merged := t_merged t; cr_superseded := t_superseded t;
             cr_ledger := select_one (fun r => cl_episode_id r =s? episode_id)
                            (consolidation_ledger s') |}
  end.

End ConsolidateLoop.
(** *** Vocabulary of the engine properties *)

(** [keeps f m]: a run of [m] that returns leaves [f] of the store as it was. *)
Definition keeps {A B} (f : store -> B) (m : M A) : Prop :=
  forall s a s', m s = Ok (a, s') -> f s' = f s.

(** The canonical tables, the files and the identifiers drawn. *)
Definition canon (s : store) :=
  (episodes s, artifacts s, evidence_refs s, memory_events s, files s, uuid_draws s).

(** The sequence numbers of an episode, in log order. *)
Definition seqs_of (events : list event_row) (episode_id : string) : list Z :=
  map me_seq_no (List.filter (fun e => me_episode_id e =s? episode_id) events).

(** Every episode's sequence numbers are 1, 2, ..., N, in log order. *)
Definition seq_invariant (s : store) : Prop :=
  forall episode_id,
    seqs_of (memory_events s) episode_id
    = map Z.of_nat (seq 1 (length (seqs_of (memory_events s) episode_id))).

Definition keys_distinct (s : store) : Prop :=
  List.NoDup (map me_idempotency_key (memory_events s)).

(** The arguments of one call of [append_event]. *)
Record append_call := {
  call_episode_id : string;
  call_event_type : string;
  call_payload : payload;
  call_idempotency_key : string;
  call_producer : string;
  call_rule_version : string;
  call_apply : bool }.

Section Runs.
Context `{Platform}.

Definition do_append (c : append_call) : M append_result :=
  append_event (call_episode_id c) (call_event_type c) (call_payload c)
               (call_idempotency_key c) (call_producer c) (call_rule_version c)
               (call_apply c).

(** One call of the operation: when it raises, its transaction is rolled
    back and the store is as before. *)
Definition try_append (s : store) (c : append_call) : store :=
  match do_append c s with
  | Ok (_, s') => s'
  | Raise _ => s
  end.

Definition run_appends (calls : list append_call) (s : store) : store :=
  fold_left try_append calls s.

(** The row that [append_event] writes on a fresh key. *)
Definition new_event (s : store) (episode_id event_type : string) (p : payload)
    (idempotency_key producer rule_version : string) : event_row :=
  {| me_event_id := next_event_id (memory_events s); me_episode_id := episode_id;
     me_seq_no := next_seq (memory_events s) episode_id; me_event_type := event_type;
     me_payload := p; me_idempotency_key := idempotency_key; me_producer := producer;
     me_rule_version := rule_version;
     me_created_at := current_timestamp (clock_reads s) |}.

(** The store once the row is written and before the reducer runs. *)
Definition logged (s : store) (e : event_row) : store :=
  set_memory_events (memory_events s ++ [e]) (set_clock_reads (S (clock_reads s)) s).

Definition result_of (e : event_row) (inserted : bool) : append_result :=
  {| r_event_id := me_event_id e; r_episode_id := me_episode_id e;
     r_seq_no := me_seq_no e; r_inserted := inserted |}.

End Runs.

(** A store with one episode and nothing else. *)
Definition example_episode : episode_row :=
  {| ep_episode_id := "ep1"; ep_user_text := "We must always pin versions.";
     ep_assistant_text := "Noted."; ep_model_name := None;
     ep_metadata := [("scope_tier", "repo"); ("scope_id", "default")];
     ep_payload_hash := "h"; ep_started_at := "t"; ep_ended_at := "t" |}.

Definition one_episode_store : store := set_episodes [example_episode] empty_store.

Definition example_calls : list append_call :=
  [ {| call_episode_id := "ep1"; call_event_type := "episode_recorded";
       call_payload := PayEpisodeRecorded "ep1" "h"; call_idempotency_key := "k1";
       call_producer := "cli"; call_rule_version := "v1"; call_apply := true |};
    {| call_episode_id := "ep1"; call_event_type := "consolidation_triggered";
       call_payload := PayConsolidationTriggered "ep1" "post_episode_record";
       call_idempotency_key := "k2"; call_producer := "cli"; call_rule_version := "v1";
       call_apply := true |};
    {| call_episode_id := "ep1"; call_event_type := "episode_recorded";
       call_payload := PayEpisodeRecorded "ep1" "h"; call_idempotency_key := "k1";
       call_producer := "cli"; call_rule_version := "v1"; call_apply := true |} ].

(** A store for the dispute scenario: one episode, one active card of repo
    scope and four evidence references. *)
Definition example_evidence (id kind : string) : evidence_row :=
  {| ev_evidence_ref_id := id; ev_episode_id := "ep1"; ev_artifact_id := None;
     ev_ref_kind := kind; ev_target_id := "episode"; ev_start_offset := None;
     ev_end_offset := None; ev_line_start := None; ev_line_end := None;
     ev_excerpt_text := "pin versions"; ev_ref_hash := "h"; ev_created_at := "t" |}.

Definition example_card : card_row :=
  {| c_card_id := "c1"; c_kind := "constraint"; c_statement := "We must always pin versions.";
     c_scope_tier := "repo"; c_scope_id := "default"; c_topic_key := "must"; c_tags := [];
     c_status := "active"; c_supersedes_card_id := None; c_created_event_id := 1;
     c_updated_event_id := 1; c_archived_at := None |}.

Definition dispute_store : store :=
  set_cards [example_card]
    (set_evidence_refs
       [example_evidence "ev1" "tool_output"; example_evidence "ev2" "doc_span";
        example_evidence "ev3" "tool_output"; example_evidence "ev4" "user_span"]
       one_episode_store).


(** A card of global scope and ten [user_span] references. *)
Definition global_card_store : store :=
  set_cards
    [{| c_card_id := "c2"; c_kind := "fact"; c_statement := "The build takes ten minutes.";
        c_scope_tier := "global"; c_scope_id := "default"; c_topic_key := "build";
        c_tags := []; c_status := "active"; c_supersedes_card_id := None;
        c_created_event_id := 1; c_updated_event_id := 1; c_archived_at := None |}]
    (set_evidence_refs
       (map (fun i => example_evidence ("u" ++ str_of_nat i) "user_span") (seq 1 10))
       one_episode_store).


(** *** What the utility projection owes each card *)

Definition zero_stat : utility_stat :=
  {| u_wins := 0; u_losses := 0; u_reuse := 0; u_updated_event_id := 0 |}.

(** [stats.get(cid)], with zeros for a card that has no row. *)
Definition stat_of (stats : stats_map) (card_id : string) : utility_stat :=
  default zero_stat (stats !! card_id).

Definition outcome_episodes (s : store) : list string :=
  nodup string_dec (map o_episode_id (outcomes s)).

(** How many of the exposures that an episode credits show the card. *)
Definition credited (s : store) (episode_id card_id : string) : nat :=
  length (List.filter (fun e => x_card_id e =s? card_id) (snd (eligible s episode_id))).

Definition sum_Z (l : list Z) : Z := fold_right Z.add 0%Z l.

Definition wins_owed (s : store) (card_id : string) : Z :=
  sum_Z (map (fun ep => if success_signal (fst (eligible s ep))
                        then Z.of_nat (credited s ep card_id) else 0%Z)
             (outcome_episodes s)).

Definition losses_owed (s : store) (card_id : string) : Z :=
  sum_Z (map (fun ep => if failure_signal (fst (eligible s ep))
                        then Z.of_nat (credited s ep card_id) else 0%Z)
             (outcome_episodes s)).

(** The exposures of the card on any channel, when it is a tactic. *)
Definition reuse_owed (s : store) (card_id : string) : Z :=
  Z.of_nat (length (List.filter (fun e => x_card_id e =s? card_id)
                      (List.filter (fun e => is_tactic s (x_card_id e)) (exposures s)))).



(** What one credited exposure adds to a counter of card [cid]. *)
Definition gain (flag : bool) (ex : exposure_row) (cid : string) : Z :=
  if (x_card_id ex =s? cid) && flag then 1%Z else 0%Z.



(** *** The attribution rule in the words of the specification

    The definitions below speak of the tables only: none of them goes
    through the queries, the scan or the sort of
    [recompute_utility_projection]. *)












(** The attribution scenario: three tactic cards shown by one [auto_pack]
    pack at ranks 1, 2, 3, then a [tool_success] outcome with evidence. *)
Definition tactic_card (id statement : string) : card_row :=
  {| c_card_id := id; c_kind := "tactic"; c_statement := statement;
     c_scope_tier := "repo"; c_scope_id := "default"; c_topic_key := "run"; c_tags := [];
     c_status := "active"; c_supersedes_card_id := None; c_created_event_id := 1;
     c_updated_event_id := 1; c_archived_at := None |}.

Definition tactic_exposure (id : string) (rank : nat) (score : Q) : Pack.exposure :=
  {| Pack.exposure_id := ("exp_" ++ id)%string; Pack.exp_card_id := id;
     Pack.exp_channel := "auto_pack"; Pack.rank_position := rank;
     Pack.exp_score_total := score |}.

Definition attribution_store : store :=
  set_cards [tactic_card "T1" "run the linter"; tactic_card "T2" "run the tests";
             tactic_card "T3" "run the build"]
    (set_evidence_refs [example_evidence "ev1" "tool_output"] one_episode_store).

Definition attribution_calls : list append_call :=
  [ {| call_episode_id := "ep1"; call_event_type := "exposure_recorded";
       call_payload :=
         PayExposureRecorded "auto_pack"
           {| snap_pack_id := "pack_1"; snap_channel := "auto_pack";
              snap_query_text := "run"; snap_policy_version := "v1";
              snap_ranked_candidates := []; snap_selected_cards := [] |}
           [tactic_exposure "T1" 1 0.9%Q; tactic_exposure "T2" 2 0.8%Q;
            tactic_exposure "T3" 3 0.7%Q];
       call_idempotency_key := "exposure_recorded:ep1:pack_1";
       call_producer := "cli"; call_rule_version := "v1"; call_apply := true |};
    {| call_episode_id := "ep1"; call_event_type := "outcome_recorded";
       call_payload := PayOutcomeRecorded "tool_success" ["ev1"] [];
       call_idempotency_key := "outcome_recorded:1";
       call_producer := "cli"; call_rule_version := "v1"; call_apply := true |} ].

(** *** Ingesting an episode twice *)

(** An artifact that names itself and either carries its content or leaves
    the choice of its file to the engine. *)
Definition artifact_pinned (a : artifact_input) : Prop :=
  is_truthy (ai_artifact_id a) = true
  /\ (truthy (text_of (ai_content a)) = true \/ is_truthy (ai_content_path a) = false).

(** A payload that leaves nothing to the random identifiers and the clock. *)
Definition payload_pinned (p : episode_payload) : Prop :=
  is_truthy (p_episode_id p) = true
  /\ is_truthy (p_started_at p) = true
  /\ is_truthy (p_ended_at p) = true
  /\ Forall artifact_pinned (p_artifacts p)
  /\ Forall (fun r => is_truthy (ei_evidence_ref_id r) = true) (p_evidence_refs p).

(** The payload that gives nothing but the two texts. *)
Definition bare_payload : episode_payload :=
  {| p_episode_id := None; p_user_text := Some "We must always pin versions.";
     p_assistant_text := Some "Noted."; p_model_name := None;
     p_started_at := Some "2026-01-01T00:00:00Z"; p_ended_at := Some "2026-01-01T00:00:01Z";
     p_metadata := None; p_artifacts := []; p_evidence_refs := [] |}.

Definition pinned_payload : episode_payload :=
  {| p_episode_id := Some "ep1"; p_user_text := Some "We must always pin versions.";
     p_assistant_text := Some "Noted."; p_model_name := None;
     p_started_at := Some "2026-01-01T00:00:00Z"; p_ended_at := Some "2026-01-01T00:00:01Z";
     p_metadata := Some [("scope_tier", "repo"); ("scope_id", "default")];
     p_artifacts :=
       [ {| ai_artifact_id := Some "a1"; ai_artifact_kind := Some "tool_output";
            ai_mime_type := None; ai_metadata := None;
            ai_content := Some "timeout after 30s"; ai_content_path := None |} ];
     p_evidence_refs :=
       [ {| ei_evidence_ref_id := Some "ev1"; ei_ref_kind := Some "user_span";
            ei_artifact_id := None; ei_target_id := None; ei_start_offset := None;
            ei_end_offset := None; ei_line_start := None; ei_line_end := None;
            ei_excerpt_text := None |};
         {| ei_evidence_ref_id := Some "ev2"; ei_ref_kind := Some "tool_output";
            ei_artifact_id := Some "a1"; ei_target_id := None; ei_start_offset := None;
            ei_end_offset := None; ei_line_start := Some 1%Z; ei_line_end := Some 1%Z;
            ei_excerpt_text := None |} ] |}.

(** The log has an event of idempotency key [k]. *)
Definition logged_key (s : store) (k : string) : Prop :=
  find_by_key (memory_events s) k <> None.

(** The tables and files that ingestion reads, apart from the log. *)
Definition sources (s : store) :=
  (episodes s, artifacts s, evidence_refs s, files s, uuid_draws s).

Section IngestVocabulary.
Context `{Platform}.

(** The file an artifact's content goes to. *)
Definition artifact_path (a : artifact_input) : string :=
  if is_truthy (ai_content_path a) then text_of (ai_content_path a)
  else path_join artifacts_dir (text_of (ai_artifact_id a) ++ ".txt").

(** What ingesting one artifact does to the files: a given path is written
    only when it has no file and there is content, the engine's own path is
    always written. *)
Definition file_step (a : artifact_input) (fs : gmap string string) : gmap string string :=
  if is_truthy (ai_content_path a) then
    if truthy (text_of (ai_content a)) && negb (bool_decide (is_Some (fs !! artifact_path a)))
    then <[artifact_path a := text_of (ai_content a)]> fs
    else fs
  else <[artifact_path a := text_of (ai_content a)]> fs.

Definition written (arts : list artifact_input) (fs : gmap string string) :=
  fold_left (fun fs a => file_step a fs) arts fs.

(** The same, seen from one path. *)
Definition step_at (a : artifact_input) (path : string) (v : option string) : option string :=
  if bool_decide (artifact_path a = path) then
    if is_truthy (ai_content_path a) then
      if truthy (text_of (ai_content a)) && negb (bool_decide (is_Some v))
      then Some (text_of (ai_content a))
      else v
    else Some (text_of (ai_content a))
  else v.

Definition written_at (arts : list artifact_input) (path : string) (v : option string) :=
  fold_left (fun v a => step_at a path v) arts v.

(** The content hash of a pinned artifact. *)
Definition artifact_hash (a : artifact_input) : string :=
  if truthy (text_of (ai_content a)) then sha256_text (text_of (ai_content a))
  else sha256_text "".

Definition artifact_kind_of (a : artifact_input) : string :=
  default "tool_output" (ai_artifact_kind a).

Definition artifact_key (episode_id : string) (a : artifact_input) : string :=
  "artifact_recorded:" ++ episode_id ++ ":" ++ text_of (ai_artifact_id a) ++ ":"
  ++ artifact_hash a.

(** The artifact has been ingested: its row is there unless its kind is
    refused, and its event is logged. *)
Definition artifact_settled (episode_id : string) (a : artifact_input) (s : store) : Prop :=
  (is_in (artifact_kind_of a) ["tool_output"; "doc"] = true
   -> artifact_exists s (text_of (ai_artifact_id a)) = true)
  /\ logged_key s (artifact_key episode_id a).

(** The row and the store that ingesting a pinned artifact leaves for its
    event. *)
Definition artifact_row_of (episode_id : string) (a : artifact_input) : artifact_row :=
  {| art_artifact_id := text_of (ai_artifact_id a); art_episode_id := episode_id;
     art_artifact_kind := artifact_kind_of a; art_content_path := artifact_path a;
     art_content_hash := artifact_hash a;
     art_mime_type := default "text/plain" (ai_mime_type a);
     art_metadata := default [] (ai_metadata a) |}.

Definition artifact_store (episode_id : string) (a : artifact_input) (s : store) : store :=
  let s1 := set_files (file_step a (files s)) s in
  if is_in (artifact_kind_of a) ["tool_output"; "doc"]
  then set_artifacts
         (insert_or_ignore same_artifact (artifact_row_of episode_id a) (artifacts s1)) s1
  else s1.

Definition evidence_kind_of (r : evidence_input) : string :=
  default "user_span" (ei_ref_kind r).

Definition evidence_target (r : evidence_input) : string :=
  if is_truthy (ei_target_id r) then text_of (ei_target_id r)
  else if is_truthy (ei_artifact_id r) then text_of (ei_artifact_id r) else "episode".

Definition evidence_excerpt (episode_id : string) (r : evidence_input) (s : store) : string :=
  if is_truthy (ei_excerpt_text r) then text_of (ei_excerpt_text r)
  else extract_evidence_excerpt episode_id (evidence_kind_of r) (ei_artifact_id r)
         (ei_start_offset r) (ei_end_offset r) (ei_line_start r) (ei_line_end r) s.

Definition evidence_hash (episode_id : string) (r : evidence_input) (s : store) : string :=
  sha256_text
    (if truthy (evidence_excerpt episode_id r s) then evidence_excerpt episode_id r s
     else (evidence_target r ++ ":" ++ str_of_opt_Z (ei_start_offset r) ++ ":"
           ++ str_of_opt_Z (ei_end_offset r) ++ ":" ++ str_of_opt_Z (ei_line_start r)
           ++ ":" ++ str_of_opt_Z (ei_line_end r))%string).

Definition evidence_key (episode_id : string) (r : evidence_input) (s : store) : string :=
  "evidence_ref_recorded:" ++ episode_id ++ ":" ++ text_of (ei_evidence_ref_id r) ++ ":"
  ++ evidence_hash episode_id r s.

(** The evidence reference has been ingested against the tables of [s0]. *)
Definition evidence_settled (episode_id : string) (r : evidence_input) (s0 s : store) : Prop :=
  (is_in (evidence_kind_of r) ["user_span"; "tool_output"; "doc_span"] = true
   -> evidence_exists s (text_of (ei_evidence_ref_id r)) = true)
  /\ logged_key s (evidence_key episode_id r s0).

(** The hash and the row of the episode of a pinned payload. *)
Definition episode_hash (p : episode_payload) : string :=
  sha256_text
    (canonical_json_episode
       {| canon_episode_id := text_of (p_episode_id p);
          canon_user_text := text_of (p_user_text p);
          canon_assistant_text := text_of (p_assistant_text p);
          canon_model_name := p_model_name p;
          canon_metadata := default [] (p_metadata p);
          canon_started_at := text_of (p_started_at p);
          canon_ended_at := text_of (p_ended_at p) |}).

Definition episode_row_of (p : episode_payload) : episode_row :=
  {| ep_episode_id := text_of (p_episode_id p); ep_user_text := text_of (p_user_text p);
     ep_assistant_text := text_of (p_assistant_text p); ep_model_name := p_model_name p;
     ep_metadata := default [] (p_metadata p); ep_payload_hash := episode_hash p;
     ep_started_at := text_of (p_started_at p); ep_ended_at := text_of (p_ended_at p) |}.

End IngestVocabulary.

(** *** A store for consolidation examples: one episode with a user span
    and two tool outputs. *)
Definition excerpt_row (id kind text : string) : evidence_row :=
  {| ev_evidence_ref_id := id; ev_episode_id := "ep1"; ev_artifact_id := None;
     ev_ref_kind := kind; ev_target_id := "episode"; ev_start_offset := None;
     ev_end_offset := None; ev_line_start := None; ev_line_end := None;
     ev_excerpt_text := text; ev_ref_hash := "h"; ev_created_at := "2026-01-01 00:00:00" |}.

Definition consolidation_store : store :=
  set_evidence_refs
    [excerpt_row "ev1" "user_span" "We must always pin versions.";
     excerpt_row "ev2" "tool_output" "Command succeeded.";
     excerpt_row "ev3" "tool_output" "Command succeeded. timeout after 30s"]
    one_episode_store.

Definition blank_candidate : Candidate :=
  {| candidate_id := ""; cand_kind := ""; cand_statement := ""; cand_scope_tier := "";
     cand_scope_id := ""; cand_topic_key := ""; cand_evidence_ref_ids := [] |}.

(** The candidates that the loop has decided on. *)
Definition decided (t : tally) : nat := t_admitted t + t_rejected t + t_merged t.

(** From [t] to [t']: [n] more candidates decided, no counter lower, and no
    more cards superseded than admitted. *)
Definition tallied (n : nat) (t t' : tally) : Prop :=
  decided t' = n + decided t
  /\ t_admitted t <= t_admitted t' /\ t_rejected t <= t_rejected t'
  /\ t_merged t <= t_merged t' /\ t_superseded t <= t_superseded t'
  /\ t_superseded t' - t_superseded t <= t_admitted t' - t_admitted t.

(** From [s] to [s']: the canonical tables other than the log and the
    files are the same, and every key of the log is still there. *)
Definition log_extends (s s' : store) : Prop :=
  sources s' = sources s /\ (forall k, logged_key s k -> logged_key s' k).

Section ConsolidateVocabulary.
Context `{Platform}.

(** The candidates that [consolidate_episode] works through, before it
    sorts them. *)
Definition episode_candidates (s : store) (episode_id : string) : list Candidate :=
  match select_one (fun r => ep_episode_id r =s? episode_id) (episodes s) with
  | Some episode =>
      generate_candidates episode_id
        (md_get (ep_metadata episode) "scope_tier" "repo")
        (md_get (ep_metadata episode) "scope_id" "default")
        (episode_evidence s episode_id)
  | None => []
  end.

End ConsolidateVocabulary.

(** The log holds the proposal of the candidate, and holds its decision:
    a rejection with some reason, a merge into some card, or an admission
    as some card. *)
Definition proposal_logged (episode_id : string) (c : Candidate) (s : store) : Prop :=
  logged_key s ("candidate_proposed:" ++ episode_id ++ ":" ++ candidate_id c).

Definition decision_logged (episode_id : string) (c : Candidate) (s : store) : Prop :=
  (exists reason,
     logged_key s ("card_rejected:" ++ episode_id ++ ":" ++ candidate_id c ++ ":" ++ reason))
  \/ (exists target,
        logged_key s ("card_merged:" ++ episode_id ++ ":" ++ candidate_id c ++ ":" ++ target))
  \/ (exists card_id,
        logged_key s ("card_admitted:" ++ episode_id ++ ":" ++ candidate_id c ++ ":"
                      ++ card_id)).

(** From [t] to [t']: the running total moved with the admissions, and did
    not pass the soft cap unless it was beyond it already. *)
Definition capped (t t' : tally) : Prop :=
  t_total t' + t_admitted t = t_total t + t_admitted t'
  /\ t_admitted t <= t_admitted t'
  /\ t_total t' <= Nat.max EPISODE_SOFT_CAP (t_total t).

(** [sum(admitted_by_kind.values())] at the start of a run. *)
Definition admitted_before (s : store) (episode_id : string) : nat :=
  map_fold (fun _ v acc => acc + v) 0 (count_episode_admitted_by_kind s episode_id).

(** *** The soundness of the log across operations *)

(** Sequence numbers 1..N per episode, keys and event ids without repeat. *)
Definition log_sound (s : store) : Prop :=
  seq_invariant s /\ keys_distinct s /\ List.NoDup (map me_event_id (memory_events s)).

(** A run of [m] that returns carries [P] from the store it starts on to
    the store it leaves. *)
Definition carries {A} (P : store -> Prop) (m : M A) : Prop :=
  forall s a s', m s = Ok (a, s') -> P s -> P s'.

(** *** The duplicate gate, in the words of the specification *)

(** A card of the candidate's kind, scope tier and scope id, in the given
    status. *)
Definition same_scope (cand : Candidate) (status : string) (r : card_row) : bool :=
  (c_kind r =s? cand_kind cand) && (c_scope_tier r =s? cand_scope_tier cand)
  && (c_scope_id r =s? cand_scope_id cand) && (c_status r =s? status).

(** The cards that the candidate is compared to, in the order in which the
    query yields them: the active ones, then those flagged for recheck,
    each group as stored. *)
Definition compared (cand : Candidate) (s : store) : list card_row :=
  List.filter (same_scope cand "active") (cards s)
  ++ List.filter (same_scope cand "needs_recheck") (cards s).

(** [lex = Jaccard(tokens)], [cos = cosine(Counter(tokens))] and their
    mean, of the candidate's statement and the card's. *)
Definition lexical_with (cand : Candidate) (r : card_row) : R :=
  Similarity.jaccard_similarity (cand_statement cand) (c_statement r).

Definition cosine_with (cand : Candidate) (r : card_row) : R :=
  Similarity.cosine_similarity_text (cand_statement cand) (c_statement r).

Definition mean_score (cand : Candidate) (r : card_row) : R :=
  ((lexical_with cand r + cosine_with cand r) / 2)%R.

(** [lex >= 0.80 AND cos >= 0.92] *)
Definition meets_duplicate (cand : Candidate) (r : card_row) : Prop :=
  (lexical_with cand r >= 0.80)%R /\ (cosine_with cand r >= 0.92)%R.

(** [lex >= 0.65 OR cos >= 0.78] *)
Definition meets_novelty (cand : Candidate) (r : card_row) : Prop :=
  (lexical_with cand r >= 0.65)%R \/ (cosine_with cand r >= 0.78)%R.

(** The best match among the rows: the first row whose mean no other row
    exceeds. *)
Definition best_among (cand : Candidate) (rows : list card_row) (r : card_row) : Prop :=
  exists before after,
    rows = before ++ r :: after
    /\ (forall x, In x before -> (mean_score cand x < mean_score cand r)%R)
    /\ (forall x, In x after -> (mean_score cand x <= mean_score cand r)%R).

(** The events that a run from [s] to [s'] has appended to the log. *)
Definition appended (s s' : store) : list event_row :=
  skipn (length (memory_events s)) (memory_events s').

(** A [card_rejected] event of the episode for the candidate, with the
    reason and the details. *)
Definition rejection_of (episode_id : string) (cand : Candidate) (reason : string)
    (details : reject_details) (e : event_row) : Prop :=
  me_event_type e = "card_rejected" /\ me_episode_id e = episode_id
  /\ me_payload e = PayCardRejected (candidate_id cand) (cand_kind cand)
                      (cand_statement cand) reason details.

Definition reject_key (episode_id : string) (cand : Candidate) (reason : string) : string :=
  "card_rejected:" ++ episode_id ++ ":" ++ candidate_id cand ++ ":" ++ reason.

(** A store for the duplicate gate: the episode has one user span, and two
    active facts of its scope are stored.  The first has the words of the
    span and one more; the second has the words of the span, one of them
    three times. *)
Definition fact_card (id statement : string) : card_row :=
  {| c_card_id := id; c_kind := "fact"; c_statement := statement;
     c_scope_tier := "repo"; c_scope_id := "default"; c_topic_key := "nightly"; c_tags := [];
     c_status := "active"; c_supersedes_card_id := None; c_created_event_id := 1;
     c_updated_event_id := 1; c_archived_at := None |}.

Definition card_one_more : card_row :=
  fact_card "c1" "The nightly build uploads coverage reports to staging daily".

Definition card_repeated : card_row :=
  fact_card "c2" "Nightly coverage build uploads coverage reports to staging for coverage".

Definition similarity_store : store :=
  set_cards [card_one_more; card_repeated]
    (set_evidence_refs
       [excerpt_row "ev1" "user_span" "The nightly build uploads coverage reports to staging"]
       one_episode_store).

Definition zero_tally : tally :=
  {| t_admitted := 0; t_rejected := 0; t_merged := 0; t_superseded := 0;
     t_by_kind := ∅; t_total := 0 |}.

(** The same store with the first of the two cards only. *)
Definition duplicate_store : store := set_cards [card_one_more] similarity_store.

(** The candidate that [generate_candidates] makes of the span. *)
Definition span_candidate : Candidate :=
  {| candidate_id :=
       deterministic_id (H := example_platform) "cand"
         ["ep1"; "0"; "fact"; "the nightly build uploads coverage reports to staging"];
     cand_kind := "fact";
     cand_statement := "The nightly build uploads coverage reports to staging";
     cand_scope_tier := "repo"; cand_scope_id := "default"; cand_topic_key := "nightly";
     cand_evidence_ref_ids := ["ev1"] |}.

(** From [s] to [s']: the log has only grown, by events that satisfy [P]. *)
Definition log_grows (P : event_row -> Prop) (s s' : store) : Prop :=
  exists l, memory_events s' = memory_events s ++ l /\ Forall P l.
End Engine.
(* ===================================================================== *)
(** * Part II: theorems *)
(* ===================================================================== *)

(** ** Text primitives *)

Example tokenize_pin_versions :
  Text.tokenize "We must always pin versions." = ["must"; "always"; "pin"; "versions"].
Proof. reflexivity. Qed.

Example topic_key_indentation :
  Text.topic_key "I will use tabs for indentation." = "will".
Proof. reflexivity. Qed.

Example normalize_statement_blanks :
  Text.normalize_statement "  run   the
 tests  " = "run the tests".
Proof. reflexivity. Qed.

Lemma first_long_token_find (tokens : list string) :
  Text.first_long_token tokens = find (fun t => (4 <=? String.length t)%nat) tokens.
Proof.
  induction tokens as [|tok rest IH]; [reflexivity|].
  cbn [Text.first_long_token find].
  destruct (4 <=? String.length tok)%nat; [reflexivity | exact IH].
Qed.

(** C10 as stated fails: over the statement's tokens with stopwords kept,
    the first token of four characters of "that is fine" is "that", while
    [topic_key] answers "fine". *)
Lemma topic_key_raw_tokens_counterexample :
  Text.topic_key "that is fine" <> Text.topic_key_of_tokens (Text.raw_tokens "that is fine").
Proof. vm_compute. discriminate. Qed.

(** C10 (amended): for every statement, [topic_key] is the first token of at
    least four characters among the tokens that [tokenize] keeps (stopwords
    removed), else the first such token, else "general". *)
Theorem topic_key_over_tokenize (statement : string) :
  Text.topic_key statement = Text.topic_key_of_tokens (Text.tokenize statement).
Proof.
  unfold Text.topic_key, Text.topic_key_of_tokens.
  rewrite first_long_token_find.
  destruct (find _ (Text.tokenize statement)); [reflexivity|].
  destruct (Text.tokenize statement); reflexivity.
Qed.
(** *** Normalization and tokens *)

Lemma substring_prefix_length (s : string) : forall n,
  String.length (String.substring 0 n s) = Nat.min n (String.length s).
Proof.
  induction s as [|c s IH]; intros [|n]; try reflexivity.
  change (S (String.length (String.substring 0 n s)) = S (Nat.min n (String.length s))).
  rewrite IH. reflexivity.
Qed.

Lemma substring_prefix_split (s : string) : forall n,
  exists q, s = (String.substring 0 n s ++ q)%string.
Proof.
  induction s as [|c s IH]; intros [|n]; cbn.
  - exists EmptyString. reflexivity.
  - exists EmptyString. reflexivity.
  - exists (String c s). reflexivity.
  - destruct (IH n) as [q Hq]. exists q.
    change (String c s = String c (String.substring 0 n s ++ q)%string). f_equal. exact Hq.
Qed.

Lemma string_length_app (a b : string) :
  String.length (a ++ b)%string = String.length a + String.length b.
Proof.
  induction a as [|c a IH]; [reflexivity|].
  change (S (String.length (a ++ b)%string) = S (String.length a + String.length b)).
  rewrite IH. reflexivity.
Qed.

(** X2: a normalized statement never has more than 280 characters. *)
Theorem normalize_statement_length (text : string) :
  String.length (Text.normalize_statement text) <= 280.
Proof.
  unfold Text.normalize_statement.
  destruct (280 <? String.length (Text.collapse_ws false false text)) eqn:Hlong.
  - apply Nat.ltb_lt in Hlong.
    rewrite string_length_app, substring_prefix_length. cbn [String.length]. lia.
  - apply Nat.ltb_ge in Hlong. exact Hlong.
Qed.

(** What the collapsed text starts with: a blank only when one was pending,
    and then a character that is no whitespace follows. *)
Lemma collapse_ws_shape (y : string) : forall st pd,
  match Text.collapse_ws st pd y with
  | EmptyString => True
  | String a EmptyString => Text.is_space a = false
  | String a (String b _) =>
      Text.is_space a = true ->
      a = " "%char /\ (pd = true \/ st = true) /\ Text.is_space b = false
  end.
Proof.
  induction y as [|c y IH]; intros st pd; cbn [Text.collapse_ws]; [exact I|].
  destruct (Text.is_space c) eqn:Hc.
  - specialize (IH st st).
    destruct (Text.collapse_ws st st y) as [|a [|b r]]; auto.
    intros Ha. destruct (IH Ha) as (-> & Hst & Hb). repeat split; tauto.
  - destruct pd.
    + intros _. repeat split; auto.
    + destruct (Text.collapse_ws true false y); [exact Hc|].
      rewrite Hc. discriminate.
Qed.

Lemma collapse_ws_twice (s : string) :
  Text.collapse_ws true false (Text.collapse_ws true false s) = Text.collapse_ws true false s
  /\ Text.collapse_ws true false (Text.collapse_ws true true s) = Text.collapse_ws true true s
  /\ Text.collapse_ws false false (Text.collapse_ws false false s)
     = Text.collapse_ws false false s.
Proof.
  induction s as [|c s (IH1 & IH2 & IH3)]; [repeat split|].
  cbn [Text.collapse_ws]. destruct (Text.is_space c) eqn:Hc.
  - repeat split; assumption.
  - split; [|split].
    + cbn [Text.collapse_ws]. rewrite Hc, IH1. reflexivity.
    + cbn [Text.collapse_ws]. rewrite Hc, IH1. reflexivity.
    + cbn [Text.collapse_ws]. rewrite Hc, IH1. reflexivity.
Qed.

Lemma collapse_ws_prefix (p : string) : forall st pd q,
  Text.collapse_ws st pd (p ++ q)%string = ((if pd then " " else "") ++ p ++ q)%string ->
  Text.collapse_ws st pd (p ++ "...")%string = ((if pd then " " else "") ++ p ++ "...")%string.
Proof.
  induction p as [|c p IH]; intros st pd q Hfix.
  - destruct pd; reflexivity.
  - change (String c p ++ q)%string with (String c (p ++ q)%string) in Hfix.
    change (String c p ++ "...")%string with (String c (p ++ "...")%string).
    cbn [Text.collapse_ws] in *. destruct (Text.is_space c) eqn:Hc.
    + pose proof (collapse_ws_shape (p ++ q)%string st st) as Hshape.
      rewrite Hfix in Hshape. destruct pd.
      * cbn in Hshape. destruct (Hshape eq_refl) as (_ & _ & Hc'). congruence.
      * cbn in Hshape. cbn in Hfix.
        destruct (p ++ q)%string as [|b r] eqn:Hpq.
        -- congruence.
        -- destruct (Hshape Hc) as (-> & [Hst|Hst] & _); subst st;
             apply (IH true true q); rewrite Hpq; exact Hfix.
    + destruct pd.
      * cbn in Hfix |- *. injection Hfix as Hfix. f_equal. f_equal.
        apply (IH true false q). exact Hfix.
      * cbn in Hfix. injection Hfix as Hfix.
        change (String c (Text.collapse_ws true false (p ++ "...")%string)
                = String c (p ++ "...")%string).
        f_equal. apply (IH true false q). exact Hfix.
Qed.

(** X3: normalizing a normalized statement changes nothing, also when the
    first normalization cut the text to 277 characters and three dots. *)
Theorem normalize_statement_idempotent (text : string) :
  Text.normalize_statement (Text.normalize_statement text) = Text.normalize_statement text.
Proof.
  destruct (collapse_ws_twice text) as (_ & _ & Hfix).
  assert (Text.normalize_statement text
          = if 280 <? String.length (Text.collapse_ws false false text)
            then (String.substring 0 277 (Text.collapse_ws false false text) ++ "...")%string
            else Text.collapse_ws false false text) as -> by reflexivity.
  set (t := Text.collapse_ws false false text) in *.
  destruct (280 <? String.length t) eqn:Hlong.
  - apply Nat.ltb_lt in Hlong.
    destruct (substring_prefix_split t 277) as [q Hq].
    assert (Text.collapse_ws false false (String.substring 0 277 t ++ "...")%string
            = (String.substring 0 277 t ++ "...")%string) as Hcut.
    { apply (collapse_ws_prefix (String.substring 0 277 t) false false q).
      rewrite <- Hq. exact Hfix. }
    unfold Text.normalize_statement. rewrite Hcut.
    rewrite string_length_app, substring_prefix_length.
    replace (Nat.min 277 (String.length t)) with 277 by lia. reflexivity.
  - unfold Text.normalize_statement. rewrite Hfix, Hlong. reflexivity.
Qed.

Lemma list_ascii_app (a b : string) :
  list_ascii_of_string (a ++ b)%string = list_ascii_of_string a ++ list_ascii_of_string b.
Proof.
  induction a as [|c a IH]; [reflexivity|].
  change (c :: list_ascii_of_string (a ++ b)%string
          = c :: (list_ascii_of_string a ++ list_ascii_of_string b)).
  rewrite IH. reflexivity.
Qed.

Lemma findall_runs_tokens (s : string) : forall cur tok,
  Forall (fun c => Text.is_token_char c = true) (list_ascii_of_string cur) ->
  In tok (Text.findall_runs cur s) ->
  tok <> EmptyString
  /\ Forall (fun c => Text.is_token_char c = true) (list_ascii_of_string tok).
Proof.
  induction s as [|c s IH]; intros cur tok Hcur Hin; cbn [Text.findall_runs] in Hin.
  - destruct cur; [destruct Hin|]. destruct Hin as [<-|[]]. split; [discriminate|exact Hcur].
  - destruct (Text.is_token_char c) eqn:Hc.
    + apply (IH _ _ ) in Hin; [exact Hin|].
      rewrite list_ascii_app. apply Forall_app. split; [exact Hcur|].
      constructor; [exact Hc|constructor].
    + destruct cur.
      * apply (IH EmptyString tok); [constructor|exact Hin].
      * destruct Hin as [<-|Hin]; [split; [discriminate|exact Hcur]|].
        apply (IH EmptyString tok); [constructor|exact Hin].
Qed.

(** X4: every token that [tokenize] returns is non-empty, is made of the
    characters a-z and 0-9 only, and is no stopword. *)
Theorem tokenize_tokens (text tok : string) :
  In tok (Text.tokenize text) ->
  tok <> EmptyString
  /\ Forall (fun c => Text.is_token_char c = true) (list_ascii_of_string tok)
  /\ ~ In tok Text.STOPWORDS.
Proof.
  unfold Text.tokenize. intros Hin. apply List.filter_In in Hin. destruct Hin as [Hraw Hstop].
  destruct (findall_runs_tokens _ EmptyString _ (List.Forall_nil _) Hraw) as [Hne Hchars].
  split; [exact Hne|]. split; [exact Hchars|].
  intros Hmem. apply negb_true_iff in Hstop. unfold Text.mem_string in Hstop.
  assert (existsb (String.eqb tok) Text.STOPWORDS = true) as Hex.
  { apply existsb_exists. exists tok. split; [exact Hmem|apply String.eqb_refl]. }
  congruence.
Qed.

Lemma tokenize_tokens_witness :
  "pin" <> EmptyString
  /\ Forall (fun c => Text.is_token_char c = true) (list_ascii_of_string "pin")
  /\ ~ In "pin" Text.STOPWORDS.
Proof.
  apply (tokenize_tokens "We must always PIN the versions." "pin").
  vm_compute. tauto.
Defined.

Lemma lower_char_twice (c : ascii) : Text.lower_char (Text.lower_char c) = Text.lower_char c.
Proof. destruct c as [[] [] [] [] [] [] [] []]; reflexivity. Qed.

Lemma lower_twice (s : string) : Text.lower (Text.lower s) = Text.lower s.
Proof.
  induction s as [|c s IH]; [reflexivity|].
  cbn [Text.lower]. rewrite lower_char_twice, IH. reflexivity.
Qed.

(** X5: letter case never matters: a text and its lower-case form have the
    same tokens, the same topic key and the same failure signal. *)
Theorem lower_case_is_ignored (text : string) :
  Text.tokenize (Text.lower text) = Text.tokenize text
  /\ Text.topic_key (Text.lower text) = Text.topic_key text
  /\ Text.contains_failure_signal (Text.lower text) = Text.contains_failure_signal text.
Proof.
  assert (Text.tokenize (Text.lower text) = Text.tokenize text) as Htok.
  { unfold Text.tokenize, Text.raw_tokens. rewrite lower_twice. reflexivity. }
  split; [exact Htok|]. split.
  - unfold Text.topic_key. rewrite Htok. reflexivity.
  - unfold Text.contains_failure_signal. rewrite lower_twice. reflexivity.
Qed.
(** ** Packing *)

Section PackTheorems.
Import Pack.

Lemma count_where_app {A} (p : A -> bool) l1 l2 :
  count_where p (l1 ++ l2) = count_where p l1 + count_where p l2.
Proof. unfold count_where. rewrite List.filter_app, length_app. reflexivity. Qed.

Lemma count_of_insert (d : gmap string nat) k v k' :
  count_of (<[k := v]> d) k' = if decide (k = k') then v else count_of d k'.
Proof. unfold count_of. rewrite lookup_insert. destruct (decide (k = k')); reflexivity. Qed.

Lemma pack_init_slot g : count_of (slot_counts pack_init) g = 0.
Proof.
  unfold count_of, pack_init, slot_counts.
  rewrite !lookup_insert, lookup_singleton.
  repeat case_decide; reflexivity.
Qed.

Lemma pack_init_inv ranked : pack_inv ranked pack_init.
Proof.
  split.
  - intros c [].
  - constructor.
  - intros t. unfold count_of. cbn [topic_counts pack_init]. rewrite lookup_empty. reflexivity.
  - intros g. rewrite pack_init_slot. reflexivity.
  - intros t. unfold count_of. cbn [topic_counts pack_init]. rewrite lookup_empty. cbn. lia.
  - intros g. rewrite pack_init_slot. lia.
  - cbn. lia.
Qed.

Lemma existsb_card_id_false sel cand :
  existsb (fun s => card_id s =s? card_id cand) sel = false ->
  ~ In (card_id cand) (map card_id sel).
Proof.
  intros Hex Hin. apply in_map_iff in Hin as (s & Hs & Hin).
  assert (existsb (fun s => card_id s =s? card_id cand) sel = true) as Ht.
  { apply existsb_exists. exists s. split; [exact Hin|]. apply String.eqb_eq. exact Hs. }
  congruence.
Qed.

Lemma take_inv ranked st cand :
  pack_inv ranked st ->
  In cand ranked ->
  ~ In (card_id cand) (map card_id (selected st)) ->
  count_of (topic_counts st) (topic_key cand) < PACK_TOPIC_CAP ->
  count_of (slot_counts st) (group_for_kind (kind cand))
    < count_of PACK_SLOT_CAPS (group_for_kind (kind cand)) ->
  length (selected st) < PACK_TOTAL_CAP ->
  pack_inv ranked (take cand (group_for_kind (kind cand)) st).
Proof.
  intros [Hr Hn Ht Hs Htc Hsc Htot] Hin Hfresh Htopic Hslot Hlen.
  split; simpl.
  - intros c Hc. apply in_app_or in Hc as [Hc|[<-|[]]]; auto.
  - rewrite map_app. simpl.
    apply List.NoDup_app; [exact Hn | repeat constructor; intros [] |].
    intros x Hx [<-|[]]. exact (Hfresh Hx).
  - intros t. rewrite count_of_insert, count_where_app.
    unfold count_where at 2. simpl. unfold has_topic at 2.
    destruct (decide (topic_key cand = t)) as [->|Hne].
    + rewrite String.eqb_refl. simpl. rewrite Ht. lia.
    + apply String.eqb_neq in Hne. rewrite Hne. simpl. rewrite Ht. lia.
  - intros g. rewrite count_of_insert, count_where_app.
    unfold count_where at 2. simpl. unfold in_group at 2.
    destruct (decide (group_for_kind (kind cand) = g)) as [->|Hne].
    + rewrite String.eqb_refl. simpl. rewrite Hs. lia.
    + apply String.eqb_neq in Hne. rewrite Hne. simpl. rewrite Hs. lia.
  - intros t. rewrite count_of_insert.
    destruct (decide (topic_key cand = t)); [lia | apply Htc].
  - intros g. rewrite count_of_insert.
    destruct (decide (group_for_kind (kind cand) = g)) as [<-|]; [lia | apply Hsc].
  - rewrite length_app. simpl. lia.
Qed.

Lemma group_of_negative_result k :
  (k =s? "negative_result") = true -> group_for_kind k = "negative_result".
Proof. intros Hk. apply String.eqb_eq in Hk. subst k. reflexivity. Qed.

Lemma preselect_negative_inv ranked rest st :
  pack_inv ranked st -> selected st = [] -> incl rest ranked ->
  pack_inv ranked (preselect_negative rest st).
Proof.
  intros Hinv Hempty. induction rest as [|cand rest IH]; intros Hincl; [exact Hinv|].
  cbn [preselect_negative].
  assert (incl rest ranked) as Hrest by (intros x Hx; apply Hincl; right; exact Hx).
  destruct (kind cand =s? "negative_result") eqn:Hk; cbn [andb]; [|auto].
  destruct (count_of (topic_counts st) (topic_key cand) <? PACK_TOPIC_CAP) eqn:Ht; [|auto].
  destruct (count_of (slot_counts st) "negative_result"
            <? count_of PACK_SLOT_CAPS "negative_result") eqn:Hs; [|auto].
  rewrite <- (group_of_negative_result _ Hk).
  apply Nat.ltb_lt in Ht, Hs.
  apply take_inv; auto.
  - apply Hincl. left. reflexivity.
  - rewrite Hempty. intros [].
  - rewrite (group_of_negative_result _ Hk). exact Hs.
  - rewrite Hempty. unfold PACK_TOTAL_CAP. cbn. lia.
Qed.

Lemma fill_inv ranked rest : forall st,
  pack_inv ranked st -> incl rest ranked -> pack_inv ranked (fill rest st).
Proof.
  induction rest as [|cand rest IH]; intros st Hinv Hincl; [exact Hinv|].
  cbn [fill].
  assert (incl rest ranked) as Hrest by (intros x Hx; apply Hincl; right; exact Hx).
  destruct (PACK_TOTAL_CAP <=? length (selected st)) eqn:Hcap; [exact Hinv|].
  destruct (existsb _ (selected st)) eqn:Hdup; [auto|].
  destruct (PACK_TOPIC_CAP <=? count_of (topic_counts st) (topic_key cand)) eqn:Ht; [auto|].
  destruct (count_of PACK_SLOT_CAPS (group_for_kind (kind cand))
            <=? count_of (slot_counts st) (group_for_kind (kind cand))) eqn:Hs; [auto|].
  apply Nat.leb_gt in Hcap, Ht, Hs.
  apply IH; [|exact Hrest].
  apply take_inv; auto.
  - apply Hincl. left. reflexivity.
  - apply existsb_card_id_false. exact Hdup.
Qed.

Lemma select_cards_inv ranked flag : pack_inv ranked (select_cards ranked flag).
Proof.
  unfold select_cards.
  set (st0 := if flag then preselect_negative ranked pack_init else pack_init).
  assert (pack_inv ranked st0) as H0.
  { unfold st0. destruct flag; [|apply pack_init_inv].
    apply preselect_negative_inv; [apply pack_init_inv | reflexivity | apply incl_refl]. }
  pose proof (fill_inv ranked ranked st0 H0 (incl_refl _)) as Hf.
  assert (firstn PACK_TOTAL_CAP (selected (fill ranked st0)) = selected (fill ranked st0)) as Hfirst.
  { apply firstn_all2. apply Hf. }
  rewrite Hfirst. destruct Hf. split; assumption.
Qed.

Lemma count_where_le {A} (p q : A -> bool) l :
  (forall x, p x = true -> q x = true) -> count_where p l <= count_where q l.
Proof.
  intros Hpq. unfold count_where. induction l as [|x l IH]; cbn [List.filter]; [lia|].
  destruct (p x) eqn:Hp.
  - rewrite (Hpq x Hp). cbn. lia.
  - destruct (q x); cbn; lia.
Qed.

Lemma exposures_from_length `{Platform} pack_id channel sel : forall start,
  length (exposures_from pack_id channel start sel) = length sel.
Proof. induction sel as [|c sel IH]; intros start; cbn; [reflexivity | rewrite IH; reflexivity]. Qed.

Lemma exposures_from_nth `{Platform} pack_id channel sel : forall start i c,
  nth_error sel i = Some c ->
  exists e, nth_error (exposures_from pack_id channel start sel) i = Some e
            /\ exp_card_id e = card_id c /\ rank_position e = start + i + 1
            /\ exp_channel e = channel /\ exp_score_total e = score_total c.
Proof.
  induction sel as [|c0 sel IH]; intros start i c Hnth; [destruct i; discriminate|].
  destruct i as [|i]; cbn in Hnth.
  - injection Hnth as ->. eexists. split; [reflexivity|]. cbn. repeat split; lia.
  - destruct (IH (S start) i c Hnth) as (e & He & Hid & Hrank & Hch & Hsc).
    exists e. split; [exact He|]. repeat split; auto. lia.
Qed.

Lemma exposures_from_count `{Platform} pack_id channel sel cid : forall start,
  count_where (fun e => exp_card_id e =s? cid) (exposures_from pack_id channel start sel)
  = count_where (fun c => card_id c =s? cid) sel.
Proof.
  unfold count_where.
  induction sel as [|c sel IH]; intros start; [reflexivity|].
  cbn [exposures_from List.filter exp_card_id].
  destruct (card_id c =s? cid); cbn [length]; rewrite IH; reflexivity.
Qed.

Lemma count_where_absent (sel : list scored_card) cid :
  ~ In cid (map card_id sel) -> count_where (fun c' => card_id c' =s? cid) sel = 0.
Proof.
  unfold count_where.
  induction sel as [|c0 sel IH]; intros Hnot; [reflexivity|].
  cbn [List.filter].
  destruct (card_id c0 =s? cid) eqn:Heq.
  - apply String.eqb_eq in Heq. exfalso. apply Hnot. left. exact Heq.
  - apply IH. intros Hin. apply Hnot. right. exact Hin.
Qed.

Lemma nodup_count_one (sel : list scored_card) c :
  List.NoDup (map card_id sel) -> In c sel ->
  count_where (fun c' => card_id c' =s? card_id c) sel = 1.
Proof.
  induction sel as [|c0 sel IH]; intros Hnd Hin; [destruct Hin|].
  cbn [map] in Hnd. inversion Hnd as [|? ? Hnotin Hnd']; subst.
  unfold count_where. cbn [List.filter].
  destruct (card_id c0 =s? card_id c) eqn:Heq.
  - apply String.eqb_eq in Heq. cbn [length]. f_equal.
    apply count_where_absent. rewrite <- Heq. exact Hnotin.
  - destruct Hin as [->|Hin]; [rewrite String.eqb_refl in Heq; discriminate|].
    apply IH; assumption.
Qed.

Lemma group_count_bound ranked flag g cap (p : scored_card -> bool) :
  count_of PACK_SLOT_CAPS g = cap ->
  (forall c, p c = true -> in_group g c = true) ->
  count_where p (selected (select_cards ranked flag)) <= cap.
Proof.
  intros Hcap Hp.
  pose proof (select_cards_inv ranked flag) as Hinv.
  etransitivity; [apply (count_where_le p (in_group g)); exact Hp|].
  rewrite <- (inv_slots _ _ Hinv), <- Hcap. apply (inv_slot_cap _ _ Hinv).
Qed.

(** C6: whatever the ranked list and the failure flag, the selected cards
    respect the total cap 8, the slot caps (3 for preference, constraint and
    commitment together, 2 negative_result, 2 tactic, 3 fact) and the topic
    cap 2; each comes from the ranked list; and the exposures list has one
    record per selected card, at the card's position (counted from 1), so
    each selected card has exactly one exposure. *)
Theorem build_pack_respects_caps `{Platform}
    (ranked : list scored_card) (has_recent_failure : bool) (pack_id channel : string) :
  let sel := selected (select_cards ranked has_recent_failure) in
  let exps := exposures_of pack_id channel sel in
  length sel <= 8
  /\ count_where kind_is_normative sel <= 3
  /\ count_where (kind_is "negative_result") sel <= 2
  /\ count_where (kind_is "tactic") sel <= 2
  /\ count_where (kind_is "fact") sel <= 3
  /\ (forall t, count_where (has_topic t) sel <= 2)
  /\ (forall c, In c sel -> In c ranked)
  /\ length exps = length sel
  /\ (forall i c, nth_error sel i = Some c ->
        exists e, nth_error exps i = Some e /\ exp_card_id e = card_id c
                  /\ rank_position e = i + 1 /\ exp_channel e = channel
                  /\ exp_score_total e = score_total c)
  /\ (forall c, In c sel ->
        count_where (fun e => exp_card_id e =s? card_id c) exps = 1).
Proof.
  intros sel exps.
  pose proof (select_cards_inv ranked has_recent_failure) as Hinv.
  repeat split.
  - apply (inv_total _ _ Hinv).
  - apply (group_count_bound _ _ "constraints_commitments"); [reflexivity|].
    intros c Hc. unfold kind_is_normative in Hc. unfold in_group, group_for_kind.
    destruct (kind c =s? "constraint"), (kind c =s? "commitment"), (kind c =s? "preference");
      try reflexivity; discriminate.
  - apply (group_count_bound _ _ "negative_result"); [reflexivity|].
    intros c Hc. unfold kind_is in Hc. apply String.eqb_eq in Hc.
    unfold in_group. rewrite Hc. reflexivity.
  - apply (group_count_bound _ _ "tactic"); [reflexivity|].
    intros c Hc. unfold kind_is in Hc. apply String.eqb_eq in Hc.
    unfold in_group. rewrite Hc. reflexivity.
  - apply (group_count_bound _ _ "fact"); [reflexivity|].
    intros c Hc. unfold kind_is in Hc. apply String.eqb_eq in Hc.
    unfold in_group. rewrite Hc. reflexivity.
  - intros t. fold sel in Hinv. rewrite <- (inv_topics _ _ Hinv). apply (inv_topic_cap _ _ Hinv).
  - apply (inv_from_ranked _ _ Hinv).
  - apply exposures_from_length.
  - intros i c Hnth.
    destruct (exposures_from_nth pack_id channel sel 0 i c Hnth) as (e & He & Hid & Hr & Hc & Hs).
    exists e. repeat split; auto.
  - intros c Hc. unfold exps, exposures_of. rewrite exposures_from_count.
    apply nodup_count_one; [apply (inv_nodup _ _ Hinv) | exact Hc].
Qed.

Example five_facts_five_tactics :
  map card_id (selected (select_cards
    [ demo_card "f1" "fact" "t1"; demo_card "f2" "fact" "t2"; demo_card "f3" "fact" "t3";
      demo_card "f4" "fact" "t4"; demo_card "f5" "fact" "t5";
      demo_card "a1" "tactic" "u1"; demo_card "a2" "tactic" "u2"; demo_card "a3" "tactic" "u3";
      demo_card "a4" "tactic" "u4"; demo_card "a5" "tactic" "u5" ] false))
  = ["f1"; "f2"; "f3"; "a1"; "a2"].
Proof. vm_compute. reflexivity. Qed.

End PackTheorems.
Section PackProperties.
Import Pack.

(** X6: no card is packed twice, even when the ranked list repeats it. *)
Theorem pack_cards_distinct (ranked : list scored_card) (has_recent_failure : bool) :
  List.NoDup (map card_id (selected (select_cards ranked has_recent_failure))).
Proof. apply (inv_nodup _ _ (select_cards_inv ranked has_recent_failure)). Qed.

Lemma fill_extends rest : forall st,
  exists more, selected (fill rest st) = selected st ++ more /\ sublist more rest.
Proof.
  induction rest as [|cand rest IH]; intros st.
  - exists []. split; [symmetry; apply app_nil_r|constructor].
  - cbn [fill].
    destruct (PACK_TOTAL_CAP <=? length (selected st)).
    { exists []. split; [symmetry; apply app_nil_r|apply sublist_nil_l]. }
    destruct (existsb _ (selected st)).
    { destruct (IH st) as (more & Hsel & Hsub). exists more.
      split; [exact Hsel|apply sublist_cons; exact Hsub]. }
    destruct (PACK_TOPIC_CAP <=? count_of (topic_counts st) (topic_key cand)).
    { destruct (IH st) as (more & Hsel & Hsub). exists more.
      split; [exact Hsel|apply sublist_cons; exact Hsub]. }
    destruct (count_of PACK_SLOT_CAPS (group_for_kind (kind cand))
              <=? count_of (slot_counts st) (group_for_kind (kind cand))).
    { destruct (IH st) as (more & Hsel & Hsub). exists more.
      split; [exact Hsel|apply sublist_cons; exact Hsub]. }
    destruct (IH (take cand (group_for_kind (kind cand)) st)) as (more & Hsel & Hsub).
    exists (cand :: more). split; [|apply sublist_skip; exact Hsub].
    rewrite Hsel. cbn [take selected]. rewrite <- app_assoc. reflexivity.
Qed.

Lemma preselect_negative_first ranked :
  preselect_negative ranked pack_init
  = match List.find (fun c => kind c =s? "negative_result") ranked with
    | Some c => take c "negative_result" pack_init
    | None => pack_init
    end.
Proof.
  induction ranked as [|cand ranked IH]; [reflexivity|].
  cbn [preselect_negative List.find].
  destruct (kind cand =s? "negative_result"); [|exact IH].
  reflexivity.
Qed.

Lemma selected_all ranked flag :
  selected (select_cards ranked flag)
  = selected (fill ranked (if flag then preselect_negative ranked pack_init else pack_init)).
Proof.
  unfold select_cards. cbn [selected].
  set (st0 := if flag then preselect_negative ranked pack_init else pack_init).
  assert (pack_inv ranked st0) as H0.
  { unfold st0. destruct flag; [|apply pack_init_inv].
    apply preselect_negative_inv; [apply pack_init_inv | reflexivity | apply incl_refl]. }
  pose proof (fill_inv ranked ranked st0 H0 (incl_refl _)) as Hf.
  apply firstn_all2. apply Hf.
Qed.

(** X7: after a recent failure the pack opens with the best-ranked
    negative result, whatever else is ranked above it. *)
Theorem pack_leads_with_negative_result (ranked : list scored_card) (c : scored_card) :
  List.find (fun c => kind c =s? "negative_result") ranked = Some c ->
  hd_error (selected (select_cards ranked true)) = Some c.
Proof.
  intros Hfind. rewrite selected_all, preselect_negative_first, Hfind.
  destruct (fill_extends ranked (take c "negative_result" pack_init)) as (more & -> & _).
  reflexivity.
Qed.

Lemma pack_leads_with_negative_result_witness :
  hd_error (selected (select_cards [demo_card "f1" "fact" "a";
                                    demo_card "n1" "negative_result" "b"] true))
  = Some (demo_card "n1" "negative_result" "b").
Proof. apply pack_leads_with_negative_result. reflexivity. Defined.

(** X8: the pack keeps the ranking order: without a recent failure the
    selected cards are a subsequence of the ranked list, and with one the
    cards after the first are. *)
Theorem pack_keeps_rank_order (ranked : list scored_card) (has_recent_failure : bool) :
  sublist (if has_recent_failure
           then tail (selected (select_cards ranked true))
           else selected (select_cards ranked false)) ranked.
Proof.
  rewrite !selected_all. destruct has_recent_failure.
  - rewrite preselect_negative_first.
    destruct (List.find _ ranked) as [c|].
    + destruct (fill_extends ranked (take c "negative_result" pack_init)) as (more & -> & Hsub).
      exact Hsub.
    + destruct (fill_extends ranked pack_init) as (more & -> & Hsub).
      cbn [pack_init selected app]. destruct more as [|x more]; [apply sublist_nil_l|].
      cbn [tail]. etransitivity; [|exact Hsub]. apply sublist_cons. reflexivity.
  - destruct (fill_extends ranked pack_init) as (more & -> & Hsub). exact Hsub.
Qed.


Lemma blocked_take c cand g st : blocked c st -> blocked c (take cand g st).
Proof.
  unfold blocked. cbn [take selected topic_counts slot_counts].
  intros [Hin|[Hfull|[Htopic|Hslot]]].
  - left. rewrite existsb_app, Hin. reflexivity.
  - right. left. rewrite length_app. lia.
  - right. right. left. rewrite count_of_insert.
    destruct (decide (topic_key cand = topic_key c)) as [->|]; lia.
  - right. right. right. rewrite count_of_insert.
    destruct (decide (g = group_for_kind (kind c))) as [->|]; lia.
Qed.

Lemma blocked_fill c rest : forall st, blocked c st -> blocked c (fill rest st).
Proof.
  induction rest as [|cand rest IH]; intros st Hb; [exact Hb|].
  cbn [fill].
  repeat match goal with
         | |- blocked _ (if ?b then _ else _) => destruct b
         end; auto using blocked_take.
Qed.

Lemma fill_blocks rest : forall st c, In c rest -> blocked c (fill rest st).
Proof.
  induction rest as [|cand rest IH]; intros st c Hin; [destruct Hin|].
  destruct Hin as [->|Hin].
  - cbn [fill].
    destruct (PACK_TOTAL_CAP <=? length (selected st)) eqn:Hcap.
    { apply Nat.leb_le in Hcap. right. left. exact Hcap. }
    destruct (existsb (fun s => card_id s =s? card_id c) (selected st)) eqn:Hdup.
    { apply blocked_fill. left. exact Hdup. }
    destruct (PACK_TOPIC_CAP <=? count_of (topic_counts st) (topic_key c)) eqn:Ht.
    { apply Nat.leb_le in Ht. apply blocked_fill. right. right. left. exact Ht. }
    destruct (count_of PACK_SLOT_CAPS (group_for_kind (kind c))
              <=? count_of (slot_counts st) (group_for_kind (kind c))) eqn:Hs.
    { apply Nat.leb_le in Hs. apply blocked_fill. right. right. right. exact Hs. }
    apply blocked_fill. left. cbn [take selected]. rewrite existsb_app. cbn [existsb].
    unfold same_card_id. rewrite String.eqb_refl, orb_true_r. reflexivity.
  - cbn [fill].
    destruct (PACK_TOTAL_CAP <=? length (selected st)) eqn:Hcap.
    { apply Nat.leb_le in Hcap. right. left. exact Hcap. }
    repeat match goal with
           | |- blocked _ (if ?b then _ else _) => destruct b
           end; apply IH; exact Hin.
Qed.

(** X9: the pack is full in the greedy sense: every ranked card that is
    not in the pack is kept out by a cap that the pack has reached, the
    total of 8, the 2 of its topic or the cap of its slot. *)
Theorem pack_leaves_out_only_blocked (ranked : list scored_card) (has_recent_failure : bool)
    (c : scored_card) :
  In c ranked ->
  let sel := selected (select_cards ranked has_recent_failure) in
  existsb (same_card_id c) sel = true
  \/ length sel = 8
  \/ count_where (has_topic (topic_key c)) sel = 2
  \/ count_where (in_group (group_for_kind (kind c))) sel
     = count_of PACK_SLOT_CAPS (group_for_kind (kind c)).
Proof.
  intros Hin sel.
  pose proof (select_cards_inv ranked has_recent_failure) as Hinv.
  pose proof (fill_blocks ranked
                (if has_recent_failure then preselect_negative ranked pack_init else pack_init)
                c Hin) as Hb.
  unfold blocked in Hb. rewrite <- selected_all in Hb. fold sel in Hb.
  change (topic_counts (fill ranked
            (if has_recent_failure then preselect_negative ranked pack_init else pack_init)))
    with (topic_counts (select_cards ranked has_recent_failure)) in Hb.
  change (slot_counts (fill ranked
            (if has_recent_failure then preselect_negative ranked pack_init else pack_init)))
    with (slot_counts (select_cards ranked has_recent_failure)) in Hb.
  rewrite (inv_topics _ _ Hinv), (inv_slots _ _ Hinv) in Hb. fold sel in Hb.
  pose proof (inv_total _ _ Hinv) as Htotal. fold sel in Htotal.
  pose proof (inv_topic_cap _ _ Hinv (topic_key c)) as Htopic.
  pose proof (inv_slot_cap _ _ Hinv (group_for_kind (kind c))) as Hslot.
  rewrite (inv_topics _ _ Hinv) in Htopic. rewrite (inv_slots _ _ Hinv) in Hslot.
  fold sel in Htopic, Hslot. unfold PACK_TOTAL_CAP, PACK_TOPIC_CAP in *.
  destruct Hb as [Hb|[Hb|[Hb|Hb]]]; [left; exact Hb|right; left; lia|
    right; right; left; lia|right; right; right; lia].
Qed.

Lemma pack_leaves_out_only_blocked_witness :
  let c := demo_card "f4" "fact" "d" in
  let ranked := [demo_card "f1" "fact" "a"; demo_card "f2" "fact" "b";
                 demo_card "f3" "fact" "c"; c] in
  let sel := selected (select_cards ranked false) in
  existsb (same_card_id c) sel = true
  \/ length sel = 8
  \/ count_where (has_topic (topic_key c)) sel = 2
  \/ count_where (in_group (group_for_kind (kind c))) sel
     = count_of PACK_SLOT_CAPS (group_for_kind (kind c)).
Proof.
  intros c ranked.
  apply (pack_leaves_out_only_blocked ranked false c).
  right. right. right. left. reflexivity.
Defined.

End PackProperties.
(** ** Similarity and scoring *)

Section ScoringTheorems.
Import Text Similarity Scoring.
Context `{Platform}.

Lemma jaccard_similarity_unit (a b : string) : unit_interval (jaccard_similarity a b).
Proof.
  unfold unit_interval, jaccard_similarity.
  destruct (bool_decide (token_set a = ∅) && bool_decide (token_set b = ∅)); [lra|].
  destruct (bool_decide (token_set a = ∅) || bool_decide (token_set b = ∅)); [lra|].
  destruct (size (token_set a ∪ token_set b) =? 0) eqn:Hu; [lra|].
  apply Nat.eqb_neq in Hu.
  assert (size (token_set a ∩ token_set b) <= size (token_set a ∪ token_set b)) as Hle.
  { transitivity (size (token_set a)); apply subseteq_size;
      [apply intersection_subseteq_l | apply union_subseteq_l]. }
  assert (0 < INR (size (token_set a ∪ token_set b)))%R as Hpos.
  { apply lt_0_INR. lia. }
  apply le_INR in Hle.
  pose proof (pos_INR (size (token_set a ∩ token_set b))) as Hi.
  split.
  - apply Rmult_le_pos; [exact Hi|]. left. apply Rinv_0_lt_compat. exact Hpos.
  - apply Rmult_le_reg_r with (r := INR (size (token_set a ∪ token_set b))); [exact Hpos|].
    unfold Rdiv. rewrite Rmult_assoc, Rinv_l, Rmult_1_r, Rmult_1_l; [exact Hle|lra].
Qed.





Lemma scope_score_unit (dt ds ct cs : string) : unit_interval (scope_score dt ds ct cs).
Proof.
  unfold unit_interval, scope_score.
  repeat match goal with |- context [if ?c then _ else _] => destruct c end; lra.
Qed.

Lemma kind_prior_unit (k : string) : unit_interval (kind_prior k).
Proof.
  unfold unit_interval, kind_prior.
  repeat match goal with |- context [if ?c then _ else _] => destruct c end; lra.
Qed.

Lemma status_weight_unit (st mode : string) : unit_interval (status_weight st mode).
Proof.
  unfold unit_interval, status_weight.
  repeat match goal with |- context [if ?c then _ else _] => destruct c end; lra.
Qed.

Lemma utility_of_bounds (k : string) (w l r : Z) :
  (0 <= w)%Z -> (0 <= l)%Z -> (0 <= r)%Z ->
  (-1 <= utility_of k w l r <= 2)%R.
Proof.
  intros Hw Hl Hr. unfold utility_of.
  destruct (k =s? "tactic"); [|lra].
  assert (1 <= Z.max 1 (w + l))%Z as Hden by lia.
  assert (- Z.max 1 (w + l) <= w - l <= Z.max 1 (w + l))%Z as [Hlo Hhi] by lia.
  apply IZR_le in Hden, Hlo, Hhi, Hr. rewrite opp_IZR in Hlo.
  set (d := IZR (Z.max 1 (w + l))) in *. set (n := IZR (w - l)) in *.
  assert (0 < / d)%R as Hinv by (apply Rinv_0_lt_compat; lra).
  assert (-1 <= n / d <= 1)%R as Hq.
  { unfold Rdiv. split.
    - apply Rmult_le_reg_r with (r := d); [lra|].
      rewrite Rmult_assoc, Rinv_l by lra. lra.
    - apply Rmult_le_reg_r with (r := d); [lra|].
      rewrite Rmult_assoc, Rinv_l by lra. lra. }
  assert (0 <= Rmin 1.0 (IZR r / 10.0) <= 1)%R as Hm.
  { unfold Rmin. destruct (Rle_dec 1.0 (IZR r / 10.0)); lra. }
  lra.
Qed.

Lemma recency_unit (u m : Z) :
  (0 <= u <= m)%Z -> (1 <= m)%Z -> unit_interval (IZR u / IZR m)%R.
Proof.
  intros [Hu Hum] Hm. unfold unit_interval.
  apply IZR_le in Hu, Hum, Hm.
  assert (0 < / IZR m)%R as Hinv by (apply Rinv_0_lt_compat; lra).
  unfold Rdiv. split.
  - apply Rmult_le_pos; lra.
  - apply Rmult_le_reg_r with (r := IZR m); [lra|].
    rewrite Rmult_assoc, Rinv_l by lra. lra.
Qed.

(** C5 as stated fails on the utility component: a tactic with one win, no
    loss and ten exposures scores 1/1 + min(1, 10/10) = 2. *)
Lemma utility_component_exceeds_one :
  ~ unit_interval (utility_of "tactic" 1 0 10).
Proof.
  unfold unit_interval, utility_of. cbn [String.eqb Ascii.eqb Bool.eqb].
  replace (Z.max 1 (1 + 0)) with 1%Z by reflexivity.
  replace (1 - 0)%Z with 1%Z by reflexivity.
  unfold Rmin. destruct (Rle_dec 1.0 (10 / 10.0)); lra.
Qed.

(** A tactic with a single loss and no exposure scores -1. *)
Lemma utility_component_below_zero :
  utility_of "tactic" 0 1 0 = (-1)%R.
Proof.
  unfold utility_of. cbn [String.eqb Ascii.eqb Bool.eqb].
  replace (Z.max 1 (0 + 1)) with 1%Z by reflexivity.
  replace (0 - 1)%Z with (-1)%Z by reflexivity.
  unfold Rmin. destruct (Rle_dec 1.0 (0 / 10.0)); lra.
Qed.

(** C5 (amended): for every scored row whose counts are non-negative and
    whose [updated_event_id] is at most the largest event id, the
    components lexical, scope, kind_prior, truth and recency lie in [0,1];
    the utility component lies in [-1,2] and is 0 for a card that is not a
    tactic.  Nothing is said of the semantic component: the code computes
    that cosine in binary64, where it can come out one unit in the last
    place above 1. *)
Theorem score_components_ranges
    (query desired_tier desired_scope_id mode : string) (max_event_id : Z)
    (r : card_row) (c : components) :
  (0 <= wins r)%Z -> (0 <= losses r)%Z -> (0 <= reuse r)%Z ->
  (0 <= updated_event_id r <= max_event_id)%Z -> (1 <= max_event_id)%Z ->
  score_components query desired_tier desired_scope_id mode max_event_id r = Some c ->
  unit_interval (lexical c) /\ unit_interval (scope c)
  /\ unit_interval (prior c) /\ unit_interval (truth c) /\ unit_interval (recency c)
  /\ (-1 <= utility c <= 2)%R
  /\ ((kind r =s? "tactic") = false -> utility c = 0%R).
Proof.
  intros Hw Hl Hr Hu Hm Hc. unfold score_components in Hc.
  destruct (pseudo_embedding query 64 (embedding_model r)) as [qvec|] eqn:Hq; [|discriminate].
  injection Hc as <-. cbn [lexical scope prior truth recency utility].
  repeat split.
  all: try apply jaccard_similarity_unit.
  all: try apply scope_score_unit.
  all: try apply kind_prior_unit.
  all: try apply status_weight_unit.
  all: try (apply recency_unit; assumption).
  all: try (apply utility_of_bounds; assumption).
  intros Hk. unfold utility_of. rewrite Hk. lra.
Qed.

End ScoringTheorems.

Lemma score_components_ranges_witness :
  exists c,
    Scoring.score_components (H := example_platform) "pin versions" "repo" "default" "auto_pack" 5
      (Scoring.example_row) = Some c
    /\ Scoring.unit_interval (Scoring.lexical c)
    /\ Scoring.unit_interval (Scoring.scope c) /\ Scoring.unit_interval (Scoring.prior c)
    /\ Scoring.unit_interval (Scoring.truth c) /\ Scoring.unit_interval (Scoring.recency c)
    /\ (-1 <= Scoring.utility c <= 2)%R
    /\ ((Scoring.kind Scoring.example_row =s? "tactic") = false -> Scoring.utility c = 0%R).
Proof.
  eexists. split; [reflexivity|].
  apply (score_components_ranges (H := example_platform)
           "pin versions" "repo" "default" "auto_pack" 5 Scoring.example_row);
    cbn; try lia; reflexivity.
Defined.
(** ** Jaccard similarity *)

Section JaccardProperties.
Import Text Similarity.

Lemma gset_inter_same (X : gset string) : X ∩ X = X.
Proof. apply leibniz_equiv. apply (idemp (∩)). Qed.

Lemma gset_union_same (X : gset string) : X ∪ X = X.
Proof. apply leibniz_equiv. apply (idemp (∪)). Qed.

Lemma gset_inter_swap (X Y : gset string) : Y ∩ X = X ∩ Y.
Proof. apply leibniz_equiv. apply (comm (∩)). Qed.

Lemma gset_union_swap (X Y : gset string) : Y ∪ X = X ∪ Y.
Proof. apply leibniz_equiv. apply (comm (∪)). Qed.

Lemma gset_inter_union_same (X Y : gset string) : X ∩ Y ≡ X ∪ Y -> X = Y.
Proof.
  intros Hs. apply leibniz_equiv. intros x. specialize (Hs x).
  rewrite elem_of_intersection, elem_of_union in Hs. tauto.
Qed.

Lemma gset_inter_in_union (X Y : gset string) : X ∩ Y ⊆ X ∪ Y.
Proof. intros x. rewrite elem_of_intersection, elem_of_union. tauto. Qed.

Lemma jaccard_same_sets (a b : string) :
  token_set a = token_set b -> jaccard_similarity a b = 1%R.
Proof.
  intros Heq. unfold jaccard_similarity. rewrite <- Heq.
  destruct (bool_decide (token_set a = ∅)) eqn:He; [reflexivity|]. cbn [andb orb].
  apply bool_decide_eq_false in He.
  rewrite gset_inter_same, gset_union_same.
  destruct (size (token_set a) =? 0) eqn:Hs.
  - apply Nat.eqb_eq in Hs. apply size_empty_inv in Hs. exfalso. apply He.
    apply leibniz_equiv. exact Hs.
  - apply Nat.eqb_neq in Hs. apply Rdiv_diag. apply not_0_INR. exact Hs.
Qed.

(** X23: the Jaccard similarity of two texts is symmetric, is 1 for a text
    and itself, and is 1 exactly when the two texts have the same set of
    tokens. *)
Theorem jaccard_similarity_one_iff_same_tokens (a b : string) :
  jaccard_similarity a b = jaccard_similarity b a
  /\ jaccard_similarity a a = 1%R
  /\ (jaccard_similarity a b = 1%R <-> token_set a = token_set b).
Proof.
  split; [|split; [apply jaccard_same_sets; reflexivity|split; [|apply jaccard_same_sets]]].
  - unfold jaccard_similarity.
    rewrite (andb_comm (bool_decide (token_set a = ∅))),
            (orb_comm (bool_decide (token_set a = ∅))).
    rewrite (gset_inter_swap (token_set a) (token_set b)),
            (gset_union_swap (token_set a) (token_set b)).
    reflexivity.
  - unfold jaccard_similarity.
    destruct (bool_decide (token_set a = ∅)) eqn:Ha, (bool_decide (token_set b = ∅)) eqn:Hb;
      cbn [andb orb]; try (intros Hone; exfalso; lra).
    + intros _. apply bool_decide_eq_true in Ha, Hb. congruence.
    + destruct (size (token_set a ∪ token_set b) =? 0) eqn:Hu; [intros Hone; exfalso; lra|].
      apply Nat.eqb_neq in Hu. intros Hone.
      assert (INR (size (token_set a ∩ token_set b))
              = INR (size (token_set a ∪ token_set b))) as Hsize.
      { apply (Rmult_eq_compat_r (INR (size (token_set a ∪ token_set b)))) in Hone.
        unfold Rdiv in Hone. rewrite Rmult_assoc, Rinv_l, Rmult_1_r, Rmult_1_l in Hone;
          [exact Hone|]. apply not_0_INR. exact Hu. }
      apply INR_eq in Hsize.
      assert (token_set a ∩ token_set b ≡ token_set a ∪ token_set b) as Hsets.
      { apply set_subseteq_size_equiv; [apply gset_inter_in_union|lia]. }
      apply gset_inter_union_same. exact Hsets.
Qed.

End JaccardProperties.

Section Embedding.
Import Text Similarity.
Context `{Platform}.




End Embedding.
(** ** The store monad and what the reducer leaves alone *)

Section EngineBasics.
Import Engine.
Context `{Platform}.

Lemma keeps_ret {A B} (f : store -> B) (a : A) : keeps f (ret a).
Proof. intros s a' s' Hm. injection Hm as _ <-. reflexivity. Qed.

Lemma keeps_raise {A B} (f : store -> B) (e : error) : keeps f (raise (A := A) e).
Proof. intros s a s' Hm. discriminate. Qed.

Lemma keeps_get_store {B} (f : store -> B) : keeps f get_store.
Proof. intros s a s' Hm. injection Hm as _ <-. reflexivity. Qed.

Lemma keeps_modify {B} (f : store -> B) (g : store -> store) :
  (forall s, f (g s) = f s) -> keeps f (modify g).
Proof. intros Hg s a s' Hm. injection Hm as _ <-. apply Hg. Qed.

Lemma keeps_bind {A C B} (f : store -> B) (m : M A) (k : A -> M C) :
  keeps f m -> (forall a, keeps f (k a)) -> keeps f (bind m k).
Proof.
  intros Hm Hk s c s' Hrun. unfold bind in Hrun.
  destruct (m s) as [[a s1]|e] eqn:Hms; [|discriminate].
  rewrite (Hk a s1 c s' Hrun). exact (Hm s a s1 Hms).
Qed.

Lemma keeps_require {B} (f : store -> B) (b : bool) (e : error) : keeps f (require b e).
Proof. unfold require. destruct b; [apply keeps_ret | apply keeps_raise]. Qed.

Lemma keeps_for_each {A B} (f : store -> B) (xs : list A) (body : A -> M unit) :
  (forall x, keeps f (body x)) -> keeps f (for_each xs body).
Proof.
  intros Hbody. induction xs as [|x xs IH]; cbn [for_each].
  - apply keeps_ret.
  - apply keeps_bind; [apply Hbody | intros _; exact IH].
Qed.

Lemma keeps_read_now_iso {B} (f : store -> B) :
  (forall n s, f (set_clock_reads n s) = f s) -> keeps f read_now_iso.
Proof. intros Hf s a s' Hm. injection Hm as _ <-. apply Hf. Qed.

Lemma keeps_read_current_timestamp {B} (f : store -> B) :
  (forall n s, f (set_clock_reads n s) = f s) -> keeps f read_current_timestamp.
Proof. intros Hf s a s' Hm. injection Hm as _ <-. apply Hf. Qed.

End EngineBasics.

Ltac keeps_step :=
  first
    [ apply keeps_ret | apply keeps_raise | apply keeps_get_store | apply keeps_require
    | apply keeps_read_now_iso; let n := fresh in let s := fresh in
        intros n s; destruct s; reflexivity
    | apply keeps_read_current_timestamp; let n := fresh in let s := fresh in
        intros n s; destruct s; reflexivity
    | apply keeps_modify; let s := fresh in intros s; destruct s; reflexivity
    | apply keeps_for_each; intros ?
    | apply keeps_bind; [|intros ?]
    | match goal with
      | |- Engine.keeps _ (match ?x with _ => _ end) => destruct x
      | |- Engine.keeps _ (if ?x then _ else _) => destruct x
      end ].

Ltac keeps_auto := repeat keeps_step.

Section ReducerFrames.
Import Engine.
Context `{Platform}.

Lemma refresh_ledger_keeps_canon ep : keeps canon (refresh_ledger ep).
Proof. unfold refresh_ledger. keeps_auto. Qed.

Lemma refresh_card_indices_keeps_canon cid eid : keeps canon (refresh_card_indices cid eid).
Proof. unfold refresh_card_indices. keeps_auto. Qed.

Lemma record_status_history_keeps_canon cid eid a b c d :
  keeps canon (record_status_history cid eid a b c d).
Proof. unfold record_status_history. keeps_auto. Qed.

Lemma update_card_status_keeps_canon cid st eid at_ :
  keeps canon (update_card_status cid st eid at_).
Proof. unfold update_card_status. keeps_auto. Qed.

Lemma touch_card_keeps_canon cid eid : keeps canon (touch_card cid eid).
Proof. unfold touch_card. keeps_auto. Qed.

Lemma link_evidence_keeps_canon cid evs : keeps canon (link_evidence cid evs).
Proof. unfold link_evidence. keeps_auto. Qed.

Lemma upsert_card_keeps_canon card eid : keeps canon (upsert_card card eid).
Proof. unfold upsert_card. keeps_auto. Qed.

Lemma apply_consolidation_event_keeps_canon eid ep ty p ts :
  keeps canon (apply_consolidation_event eid ep ty p ts).
Proof.
  unfold apply_consolidation_event.
  apply keeps_bind; [keeps_auto|intros _].
  repeat match goal with
         | |- Engine.keeps _ (if ?x then _ else _) => destruct x
         end;
    try (destruct p; try apply keeps_raise);
    repeat first
      [ apply upsert_card_keeps_canon | apply link_evidence_keeps_canon
      | apply touch_card_keeps_canon | apply update_card_status_keeps_canon
      | apply record_status_history_keeps_canon | keeps_step ].
Qed.

Lemma recompute_utility_projection_canon s :
  canon (recompute_utility_projection s) = canon s.
Proof. unfold recompute_utility_projection. destruct s; reflexivity. Qed.

Lemma event_timestamp_keeps_canon ts : keeps canon (event_timestamp ts).
Proof. unfold event_timestamp. keeps_auto. Qed.

Lemma handle_consolidation_keeps_canon eid ep ty p ts :
  keeps canon (handle_consolidation eid ep ty p ts).
Proof.
  unfold handle_consolidation.
  repeat first
    [ apply apply_consolidation_event_keeps_canon | apply refresh_ledger_keeps_canon
    | apply refresh_card_indices_keeps_canon | keeps_step ].
Qed.

Lemma handle_card_status_changed_keeps_canon eid p ts :
  keeps canon (handle_card_status_changed eid p ts).
Proof.
  unfold handle_card_status_changed. destruct p; try apply keeps_raise.
  repeat first
    [ apply refresh_card_indices_keeps_canon | apply update_card_status_keeps_canon
    | apply record_status_history_keeps_canon | keeps_step ].
Qed.

Lemma handle_card_deprecated_keeps_canon eid p ts :
  keeps canon (handle_card_deprecated eid p ts).
Proof.
  unfold handle_card_deprecated. destruct p; try apply keeps_raise.
  repeat first
    [ apply refresh_card_indices_keeps_canon | apply update_card_status_keeps_canon
    | apply record_status_history_keeps_canon | keeps_step ].
Qed.

Lemma handle_dispute_recorded_keeps_canon eid p ts :
  keeps canon (handle_dispute_recorded eid p ts).
Proof. unfold handle_dispute_recorded. destruct p; try apply keeps_raise. keeps_auto. Qed.

Lemma handle_exposure_recorded_keeps_canon eid ep p ts :
  keeps canon (handle_exposure_recorded eid ep p ts).
Proof.
  unfold handle_exposure_recorded. destruct p; try apply keeps_raise.
  repeat first
    [ apply keeps_modify; apply recompute_utility_projection_canon | keeps_step ].
Qed.

Lemma handle_outcome_recorded_keeps_canon eid ep p ts :
  keeps canon (handle_outcome_recorded eid ep p ts).
Proof.
  unfold handle_outcome_recorded. destruct p; try apply keeps_raise.
  repeat first
    [ apply keeps_modify; apply recompute_utility_projection_canon | keeps_step ].
Qed.

Lemma apply_event_keeps_canon eid ep ty p ts : keeps canon (apply_event eid ep ty p ts).
Proof.
  unfold apply_event.
  apply keeps_bind; [apply event_timestamp_keeps_canon|intros event_ts].
  repeat match goal with
         | |- Engine.keeps _ (if ?x then _ else _) => destruct x
         end;
    first
      [ apply handle_consolidation_keeps_canon | apply handle_card_status_changed_keeps_canon
      | apply handle_card_deprecated_keeps_canon | apply handle_dispute_recorded_keeps_canon
      | apply handle_exposure_recorded_keeps_canon | apply handle_outcome_recorded_keeps_canon
      | apply keeps_ret ].
Qed.

End ReducerFrames.
(** ** The append contract: idempotency keys and sequence numbers *)

Section EventLogTheorems.
Import Engine.
Context `{Platform}.

Lemma find_by_key_some events k row :
  find_by_key events k = Some row -> In row events /\ me_idempotency_key row = k.
Proof.
  unfold find_by_key, select_one. intros Hf. apply find_some in Hf as [Hin Hk].
  split; [exact Hin | apply String.eqb_eq; exact Hk].
Qed.

Lemma find_by_key_none events k :
  find_by_key events k = None <-> (forall e, In e events -> me_idempotency_key e <> k).
Proof.
  unfold find_by_key, select_one. split.
  - intros Hf e Hin Hk. pose proof (find_none _ _ Hf e Hin) as Hne. cbn in Hne.
    apply String.eqb_neq in Hne. exact (Hne Hk).
  - intros Hall. destruct (List.find _ events) as [row|] eqn:Hf; [|reflexivity].
    apply find_some in Hf as [Hin Hk]. apply String.eqb_eq in Hk.
    exfalso. exact (Hall row Hin Hk).
Qed.

Lemma find_by_key_present events k :
  (exists e, In e events /\ me_idempotency_key e = k) ->
  exists row, find_by_key events k = Some row.
Proof.
  intros (e & Hin & Hk). destruct (find_by_key events k) as [row|] eqn:Hf; [eauto|].
  exfalso. exact (proj1 (find_by_key_none events k) Hf e Hin Hk).
Qed.

(** On a key already in the log the call answers from the log and changes
    nothing. *)
Lemma append_event_existing s ep ty p k prod rv apply row :
  find_by_key (memory_events s) k = Some row ->
  append_event ep ty p k prod rv apply s = Ok (result_of row false, s).
Proof.
  intros Hf. unfold append_event, bind, get_store. rewrite Hf. reflexivity.
Qed.

(** On a fresh key of a known episode the row is written, then the reducer
    runs if asked. *)
Lemma append_event_fresh s ep ty p k prod rv apply :
  find_by_key (memory_events s) k = None ->
  episode_exists s ep = true ->
  let e := new_event s ep ty p k prod rv in
  append_event ep ty p k prod rv apply s
  = match (if apply
           then apply_event (me_event_id e) ep ty p (me_created_at e) (logged s e)
           else Ok (tt, logged s e)) with
    | Ok (_, s') => Ok (result_of e true, s')
    | Raise err => Raise err
    end.
Proof.
  intros Hf Hep e. unfold append_event, bind, get_store. rewrite Hf.
  unfold require. rewrite Hep. unfold ret, read_current_timestamp, modify.
  replace (set_memory_events _ (set_clock_reads (S (clock_reads s)) s)) with (logged s e)
    by (destruct s; reflexivity).
  destruct apply; [|reflexivity].
  cbn [me_event_id me_created_at e new_event].
  destruct (apply_event _ ep ty p _ (logged s e)) as [[[] s']|err]; reflexivity.
Qed.

Lemma append_event_unknown_episode s ep ty p k prod rv apply :
  find_by_key (memory_events s) k = None ->
  episode_exists s ep = false ->
  append_event ep ty p k prod rv apply s
  = Raise (IntegrityError "FOREIGN KEY constraint failed").
Proof.
  intros Hf Hep. unfold append_event, bind, get_store. rewrite Hf.
  unfold require. rewrite Hep. reflexivity.
Qed.

Lemma logged_events s e : memory_events (logged s e) = memory_events s ++ [e].
Proof. destruct s; reflexivity. Qed.

Lemma logged_episodes s e : episodes (logged s e) = episodes s.
Proof. destruct s; reflexivity. Qed.

Lemma canon_events s s' : canon s' = canon s -> memory_events s' = memory_events s.
Proof. unfold canon. intros Hc. injection Hc. auto. Qed.

Lemma canon_episodes s s' : canon s' = canon s -> episodes s' = episodes s.
Proof. unfold canon. intros Hc. injection Hc. auto. Qed.

(** What any returning call does to the log: nothing, or one row more. *)
Lemma append_event_log s ep ty p k prod rv apply r s' :
  append_event ep ty p k prod rv apply s = Ok (r, s') ->
  (exists row, find_by_key (memory_events s) k = Some row
               /\ r = result_of row false /\ s' = s)
  \/ (find_by_key (memory_events s) k = None /\ episode_exists s ep = true
      /\ r = result_of (new_event s ep ty p k prod rv) true
      /\ memory_events s' = memory_events s ++ [new_event s ep ty p k prod rv]
      /\ episodes s' = episodes s).
Proof.
  intros Hrun.
  destruct (find_by_key (memory_events s) k) as [row|] eqn:Hf.
  - left. exists row. rewrite (append_event_existing _ _ _ _ _ _ _ _ _ Hf) in Hrun.
    injection Hrun as <- <-. auto.
  - right. destruct (episode_exists s ep) eqn:Hep.
    + rewrite (append_event_fresh _ _ _ _ _ _ _ _ Hf Hep) in Hrun. cbn zeta in Hrun.
      set (e := new_event s ep ty p k prod rv) in *.
      destruct apply.
      * destruct (apply_event _ ep ty p _ (logged s e)) as [[[] s2]|err] eqn:Happ;
          [|discriminate].
        injection Hrun as <- <-.
        pose proof (apply_event_keeps_canon _ _ _ _ _ _ _ _ Happ) as Hc.
        repeat split; auto.
        -- rewrite (canon_events _ _ Hc). apply logged_events.
        -- rewrite (canon_episodes _ _ Hc). apply logged_episodes.
      * injection Hrun as <- <-. repeat split; auto.
        -- apply logged_events.
        -- apply logged_episodes.
    + rewrite (append_event_unknown_episode _ _ _ _ _ _ _ _ Hf Hep) in Hrun. discriminate.
Qed.

(** C1 (as amended): a call whose idempotency key is already in the log
    returns the identifiers of the logged event with [inserted = false] and
    leaves the whole store as it was, so the number of events is unchanged
    and the reducer is not applied again; a call with a fresh key on a
    stored episode writes exactly one new event, with [inserted = true],
    as soon as the reducer (when asked for) accepts the event; and every
    call with a fresh key that returns has written exactly that event. *)
Theorem append_event_idempotent
    (s : store) (ep ty : string) (p : payload) (k prod rv : string) (apply : bool) :
  ((exists e, In e (memory_events s) /\ me_idempotency_key e = k) ->
   exists row, In row (memory_events s) /\ me_idempotency_key row = k
     /\ append_event ep ty p k prod rv apply s
        = Ok ({| r_event_id := me_event_id row; r_episode_id := me_episode_id row;
                 r_seq_no := me_seq_no row; r_inserted := false |}, s))
  /\ ((forall e, In e (memory_events s) -> me_idempotency_key e <> k) ->
      episode_exists s ep = true ->
      let e := new_event s ep ty p k prod rv in
      (apply = false ->
       append_event ep ty p k prod rv apply s = Ok (result_of e true, logged s e))
      /\ (forall s', apply = true ->
            apply_event (me_event_id e) ep ty p (me_created_at e) (logged s e) = Ok (tt, s') ->
            append_event ep ty p k prod rv apply s = Ok (result_of e true, s'))
      /\ (forall r s', append_event ep ty p k prod rv apply s = Ok (r, s') ->
            r_inserted r = true /\ memory_events s' = memory_events s ++ [e]
            /\ me_idempotency_key e = k
            /\ r_event_id r = me_event_id e /\ r_seq_no r = me_seq_no e)).
Proof.
  split.
  - intros Hex. destruct (find_by_key_present _ _ Hex) as [row Hf].
    destruct (find_by_key_some _ _ _ Hf) as [Hin Hk].
    exists row. repeat split; auto.
    apply append_event_existing. exact Hf.
  - intros Hfresh Hep e. apply find_by_key_none in Hfresh.
    pose proof (append_event_fresh s ep ty p k prod rv apply Hfresh Hep) as Hrun.
    cbn zeta in Hrun. fold e in Hrun.
    split; [|split].
    + intros ->. exact Hrun.
    + intros s' -> Happ. rewrite Hrun, Happ. reflexivity.
    + intros r s' Hret.
      destruct (append_event_log _ _ _ _ _ _ _ _ _ _ Hret)
        as [(row & Hf & _)|(_ & _ & -> & Hlog & _)]; [congruence|].
      repeat split; [exact Hlog | reflexivity..].
Qed.

End EventLogTheorems.
Lemma append_event_idempotent_witness :
  let e := Engine.new_event (H := example_platform) Engine.one_episode_store "ep1"
             "episode_recorded" (Engine.PayEpisodeRecorded "ep1" "h") "k1" "cli" "v1" in
  let s1 := Engine.logged Engine.one_episode_store e in
  (exists row, In row (Engine.memory_events s1) /\ Engine.me_idempotency_key row = "k1"
     /\ Engine.append_event (H := example_platform) "ep1" "episode_recorded"
          (Engine.PayEpisodeRecorded "ep1" "h") "k1" "cli" "v1" true s1
        = Engine.Ok ({| Engine.r_event_id := Engine.me_event_id row;
                        Engine.r_episode_id := Engine.me_episode_id row;
                        Engine.r_seq_no := Engine.me_seq_no row;
                        Engine.r_inserted := false |}, s1))
  /\ Engine.append_event (H := example_platform) "ep1" "episode_recorded"
       (Engine.PayEpisodeRecorded "ep1" "h") "k1" "cli" "v1" true Engine.one_episode_store
     = Engine.Ok (Engine.result_of e true, s1).
Proof.
  intros e s1. split.
  - apply (proj1 (append_event_idempotent (H := example_platform) s1 "ep1" "episode_recorded"
                    (Engine.PayEpisodeRecorded "ep1" "h") "k1" "cli" "v1" true)).
    exists e. split; [left; reflexivity | reflexivity].
  - destruct (proj2 (append_event_idempotent (H := example_platform) Engine.one_episode_store
                       "ep1" "episode_recorded" (Engine.PayEpisodeRecorded "ep1" "h")
                       "k1" "cli" "v1" true)) as (_ & Hrun & _).
    + intros row [].
    + reflexivity.
    + apply Hrun; reflexivity.
Defined.

(** C1 as stated fails on a fresh key: the episode "ep9" is not stored, the
    key "k9" is in no event, and the call raises the foreign key error of
    [memory_events] instead of inserting an event. *)
Lemma append_event_fresh_key_counterexample :
  (forall e, In e (Engine.memory_events Engine.one_episode_store) ->
             Engine.me_idempotency_key e <> "k9")
  /\ Engine.append_event (H := example_platform) "ep9" "episode_recorded"
       (Engine.PayEpisodeRecorded "ep9" "h") "k9" "cli" "v1" true Engine.one_episode_store
     = Engine.Raise (Engine.IntegrityError "FOREIGN KEY constraint failed").
Proof. split; [intros e []|reflexivity]. Qed.

Section SequenceTheorems.
Import Engine.
Context `{Platform}.

Lemma max_Z_snoc (l : list Z) (x : Z) :
  max_Z (l ++ [x]) = Some (match max_Z l with None => x | Some y => Z.max y x end).
Proof. unfold max_Z. rewrite fold_left_app. cbn. destruct (fold_left _ l None); reflexivity. Qed.

Lemma max_Z_one_to_n (n : nat) :
  default 0%Z (max_Z (map Z.of_nat (seq 1 n))) = Z.of_nat n.
Proof.
  induction n as [|n IH]; [reflexivity|].
  rewrite seq_S, map_app. cbn [map]. rewrite max_Z_snoc.
  destruct (max_Z (map Z.of_nat (seq 1 n))) as [y|];
    cbv [default from_option Datatypes.id] in *; lia.
Qed.

Lemma seqs_of_snoc events e ep :
  seqs_of (events ++ [e]) ep
  = if me_episode_id e =s? ep then seqs_of events ep ++ [me_seq_no e] else seqs_of events ep.
Proof.
  unfold seqs_of. rewrite List.filter_app. cbn [List.filter].
  destruct (me_episode_id e =s? ep).
  - rewrite map_app. reflexivity.
  - rewrite app_nil_r. reflexivity.
Qed.

(** Under the invariant the next number is the count of the episode's
    events plus one. *)
Lemma next_seq_counts s ep :
  seq_invariant s ->
  next_seq (memory_events s) ep = (Z.of_nat (length (seqs_of (memory_events s) ep)) + 1)%Z.
Proof.
  intros Hinv. unfold next_seq. fold (seqs_of (memory_events s) ep).
  rewrite (Hinv ep) at 1. rewrite max_Z_one_to_n. reflexivity.
Qed.

Lemma seq_invariant_empty s : memory_events s = [] -> seq_invariant s.
Proof. intros Hs ep. rewrite Hs. reflexivity. Qed.

Lemma seq_invariant_append s s' ep ty p k prod rv :
  seq_invariant s ->
  memory_events s' = memory_events s ++ [new_event s ep ty p k prod rv] ->
  seq_invariant s'.
Proof.
  intros Hinv Hlog ep'. rewrite Hlog, seqs_of_snoc.
  cbn [me_episode_id me_seq_no new_event].
  destruct (ep =s? ep') eqn:Heq; [|apply Hinv].
  apply String.eqb_eq in Heq. subst ep'.
  rewrite next_seq_counts by exact Hinv.
  rewrite length_app. cbn [length]. rewrite Nat.add_1_r, seq_S, map_app.
  rewrite <- (Hinv ep). cbn [map]. f_equal. f_equal. lia.
Qed.

Lemma try_append_invariant s c : seq_invariant s -> seq_invariant (try_append s c).
Proof.
  intros Hinv. unfold try_append, do_append.
  destruct (append_event _ _ _ _ _ _ _ s) as [[r s']|err] eqn:Hrun; [|exact Hinv].
  destruct (append_event_log _ _ _ _ _ _ _ _ _ _ Hrun)
    as [(row & _ & _ & ->)|(_ & _ & _ & Hlog & _)]; [exact Hinv|].
  exact (seq_invariant_append _ _ _ _ _ _ _ _ Hinv Hlog).
Qed.

Lemma run_appends_invariant calls : forall s,
  seq_invariant s -> seq_invariant (run_appends calls s).
Proof.
  induction calls as [|c calls IH]; intros s Hinv; [exact Hinv|].
  cbn [run_appends fold_left]. apply IH. apply try_append_invariant. exact Hinv.
Qed.

Lemma sort_by_one_to_n (n : nat) : forall a,
  sort_by Z.leb (map Z.of_nat (seq a n)) = map Z.of_nat (seq a n).
Proof.
  induction n as [|n IH]; intros a; [reflexivity|].
  cbn [seq map sort_by fold_right]. fold (sort_by Z.leb (map Z.of_nat (seq (S a) n))).
  rewrite IH. destruct n as [|n]; [reflexivity|].
  cbn [seq map insert_by].
  replace (Z.of_nat a <=? Z.of_nat (S a))%Z with true; [reflexivity|].
  symmetry. apply Z.leb_le. lia.
Qed.

Lemma insert_by_length {A} (le : A -> A -> bool) (x : A) (m : list A) :
  length (insert_by le x m) = S (length m).
Proof.
  induction m as [|y m IHm]; [reflexivity|].
  cbn [insert_by]. destruct (le x y); cbn [length]; [reflexivity | rewrite IHm; reflexivity].
Qed.

Lemma sort_by_length {A} (le : A -> A -> bool) (l : list A) :
  length (sort_by le l) = length l.
Proof.
  induction l as [|x l IH]; [reflexivity|].
  unfold sort_by in *. cbn [fold_right length]. rewrite insert_by_length, IH. reflexivity.
Qed.

Lemma sorted_one_to_n (seqs : list Z) :
  seqs = map Z.of_nat (seq 1 (length seqs)) ->
  sort_by Z.leb seqs = map Z.of_nat (seq 1 (length (sort_by Z.leb seqs))).
Proof.
  intros Hs. rewrite sort_by_length. remember (length seqs) as n eqn:Hn. clear Hn.
  subst seqs. apply sort_by_one_to_n.
Qed.

Lemma seq_integrity_issues_none s : seq_invariant s -> seq_integrity_issues s = [].
Proof.
  intros Hinv. unfold seq_integrity_issues.
  induction (episodes s) as [|ep eps IH]; [reflexivity|].
  cbn [flat_map]. rewrite IH, app_nil_r.
  rewrite bool_decide_eq_true_2; [reflexivity|].
  apply sorted_one_to_n. apply (Hinv (ep_episode_id ep)).
Qed.

(** C2: starting from a log in which every episode's sequence numbers are
    1..N (the empty log is one), after any sequence of append calls every
    episode's sequence numbers are again exactly 1..N in log order, the
    integrity check reports nothing, and the next event inserted for an
    episode receives the episode's largest number plus one, 1 when it has
    none. *)
Theorem seq_numbers_gap_free (s : store) (calls : list append_call) :
  seq_invariant s ->
  let s' := run_appends calls s in
  seq_invariant s'
  /\ seq_integrity_issues s' = []
  /\ (forall c r s2, do_append c s' = Ok (r, s2) -> r_inserted r = true ->
        r_seq_no r
        = (default 0 (max_Z (seqs_of (memory_events s') (call_episode_id c))) + 1)%Z
        /\ r_seq_no r
           = (Z.of_nat (length (seqs_of (memory_events s') (call_episode_id c))) + 1)%Z
        /\ seqs_of (memory_events s2) (call_episode_id c)
           = seqs_of (memory_events s') (call_episode_id c) ++ [r_seq_no r]).
Proof.
  intros Hinv s'.
  assert (seq_invariant s') as Hinv' by (apply run_appends_invariant; exact Hinv).
  split; [exact Hinv'|]. split; [apply seq_integrity_issues_none; exact Hinv'|].
  intros c r s2 Hrun Hins. unfold do_append in Hrun.
  destruct (append_event_log _ _ _ _ _ _ _ _ _ _ Hrun)
    as [(row & _ & -> & _)|(_ & _ & -> & Hlog & _)]; [discriminate Hins|].
  cbn [r_seq_no result_of me_seq_no new_event].
  split; [reflexivity|]. split; [apply next_seq_counts; exact Hinv'|].
  rewrite Hlog, seqs_of_snoc. cbn [me_episode_id me_seq_no new_event].
  rewrite String.eqb_refl. reflexivity.
Qed.

End SequenceTheorems.

Example run_appends_example :
  Engine.seqs_of
    (Engine.memory_events
       (Engine.run_appends (H := example_platform) Engine.example_calls
                           Engine.one_episode_store)) "ep1"
  = [1; 2]%Z.
Proof. vm_compute. reflexivity. Qed.

Lemma seq_numbers_gap_free_witness :
  Engine.seq_invariant Engine.one_episode_store
  /\ (let s' := Engine.run_appends (H := example_platform) Engine.example_calls
                  Engine.one_episode_store in
      Engine.seq_invariant s'
      /\ Engine.seq_integrity_issues s' = []
      /\ (forall c r s2, Engine.do_append (H := example_platform) c s' = Engine.Ok (r, s2) ->
            Engine.r_inserted r = true ->
            Engine.r_seq_no r
            = (default 0 (Engine.max_Z (Engine.seqs_of (Engine.memory_events s')
                                          (Engine.call_episode_id c))) + 1)%Z
            /\ Engine.r_seq_no r
               = (Z.of_nat (length (Engine.seqs_of (Engine.memory_events s')
                                      (Engine.call_episode_id c))) + 1)%Z
            /\ Engine.seqs_of (Engine.memory_events s2) (Engine.call_episode_id c)
               = Engine.seqs_of (Engine.memory_events s') (Engine.call_episode_id c)
                 ++ [Engine.r_seq_no r])).
Proof.
  split; [intros ep; reflexivity|].
  apply (seq_numbers_gap_free (H := example_platform) Engine.one_episode_store
           Engine.example_calls).
  intros ep. reflexivity.
Defined.
(** ** Disputes *)

Section DisputeTheorems.
Import Engine.
Context `{Platform}.

Lemma pseudo_embedding_64 text salt :
  exists vec, Similarity.pseudo_embedding text 64 salt = Some vec.
Proof. unfold Similarity.pseudo_embedding. destruct (Text.tokenize text); eexists; reflexivity. Qed.

Lemma bind_ok {A B} (m : M A) (k : A -> M B) s b s2 :
  bind m k s = Ok (b, s2) -> exists a s1, m s = Ok (a, s1) /\ k a s1 = Ok (b, s2).
Proof.
  unfold bind. destruct (m s) as [[a s1]|e]; [|discriminate]. intros Hk. eauto.
Qed.

Lemma append_event_inv s ep ty p k prod rv apply r s' :
  append_event ep ty p k prod rv apply s = Ok (r, s') ->
  (exists row, find_by_key (memory_events s) k = Some row
               /\ r = result_of row false /\ s' = s)
  \/ (find_by_key (memory_events s) k = None /\ episode_exists s ep = true
      /\ r = result_of (new_event s ep ty p k prod rv) true
      /\ (if apply
          then apply_event (me_event_id (new_event s ep ty p k prod rv)) ep ty p
                 (me_created_at (new_event s ep ty p k prod rv))
                 (logged s (new_event s ep ty p k prod rv)) = Ok (tt, s')
          else s' = logged s (new_event s ep ty p k prod rv))).
Proof.
  intros Hrun.
  destruct (find_by_key (memory_events s) k) as [row|] eqn:Hf.
  - left. exists row. rewrite (append_event_existing _ _ _ _ _ _ _ _ _ Hf) in Hrun.
    injection Hrun as <- <-. auto.
  - right. destruct (episode_exists s ep) eqn:Hep.
    + rewrite (append_event_fresh _ _ _ _ _ _ _ _ Hf Hep) in Hrun. cbn zeta in Hrun.
      destruct apply.
      * destruct (apply_event _ ep ty p _ _) as [[[] s2]|err] eqn:Happ; [|discriminate].
        injection Hrun as <- <-. auto.
      * injection Hrun as <- <-. auto.
    + rewrite (append_event_unknown_episode _ _ _ _ _ _ _ _ Hf Hep) in Hrun. discriminate.
Qed.

Lemma event_timestamp_keeps {B} (f : store -> B) ts :
  (forall n s, f (set_clock_reads n s) = f s) -> keeps f (event_timestamp ts).
Proof.
  intros Hf. unfold event_timestamp. destruct (truthy ts); [apply keeps_ret|].
  apply keeps_read_now_iso. exact Hf.
Qed.

Lemma event_timestamp_ok ts s : exists ts' s0, event_timestamp ts s = Ok (ts', s0).
Proof.
  unfold event_timestamp. destruct (truthy ts); eexists; eexists; reflexivity.
Qed.

Lemma handle_dispute_recorded_keeps_cards eid p ts :
  keeps cards (handle_dispute_recorded eid p ts).
Proof. unfold handle_dispute_recorded. destruct p; try apply keeps_raise. keeps_auto. Qed.

Lemma apply_dispute_keeps_cards eid ep p ts :
  keeps cards (apply_event eid ep "dispute_recorded" p ts).
Proof.
  change (apply_event eid ep "dispute_recorded" p ts)
    with (bind (event_timestamp ts) (fun event_ts => handle_dispute_recorded eid p event_ts)).
  apply keeps_bind; [|intros ?; apply handle_dispute_recorded_keeps_cards].
  apply event_timestamp_keeps. intros n s. destruct s; reflexivity.
Qed.


Lemma find_update_where (rows : list card_row) cid (f : card_row -> card_row) :
  (forall r, c_card_id (f r) = c_card_id r) ->
  List.find (fun r => c_card_id r =s? cid)
            (update_where (fun r => c_card_id r =s? cid) f rows)
  = option_map f (List.find (fun r => c_card_id r =s? cid) rows).
Proof.
  intros Hf. unfold update_where. induction rows as [|r rows IH]; [reflexivity|].
  cbn [map List.find]. destruct (c_card_id r =s? cid) eqn:Hr.
  - rewrite Hf, Hr. reflexivity.
  - rewrite Hr. exact IH.
Qed.

Lemma find_card_exists s cid card : find_card s cid = Some card -> card_exists s cid = true.
Proof.
  unfold find_card, select_one, card_exists. intros Hf.
  apply find_some in Hf as [Hin Hid]. apply existsb_exists. eauto.
Qed.

Lemma update_card_status_run cid to_status eid s :
  is_in to_status STATUSES = true ->
  update_card_status cid to_status eid None s
  = Ok (tt, set_cards (update_where (fun r => c_card_id r =s? cid)
                         (with_status to_status eid) (cards s)) s).
Proof.
  intros Hst. unfold update_card_status, bind, get_store, require.
  rewrite Hst, orb_true_r. reflexivity.
Qed.

Lemma record_status_history_run cid eid a b c d s :
  card_exists s cid = true ->
  exists s', record_status_history cid eid a b c d s = Ok (tt, s')
             /\ cards s' = cards s /\ disputes s' = disputes s.
Proof.
  intros Hc. unfold record_status_history, bind, get_store, require. rewrite Hc.
  eexists. split; [reflexivity|]. destruct s; split; reflexivity.
Qed.

Lemma refresh_card_indices_run cid eid s :
  exists s', refresh_card_indices cid eid s = Ok (tt, s')
             /\ cards s' = cards s /\ disputes s' = disputes s.
Proof.
  unfold refresh_card_indices, bind, get_store.
  destruct (find_card s cid) as [row|]; [|eexists; split; [reflexivity|split; reflexivity]].
  destruct (pseudo_embedding_64 (c_statement row) "pseudo-v1") as [vec ->].
  eexists. split; [reflexivity|]. destruct s; split; reflexivity.
Qed.

(** The reducer on the status change that [record_dispute] emits. *)
Lemma apply_recheck_run eid ep cid reason mass thr ts s card :
  find_card s cid = Some card ->
  exists s', apply_event eid ep "card_status_changed"
               (PayCardStatusChanged cid "active" "needs_recheck" reason mass thr) ts s
             = Ok (tt, s')
             /\ find_card s' cid = Some (with_status "needs_recheck" eid card)
             /\ disputes s' = disputes s.
Proof.
  intros Hcard.
  change (apply_event eid ep "card_status_changed"
            (PayCardStatusChanged cid "active" "needs_recheck" reason mass thr) ts)
    with (bind (event_timestamp ts) (fun event_ts =>
            handle_card_status_changed eid
              (PayCardStatusChanged cid "active" "needs_recheck" reason mass thr) event_ts)).
  destruct (event_timestamp_ok ts s) as (ts' & s0 & Hts).
  assert (cards s0 = cards s) as Hc0.
  { apply (event_timestamp_keeps cards ts (fun n s => ltac:(destruct s; reflexivity)) _ _ _ Hts). }
  assert (disputes s0 = disputes s) as Hd0.
  { apply (event_timestamp_keeps disputes ts (fun n s => ltac:(destruct s; reflexivity)) _ _ _ Hts). }
  unfold bind at 1. rewrite Hts. unfold handle_card_status_changed.
  unfold bind at 1. rewrite update_card_status_run by reflexivity.
  set (s1 := set_cards _ s0).
  assert (find_card s1 cid = Some (with_status "needs_recheck" eid card)) as Hf1.
  { unfold find_card, select_one, s1.
    replace (cards (set_cards _ s0)) with
      (update_where (fun r => c_card_id r =s? cid) (with_status "needs_recheck" eid) (cards s0))
      by (destruct s0; reflexivity).
    rewrite find_update_where by reflexivity.
    rewrite Hc0. unfold find_card, select_one in Hcard. rewrite Hcard. reflexivity. }
  assert (disputes s1 = disputes s) as Hd1 by (unfold s1; destruct s0; exact Hd0).
  destruct (record_status_history_run cid eid "active" "needs_recheck" reason ts' s1
              (find_card_exists _ _ _ Hf1)) as (s2 & Hrun2 & Hc2 & Hd2).
  unfold bind at 1. rewrite Hrun2.
  destruct (refresh_card_indices_run cid eid s2) as (s3 & Hrun3 & Hc3 & Hd3).
  exists s3. split; [exact Hrun3|]. split.
  - unfold find_card in *. rewrite Hc3, Hc2. exact Hf1.
  - congruence.
Qed.


Lemma find_by_key_snoc events e k :
  find_by_key (events ++ [e]) k
  = match find_by_key events k with
    | Some row => Some row
    | None => if me_idempotency_key e =s? k then Some e else None
    end.
Proof.
  unfold find_by_key, select_one. induction events as [|x events IH]; [reflexivity|].
  cbn [app List.find]. destruct (me_idempotency_key x =s? k); [reflexivity | exact IH].
Qed.

Lemma recheck_events_snoc s s' cid e :
  memory_events s' = memory_events s ++ [e] ->
  recheck_events s' cid
  = recheck_events s cid ++ (if is_recheck_event cid e then [e] else []).
Proof.
  intros Hlog. unfold recheck_events. rewrite Hlog, List.filter_app. reflexivity.
Qed.

Lemma logged_cards s e : cards (logged s e) = cards s.
Proof. destruct s; reflexivity. Qed.
Lemma logged_disputes s e : disputes (logged s e) = disputes s.
Proof. destruct s; reflexivity. Qed.
Lemma logged_evidence s e : evidence_refs (logged s e) = evidence_refs s.
Proof. destruct s; reflexivity. Qed.

Lemma canon_evidence s s' : canon s' = canon s -> evidence_refs s' = evidence_refs s.
Proof. unfold canon. intros Hc. injection Hc. auto. Qed.

Lemma dispute_weight_tabled kind : tabled_weight kind (dispute_weight kind).
Proof.
  unfold tabled_weight, dispute_weight.
  split; [intros ->; reflexivity|]. split; [intros ->; reflexivity|].
  split; [intros ->; reflexivity|]. intros Hnone.
  destruct (kind =s? "tool_output") eqn:E1.
  { apply String.eqb_eq in E1. exfalso. apply Hnone. left. congruence. }
  destruct (kind =s? "doc_span") eqn:E2.
  { apply String.eqb_eq in E2. exfalso. apply Hnone. right. left. congruence. }
  destruct (kind =s? "user_span") eqn:E3.
  { apply String.eqb_eq in E3. exfalso. apply Hnone. right. right. left. congruence. }
  reflexivity.
Qed.

Lemma dispute_threshold_tabled tier : tabled_threshold tier (dispute_threshold tier).
Proof.
  unfold tabled_threshold, dispute_threshold.
  split; [intros ->; reflexivity|]. split; [intros ->; reflexivity|].
  split; [intros ->; reflexivity|]. intros Hnone.
  destruct (tier =s? "repo") eqn:E1.
  { apply String.eqb_eq in E1. exfalso. apply Hnone. left. congruence. }
  destruct (tier =s? "domain") eqn:E2.
  { apply String.eqb_eq in E2. exfalso. apply Hnone. right. left. congruence. }
  destruct (tier =s? "global"); reflexivity.
Qed.

(** The first append of [record_dispute]: it returns, and touches neither
    the cards nor the recheck events nor the key of the status change; a
    dispute that is not yet logged puts its row at the end of the table. *)
Lemma append_dispute_run s ep cid ev w prod tier :
  episode_exists s ep = true -> card_exists s cid = true -> evidence_exists s ev = true ->
  exists r s1,
    append_event ep "dispute_recorded"
      (PayDisputeRecorded (deterministic_id "disp" [cid; ev]) cid ev w)
      (dispute_key cid ev) prod RULE_VERSION true s = Ok (r, s1)
    /\ cards s1 = cards s /\ evidence_refs s1 = evidence_refs s
    /\ episodes s1 = episodes s
    /\ recheck_events s1 cid = recheck_events s cid
    /\ find_by_key (memory_events s1) (status_key cid tier)
       = find_by_key (memory_events s) (status_key cid tier)
    /\ find_by_key (memory_events s1) (dispute_key cid ev) <> None
    /\ match find_by_key (memory_events s) (dispute_key cid ev) with
       | Some _ => disputes s1 = disputes s
       | None =>
           exists row,
             disputes s1
             = List.filter (fun d => negb (same_dispute row d)) (disputes s) ++ [row]
             /\ d_dispute_id row = deterministic_id "disp" [cid; ev]
             /\ d_card_id row = cid /\ d_evidence_ref_id row = ev /\ d_weight row = w
       end.
Proof.
  intros Hep Hcard Hev.
  destruct (find_by_key (memory_events s) (dispute_key cid ev)) as [row|] eqn:Hf.
  - eexists; eexists. split; [apply append_event_existing; exact Hf|].
    repeat split. rewrite Hf. discriminate.
  - rewrite (append_event_fresh _ _ _ _ _ _ _ _ Hf Hep). cbn zeta.
    set (e := new_event s ep "dispute_recorded" _ _ prod RULE_VERSION).
    change (apply_event (me_event_id e) ep "dispute_recorded"
              (PayDisputeRecorded (deterministic_id "disp" [cid; ev]) cid ev w)
              (me_created_at e))
      with (bind (event_timestamp (me_created_at e)) (fun event_ts =>
              handle_dispute_recorded (me_event_id e)
                (PayDisputeRecorded (deterministic_id "disp" [cid; ev]) cid ev w) event_ts)).
    destruct (event_timestamp_ok (me_created_at e) (logged s e)) as (ts' & s0 & Hts).
    assert (cards s0 = cards s) as Hc0.
    { rewrite (event_timestamp_keeps cards _ (fun n s => ltac:(destruct s; reflexivity)) _ _ _ Hts).
      apply logged_cards. }
    assert (disputes s0 = disputes s) as Hd0.
    { rewrite (event_timestamp_keeps disputes _ (fun n s => ltac:(destruct s; reflexivity))
                 _ _ _ Hts).
      apply logged_disputes. }
    assert (canon s0 = canon (logged s e)) as Hk0
      by exact (event_timestamp_keeps_canon _ _ _ _ Hts).
    unfold bind at 1. rewrite Hts.
    unfold handle_dispute_recorded, bind, get_store, require.
    assert (card_exists s0 cid = true) as -> by (unfold card_exists in *; rewrite Hc0; exact Hcard).
    assert (evidence_exists s0 ev = true) as ->.
    { unfold evidence_exists in *. rewrite (canon_evidence _ _ Hk0), logged_evidence. exact Hev. }
    cbn [andb modify].
    eexists; eexists. split; [reflexivity|].
    set (row := {| d_dispute_id := deterministic_id "disp" [cid; ev]; d_card_id := cid;
                   d_evidence_ref_id := ev; d_weight := w; d_event_id := me_event_id e;
                   d_created_at := ts' |}).
    assert (memory_events (set_disputes (insert_or_replace same_dispute row (disputes s0)) s0)
            = memory_events s ++ [e]) as Hlog.
    { transitivity (memory_events s0); [destruct s0; reflexivity|].
      rewrite (canon_events _ _ Hk0). apply logged_events. }
    split; [transitivity (cards s0); [destruct s0; reflexivity | exact Hc0]|].
    split.
    { transitivity (evidence_refs s0); [destruct s0; reflexivity|].
      rewrite (canon_evidence _ _ Hk0). apply logged_evidence. }
    split.
    { transitivity (episodes s0); [destruct s0; reflexivity|].
      rewrite (canon_episodes _ _ Hk0). apply logged_episodes. }
    split; [rewrite (recheck_events_snoc _ _ _ _ Hlog); cbn; apply app_nil_r|].
    split.
    { rewrite Hlog, find_by_key_snoc.
      destruct (find_by_key (memory_events s) (status_key cid tier)); reflexivity. }
    split.
    { rewrite Hlog, find_by_key_snoc, Hf.
      change (me_idempotency_key e) with (dispute_key cid ev).
      rewrite String.eqb_refl. discriminate. }
    exists row. split; [|repeat split].
    transitivity (insert_or_replace same_dispute row (disputes s0));
      [destruct s0; reflexivity|].
    unfold insert_or_replace. rewrite Hd0. reflexivity.
Qed.

Lemma evidence_exists_select s ev :
  evidence_exists s ev = true ->
  exists ref, select_one (fun r => ev_evidence_ref_id r =s? ev) (evidence_refs s) = Some ref.
Proof.
  unfold evidence_exists, select_one. intros Hex.
  destruct (List.find _ (evidence_refs s)) as [ref|] eqn:Hf; [eauto|].
  apply existsb_exists in Hex as (r & Hin & Hr).
  pose proof (find_none _ _ Hf r Hin) as Hn. cbn in Hn. congruence.
Qed.

(** One call on a stored card: the answer, and what becomes of the card,
    of the recheck events and of the key of the status change. *)
Lemma record_dispute_step s ep cid ev prod card :
  episode_exists s ep = true -> evidence_exists s ev = true ->
  find_card s cid = Some card ->
  exists r s',
    record_dispute ep cid ev prod s = Ok (r, s')
    /\ answered cid s ev r s'
    /\ dr_status_changed r = reached r && (c_status card =s? "active")
    /\ episode_exists s' ep = true /\ evidence_refs s' = evidence_refs s
    /\ (dr_status_changed r = true ->
        find_by_key (memory_events s) (status_key cid (c_scope_tier card)) = None ->
        exists e mass thr,
          recheck_events s' cid = recheck_events s cid ++ [e]
          /\ dr_dispute_mass r = Some mass /\ dr_threshold r = Some thr
          /\ me_payload e = PayCardStatusChanged cid "active" "needs_recheck"
                              "dispute_threshold_exceeded" mass thr
          /\ me_idempotency_key e = status_key cid (c_scope_tier card)
          /\ find_card s' cid = Some (with_status "needs_recheck" (me_event_id e) card))
    /\ (dr_status_changed r = false
        \/ find_by_key (memory_events s) (status_key cid (c_scope_tier card)) <> None ->
        find_card s' cid = Some card
        /\ recheck_events s' cid = recheck_events s cid
        /\ find_by_key (memory_events s') (status_key cid (c_scope_tier card))
           = find_by_key (memory_events s) (status_key cid (c_scope_tier card))).
Proof.
  intros Hep Hev Hcard.
  destruct (evidence_exists_select _ _ Hev) as [ref Href].
  destruct (append_dispute_run s ep cid ev (dispute_weight (ev_ref_kind ref)) prod
              (c_scope_tier card) Hep (find_card_exists _ _ _ Hcard) Hev)
    as (r1 & s1 & Hrun1 & Hc1 & Hev1 & Hep1 & Hre1 & Hk1 & Hlogged1 & Hrows1).
  assert (find_card s1 cid = Some card) as Hcard1 by (unfold find_card in *; rewrite Hc1; exact Hcard).
  assert (episode_exists s1 ep = true) as Hepx1 by (unfold episode_exists in *; rewrite Hep1; exact Hep).
  unfold record_dispute. unfold bind at 1, get_store. rewrite Href.
  unfold bind at 1. rewrite Hrun1. unfold bind at 1, get_store. rewrite Hcard1.
  change (dispute_mass s1 cid) with (summed_weights (disputes s1) cid).
  set (mass := summed_weights (disputes s1) cid).
  set (thr := dispute_threshold (c_scope_tier card)).
  set (changed := PrimFloat.leb thr mass && (c_status card =s? "active")).
  set (skey := status_key cid (c_scope_tier card)) in *.
  assert (forall s', disputes s' = disputes s1 ->
            find_by_key (memory_events s') (dispute_key cid ev) <> None ->
            answered cid s ev
              {| dr_dispute_id := deterministic_id "disp" [cid; ev];
                 dr_weight := Some (dispute_weight (ev_ref_kind ref));
                 dr_dispute_mass := Some mass; dr_threshold := Some thr;
                 dr_status_changed := changed |} s') as Hanswer.
  { intros s' Hd' Hl'. exists card, ref, (dispute_weight (ev_ref_kind ref)), thr.
    split; [exact Hcard|]. split; [exact Href|].
    split; [apply dispute_weight_tabled|]. split; [reflexivity|].
    split; [apply dispute_threshold_tabled|]. split; [reflexivity|].
    rewrite Hd'. split; [exact Hrows1|]. split; [exact Hl'|]. split; reflexivity. }
  assert (reached
            {| dr_dispute_id := deterministic_id "disp" [cid; ev];
               dr_weight := Some (dispute_weight (ev_ref_kind ref));
               dr_dispute_mass := Some mass; dr_threshold := Some thr;
               dr_status_changed := changed |} && (c_status card =s? "active") = changed)
    as Hreached by reflexivity.
  destruct changed eqn:Hch.
  - destruct (find_by_key (memory_events s1) skey) as [row|] eqn:Hf.
    + unfold bind. rewrite (append_event_existing _ _ _ _ _ _ _ _ _ Hf).
      eexists; eexists. split; [reflexivity|].
      cbn [dr_status_changed].
      split; [apply Hanswer; [reflexivity|exact Hlogged1]|].
      split; [symmetry; exact Hreached|].
      split; [exact Hepx1|]. split; [exact Hev1|].
      split; [intros _ Hfresh; rewrite Hfresh in Hk1; discriminate|].
      intros _. split; [exact Hcard1|]. split; [exact Hre1 | rewrite Hf; exact Hk1].
    + unfold bind at 1. unfold bind at 1.
      rewrite (append_event_fresh _ _ _ _ _ _ _ _ Hf Hepx1). cbn zeta.
      set (e := new_event s1 ep "card_status_changed" _ skey prod RULE_VERSION).
      destruct (apply_recheck_run (me_event_id e) ep cid "dispute_threshold_exceeded"
                  mass thr (me_created_at e) (logged s1 e) card) as (s2 & Hrun2 & Hc2 & Hd2).
      { unfold find_card. rewrite logged_cards. exact Hcard1. }
      rewrite Hrun2.
      pose proof (apply_event_keeps_canon _ _ _ _ _ _ _ _ Hrun2) as Hk2.
      assert (memory_events s2 = memory_events s1 ++ [e]) as Hlog
        by (rewrite (canon_events _ _ Hk2); apply logged_events).
      eexists; eexists. split; [reflexivity|].
      cbn [dr_status_changed].
      split.
      { apply Hanswer; [rewrite Hd2; apply logged_disputes|].
        rewrite Hlog, find_by_key_snoc.
        destruct (find_by_key (memory_events s1) (dispute_key cid ev));
          [discriminate|contradiction]. }
      split; [symmetry; exact Hreached|].
      split.
      { unfold episode_exists. rewrite (canon_episodes _ _ Hk2), logged_episodes. exact Hepx1. }
      split.
      { rewrite (canon_evidence _ _ Hk2), logged_evidence. exact Hev1. }
      split.
      * intros _ _. exists e, mass, thr.
        split; [|split; [reflexivity|split; [reflexivity|split;
                  [reflexivity|split; [reflexivity|exact Hc2]]]]].
        rewrite (recheck_events_snoc _ _ _ _ Hlog), Hre1.
        unfold is_recheck_event. cbn [me_event_type me_payload e new_event].
        rewrite !String.eqb_refl. reflexivity.
      * intros [Hno|Hlogged]; [discriminate|]. exfalso. apply Hlogged. symmetry. exact Hk1.
  - unfold bind, ret. eexists; eexists. split; [reflexivity|].
    cbn [dr_status_changed].
    split; [apply Hanswer; [reflexivity|exact Hlogged1]|].
    split; [symmetry; exact Hreached|].
    split; [exact Hepx1|]. split; [exact Hev1|].
    split; [intros Hyes; discriminate|].
    intros _. split; [exact Hcard1|]. split; [exact Hre1 | exact Hk1].
Qed.







End DisputeTheorems.

(** The dispute scenario of the specification: a tool_output dispute (1.0)
    and a doc_span dispute (0.7) leave the repo card active; a second
    tool_output dispute brings the mass to 2.7 and writes one event. *)
Example dispute_scenario :
  match Engine.record_disputes (H := example_platform) "ep1" "c1" ["ev1"; "ev2"; "ev3"] "cli"
          Engine.dispute_store with
  | Engine.Ok (trace, s') =>
      map (fun a => Engine.dr_status_changed (fst a)) trace = [false; false; true]
      /\ map (fun a => Engine.dr_dispute_mass (fst a)) trace
         = [Some 1.0%float; Some 1.7%float; Some 2.7%float]
      /\ Engine.card_status s' "c1" = Some "needs_recheck"
      /\ length (Engine.recheck_events s' "c1") = 1
  | Engine.Raise _ => False
  end.
Proof. vm_compute. repeat split. Qed.

(** Ten user_span disputes against a card of global scope: the weights are
    ten times 0.4, their binary64 sum is 3.9999999999999996, below the
    threshold 4.0, and the card stays active. *)
Example ten_user_span_disputes :
  match Engine.record_disputes (H := example_platform) "ep1" "c2"
          (map (fun i => ("u" ++ str_of_nat i)%string) (seq 1 10)) "cli"
          Engine.global_card_store with
  | Engine.Ok (trace, s') =>
      map (fun a => Engine.dr_weight (fst a)) trace = repeat (Some 0.4%float) 10
      /\ map (fun a => Engine.dr_dispute_mass (fst a)) (skipn 9 trace)
         = [Some 0x1.fffffffffffffp+1%float]
      /\ Forall (fun a => Engine.reached (fst a) = false) trace
      /\ Engine.recheck_events s' "c2" = []
      /\ Engine.card_status s' "c2" = Some "active"
  | Engine.Raise _ => False
  end.
Proof. vm_compute. repeat split; repeat constructor. Qed.


(** ** The utility projection *)

Section UtilityTheorems.
Import Engine.

Lemma stat_of_insert (stats : stats_map) k v cid :
  stat_of (<[k := v]> stats) cid = if k =s? cid then v else stat_of stats cid.
Proof.
  unfold stat_of. rewrite lookup_insert.
  destruct (k =s? cid) eqn:Hk.
  - apply String.eqb_eq in Hk. rewrite decide_True by exact Hk. reflexivity.
  - apply String.eqb_neq in Hk. rewrite decide_False by exact Hk. reflexivity.
Qed.

Lemma credit_stat sig stats ex cid :
  u_wins (stat_of (credit sig stats ex) cid)
  = (u_wins (stat_of stats cid) + gain (success_signal sig) ex cid)%Z
  /\ u_losses (stat_of (credit sig stats ex) cid)
     = (u_losses (stat_of stats cid) + gain (failure_signal sig) ex cid)%Z
  /\ u_reuse (stat_of (credit sig stats ex) cid) = u_reuse (stat_of stats cid).
Proof.
  unfold credit, gain. rewrite stat_of_insert.
  destruct (x_card_id ex =s? cid) eqn:Hk; cbn [andb].
  - apply String.eqb_eq in Hk. subst cid. fold (stat_of stats (x_card_id ex)).
    destruct (success_signal sig), (failure_signal sig);
      cbn [u_wins u_losses u_reuse]; unfold stat_of, zero_stat; repeat split; lia.
  - repeat split; lia.
Qed.

Lemma credit_rows sig rows cid : forall stats,
  u_wins (stat_of (fold_left (credit sig) rows stats) cid)
  = (u_wins (stat_of stats cid)
     + (if success_signal sig
        then Z.of_nat (length (List.filter (fun e => x_card_id e =s? cid) rows)) else 0))%Z
  /\ u_losses (stat_of (fold_left (credit sig) rows stats) cid)
     = (u_losses (stat_of stats cid)
        + (if failure_signal sig
           then Z.of_nat (length (List.filter (fun e => x_card_id e =s? cid) rows)) else 0))%Z
  /\ u_reuse (stat_of (fold_left (credit sig) rows stats) cid) = u_reuse (stat_of stats cid).
Proof.
  induction rows as [|ex rows IH]; intros stats.
  - cbn. destruct (success_signal sig), (failure_signal sig); repeat split; lia.
  - cbn [fold_left List.filter].
    destruct (IH (credit sig stats ex)) as (Hw & Hl & Hr).
    destruct (credit_stat sig stats ex cid) as (Hw1 & Hl1 & Hr1).
    rewrite Hw, Hl, Hr, Hw1, Hl1, Hr1. unfold gain.
    destruct (x_card_id ex =s? cid); cbn [andb length];
      destruct (success_signal sig), (failure_signal sig); repeat split; lia.
Qed.

Lemma attribute_episodes s eps cid : forall stats,
  u_wins (stat_of (fold_left (attribute_episode s) eps stats) cid)
  = (u_wins (stat_of stats cid)
     + sum_Z (map (fun ep => if success_signal (fst (eligible s ep))
                             then Z.of_nat (credited s ep cid) else 0%Z) eps))%Z
  /\ u_losses (stat_of (fold_left (attribute_episode s) eps stats) cid)
     = (u_losses (stat_of stats cid)
        + sum_Z (map (fun ep => if failure_signal (fst (eligible s ep))
                                then Z.of_nat (credited s ep cid) else 0%Z) eps))%Z
  /\ u_reuse (stat_of (fold_left (attribute_episode s) eps stats) cid)
     = u_reuse (stat_of stats cid).
Proof.
  induction eps as [|ep eps IH]; intros stats.
  - cbn. repeat split; lia.
  - cbn [fold_left map sum_Z fold_right].
    destruct (IH (attribute_episode s stats ep)) as (Hw & Hl & Hr).
    rewrite Hw, Hl, Hr. unfold attribute_episode, credited.
    destruct (eligible s ep) as [sig rows]. cbn [fst snd].
    destruct (credit_rows sig rows cid stats) as (Hw1 & Hl1 & Hr1).
    rewrite Hw1, Hl1, Hr1. unfold sum_Z. repeat split; lia.
Qed.


Lemma stat_of_fold_insert (mk : string -> utility_stat) keys cid : forall (stats : stats_map),
  stat_of (fold_left (fun st k => <[k := mk k]> st) keys stats) cid
  = if Text.mem_string cid keys then mk cid else stat_of stats cid.
Proof.
  induction keys as [|k keys IH]; intros stats; [reflexivity|].
  cbn [fold_left]. rewrite IH, stat_of_insert.
  unfold Text.mem_string. cbn [existsb]. fold (Text.mem_string cid keys).
  rewrite (String.eqb_sym cid k).
  destruct (Text.mem_string cid keys); [rewrite orb_true_r; reflexivity|].
  rewrite orb_false_r. destruct (k =s? cid) eqn:Hk; [|reflexivity].
  apply String.eqb_eq in Hk. subst. reflexivity.
Qed.

Lemma mem_string_In x l : Text.mem_string x l = true <-> In x l.
Proof.
  unfold Text.mem_string. rewrite existsb_exists. split.
  - intros (y & Hin & Hy). apply String.eqb_eq in Hy. subst. exact Hin.
  - intros Hin. exists x. split; [exact Hin | apply String.eqb_refl].
Qed.

Lemma filter_absent (rows : list exposure_row) cid :
  ~ In cid (map x_card_id rows) ->
  List.filter (fun e => x_card_id e =s? cid) rows = [].
Proof.
  induction rows as [|e rows IH]; intros Hnot; [reflexivity|].
  cbn [List.filter]. destruct (x_card_id e =s? cid) eqn:He.
  - apply String.eqb_eq in He. exfalso. apply Hnot. left. exact He.
  - apply IH. intros Hin. apply Hnot. right. exact Hin.
Qed.

(** After the first query every row has no win, no loss, and as reuse the
    number of exposures of the card. *)
Lemma reuse_stats_stat s cid :
  u_wins (stat_of (reuse_stats s) cid) = 0%Z
  /\ u_losses (stat_of (reuse_stats s) cid) = 0%Z
  /\ u_reuse (stat_of (reuse_stats s) cid) = reuse_owed s cid.
Proof.
  unfold reuse_stats, reuse_owed.
  set (rows := List.filter (fun e => is_tactic s (x_card_id e)) (exposures s)).
  rewrite (stat_of_fold_insert
             (fun k => {| u_wins := 0; u_losses := 0;
                          u_reuse := Z.of_nat (length (List.filter (fun e => x_card_id e =s? k) rows));
                          u_updated_event_id :=
                            default 0%Z (max_Z (map x_source_event_id
                                                  (List.filter (fun e => x_card_id e =s? k) rows))) |})).
  destruct (Text.mem_string cid (nodup string_dec (map x_card_id rows))) eqn:Hmem.
  - repeat split.
  - assert (~ In cid (map x_card_id rows)) as Hnot.
    { intros Hin. apply (nodup_In string_dec) in Hin. apply mem_string_In in Hin. congruence. }
    rewrite (filter_absent _ _ Hnot). unfold stat_of. rewrite lookup_empty. repeat split.
Qed.




Lemma insert_by_perm {A} (le : A -> A -> bool) (x : A) (l : list A) :
  Permutation (insert_by le x l) (x :: l).
Proof.
  induction l as [|y l IH]; [reflexivity|].
  cbn [insert_by]. destruct (le x y); [reflexivity|].
  rewrite IH. apply perm_swap.
Qed.

Lemma sort_by_perm {A} (le : A -> A -> bool) (l : list A) : Permutation (sort_by le l) l.
Proof.
  induction l as [|x l IH]; [reflexivity|].
  unfold sort_by in *. cbn [fold_right]. rewrite insert_by_perm. constructor. exact IH.
Qed.






Lemma sum_Z_zero (l : list Z) : Forall (fun x => x = 0%Z) l -> sum_Z l = 0%Z.
Proof.
  induction 1 as [|x l Hx _ IH]; [reflexivity|].
  unfold sum_Z in *. cbn [fold_right]. lia.
Qed.
















End UtilityTheorems.

(** The attribution scenario of the specification: T1 and T2 win, T3 does
    not; each was exposed once. *)
Example attribution_scenario :
  let s := Engine.run_appends (H := example_platform) Engine.attribution_calls
             Engine.attribution_store in
  map (fun cid => let u := Engine.stat_of (Engine.utility_stats s) cid in
                  (Engine.u_wins u, Engine.u_losses u, Engine.u_reuse u))
      ["T1"; "T2"; "T3"]
  = [(1, 0, 1); (1, 0, 1); (0, 0, 1)]%Z.
Proof. vm_compute. reflexivity. Qed.
(** ** Ingesting an episode twice *)

Section FileTheorems.
Import Engine.
Context `{Platform}.

Lemma file_step_at a fs path : file_step a fs !! path = step_at a path (fs !! path).
Proof.
  unfold file_step, step_at.
  destruct (bool_decide (artifact_path a = path)) eqn:Hp.
  - apply bool_decide_eq_true in Hp. subst path.
    destruct (is_truthy (ai_content_path a)).
    + destruct (truthy (text_of (ai_content a))
                && negb (bool_decide (is_Some (fs !! artifact_path a)))).
      * apply lookup_insert_eq.
      * reflexivity.
    + apply lookup_insert_eq.
  - apply bool_decide_eq_false in Hp.
    destruct (is_truthy (ai_content_path a)).
    + destruct (truthy (text_of (ai_content a))
                && negb (bool_decide (is_Some (fs !! artifact_path a)))).
      * apply lookup_insert_ne. exact Hp.
      * reflexivity.
    + apply lookup_insert_ne. exact Hp.
Qed.

Lemma written_at_spec arts : forall fs path,
  written arts fs !! path = written_at arts path (fs !! path).
Proof.
  induction arts as [|a arts IH]; intros fs path; [reflexivity|].
  cbn [written written_at fold_left]. fold (written arts (file_step a fs)).
  fold (written_at arts path (step_at a path (fs !! path))).
  rewrite IH, file_step_at. reflexivity.
Qed.

(** Seen from one path the steps are: leave, set, or fill when absent. *)
Lemma step_at_shape a path :
  (forall v, step_at a path v = v)
  \/ (exists c, forall v, step_at a path v = Some c)
  \/ (exists c, forall v, step_at a path v = Some (default c v)).
Proof.
  unfold step_at. destruct (bool_decide (artifact_path a = path)); [|left; reflexivity].
  destruct (is_truthy (ai_content_path a)); [|right; left; eexists; reflexivity].
  destruct (truthy (text_of (ai_content a))); [|left; reflexivity].
  right. right. exists (text_of (ai_content a)). intros [v|]; reflexivity.
Qed.

Lemma written_at_shape arts path :
  (forall v, written_at arts path v = v)
  \/ (exists c, forall v, written_at arts path v = Some c)
  \/ (exists c, forall v, written_at arts path v = Some (default c v)).
Proof.
  induction arts as [|a arts IH]; [left; reflexivity|].
  assert (forall v, written_at (a :: arts) path v = written_at arts path (step_at a path v))
    as Hcons by reflexivity.
  destruct IH as [Hg|[[c Hg]|[c Hg]]], (step_at_shape a path) as [Hf|[[d Hf]|[d Hf]]].
  - left. intros v. rewrite Hcons, Hg, Hf. reflexivity.
  - right. left. exists d. intros v. rewrite Hcons, Hg, Hf. reflexivity.
  - right. right. exists d. intros v. rewrite Hcons, Hg, Hf. reflexivity.
  - right. left. exists c. intros v. rewrite Hcons, Hg. reflexivity.
  - right. left. exists c. intros v. rewrite Hcons, Hg. reflexivity.
  - right. left. exists c. intros v. rewrite Hcons, Hg. reflexivity.
  - right. right. exists c. intros v. rewrite Hcons, Hg, Hf. reflexivity.
  - right. left. exists d. intros v. rewrite Hcons, Hg, Hf. reflexivity.
  - right. right. exists d. intros v. rewrite Hcons, Hg, Hf. reflexivity.
Qed.

(** Writing the artifacts' files a second time changes no file. *)
Lemma written_twice arts fs : written arts (written arts fs) = written arts fs.
Proof.
  apply map_eq. intros path. rewrite !written_at_spec.
  destruct (written_at_shape arts path) as [Hg|[[c Hg]|[c Hg]]].
  - rewrite !Hg. reflexivity.
  - rewrite !Hg. reflexivity.
  - rewrite !Hg. reflexivity.
Qed.

End FileTheorems.

Section IngestTheorems.
Import Engine.
Context `{Platform}.

Lemma canon_sources s s' : canon s' = canon s -> sources s' = sources s.
Proof. unfold canon, sources. intros Hc. injection Hc as -> -> -> _ -> ->. reflexivity. Qed.

Lemma logged_sources s e : sources (logged s e) = sources s.
Proof. destruct s; reflexivity. Qed.

Lemma logged_key_snoc s s' e k :
  memory_events s' = memory_events s ++ [e] -> logged_key s k -> logged_key s' k.
Proof.
  unfold logged_key. intros -> Hk. rewrite find_by_key_snoc.
  destruct (find_by_key (memory_events s) k); [discriminate | contradiction].
Qed.

(** A returning append keeps the other tables and the files, keeps every
    key of the log, and leaves its own key in the log. *)
Lemma append_event_effect s ep ty p k prod rv apply r s' :
  append_event ep ty p k prod rv apply s = Ok (r, s') ->
  sources s' = sources s
  /\ (forall k', logged_key s k' -> logged_key s' k')
  /\ logged_key s' k.
Proof.
  intros Hrun.
  destruct (append_event_inv _ _ _ _ _ _ _ _ _ _ Hrun)
    as [(row & Hf & _ & ->)|(Hf & Hep & _ & Happ)].
  - split; [reflexivity|]. split; [auto|]. unfold logged_key. rewrite Hf. discriminate.
  - set (e := new_event s ep ty p k prod rv) in *.
    assert (canon s' = canon (logged s e)) as Hc.
    { destruct apply; [|subst s'; reflexivity].
      eapply apply_event_keeps_canon. exact Happ. }
    assert (memory_events s' = memory_events s ++ [e]) as Hlog
      by (rewrite (canon_events _ _ Hc); apply logged_events).
    split; [rewrite (canon_sources _ _ Hc); apply logged_sources|]. split.
    + intros k'. eapply logged_key_snoc. exact Hlog.
    + unfold logged_key. rewrite Hlog, find_by_key_snoc, Hf.
      cbn [me_idempotency_key e new_event]. rewrite String.eqb_refl. discriminate.
Qed.

(** On a logged key the append is the identity on the store. *)
Lemma append_event_settled s ep ty p k prod rv apply :
  logged_key s k -> exists r, append_event ep ty p k prod rv apply s = Ok (r, s).
Proof.
  unfold logged_key. intros Hk.
  destruct (find_by_key (memory_events s) k) as [row|] eqn:Hf; [|contradiction].
  eexists. apply append_event_existing. exact Hf.
Qed.

End IngestTheorems.

Section IngestSteps.
Import Engine.
Context `{Platform}.

Lemma sources_fields s s' :
  sources s' = sources s ->
  episodes s' = episodes s /\ artifacts s' = artifacts s
  /\ evidence_refs s' = evidence_refs s /\ files s' = files s
  /\ uuid_draws s' = uuid_draws s.
Proof. unfold sources. intros Hs. injection Hs. auto. Qed.

Lemma insert_or_ignore_exists {A} (same : A -> A -> bool) row rows :
  existsb (same row) rows = true -> insert_or_ignore same row rows = rows.
Proof. unfold insert_or_ignore. intros ->. reflexivity. Qed.

Lemma insert_or_ignore_keeps {A} (same : A -> A -> bool) row rows p :
  existsb p rows = true -> existsb p (insert_or_ignore same row rows) = true.
Proof.
  unfold insert_or_ignore. intros Hp. destruct (existsb (same row) rows); [exact Hp|].
  rewrite existsb_app, Hp. reflexivity.
Qed.

Lemma insert_or_ignore_has {A} (same : A -> A -> bool) row rows :
  same row row = true -> existsb (same row) (insert_or_ignore same row rows) = true.
Proof.
  unfold insert_or_ignore. intros Hs.
  destruct (existsb (same row) rows) eqn:Hex; [exact Hex|].
  rewrite existsb_app. cbn [existsb]. rewrite Hs, orb_true_r. reflexivity.
Qed.

Lemma set_files_same s : set_files (files s) s = s.
Proof. destruct s; reflexivity. Qed.

Lemma files_set_files fs s : files (set_files fs s) = fs.
Proof. destruct s; reflexivity. Qed.

Lemma ingest_artifact_pinned ep prod a s :
  artifact_pinned a ->
  ingest_artifact ep prod a s
  = (append_event ep "artifact_recorded"
       (PayArtifactRecorded (text_of (ai_artifact_id a)) (artifact_kind_of a) (artifact_hash a))
       (artifact_key ep a) prod RULE_VERSION true ;;; ret tt) (artifact_store ep a s).
Proof.
  intros [Hid Hcontent].
  unfold ingest_artifact, id_or_fresh. rewrite Hid.
  unfold artifact_store, artifact_row_of, artifact_key, artifact_hash, file_step,
    artifact_path, artifact_kind_of.
  destruct (is_truthy (ai_content_path a)) eqn:Hpath.
  - destruct Hcontent as [Hc|Hc]; [|discriminate]. rewrite Hc.
    cbn [andb].
    destruct (negb (bool_decide (is_Some (files s !! text_of (ai_content_path a))))) eqn:Hex;
      cbv [bind ret get_store modify write_file]; rewrite ?Hex, ?set_files_same;
      destruct (is_in (default "tool_output" (ai_artifact_kind a)) ["tool_output"; "doc"]);
      reflexivity.
  - cbv [bind ret get_store modify write_file].
    rewrite !files_set_files. unfold read_file. rewrite lookup_insert_eq. cbn [fmap option_fmap option_map].
    destruct (truthy (text_of (ai_content a))) eqn:Hc.
    + destruct (is_in (default "tool_output" (ai_artifact_kind a)) ["tool_output"; "doc"]);
        reflexivity.
    + unfold truthy in Hc. apply negb_false_iff, String.eqb_eq in Hc. rewrite Hc.
      cbn [universal_newlines].
      destruct (is_in (default "tool_output" (ai_artifact_kind a)) ["tool_output"; "doc"]);
        reflexivity.
Qed.

Lemma existsb_same {A} (p q : A -> bool) rows :
  (forall r, p r = q r) -> existsb p rows = existsb q rows.
Proof.
  intros Hpq. induction rows as [|r rows IH]; [reflexivity|].
  cbn [existsb]. rewrite Hpq, IH. reflexivity.
Qed.

Lemma artifact_store_fields ep a s :
  files (artifact_store ep a s) = file_step a (files s)
  /\ episodes (artifact_store ep a s) = episodes s
  /\ evidence_refs (artifact_store ep a s) = evidence_refs s
  /\ memory_events (artifact_store ep a s) = memory_events s
  /\ (forall id, artifact_exists s id = true -> artifact_exists (artifact_store ep a s) id = true)
  /\ (is_in (artifact_kind_of a) ["tool_output"; "doc"] = true
      -> artifact_exists (artifact_store ep a s) (text_of (ai_artifact_id a)) = true).
Proof.
  unfold artifact_store, artifact_exists.
  destruct (is_in (artifact_kind_of a) ["tool_output"; "doc"]).
  - repeat split; try (destruct s; reflexivity).
    + intros id Hid. destruct s. cbn in *. apply insert_or_ignore_keeps. exact Hid.
    + intros _.
      assert (forall rows,
        existsb (fun r => art_artifact_id r =s? text_of (ai_artifact_id a))
          (insert_or_ignore same_artifact (artifact_row_of ep a) rows) = true) as Hhas.
      { intros rows.
        rewrite <- (insert_or_ignore_has same_artifact (artifact_row_of ep a) rows)
          by apply String.eqb_refl.
        apply existsb_same. intros r. unfold same_artifact. cbn [art_artifact_id artifact_row_of].
        apply String.eqb_sym. }
      destruct s. cbn. apply Hhas.
  - repeat split; try (destruct s; reflexivity).
    + intros id Hid. destruct s. exact Hid.
    + discriminate.
Qed.

Lemma ingest_artifact_run ep prod a s u s' :
  artifact_pinned a ->
  ingest_artifact ep prod a s = Ok (u, s') ->
  files s' = file_step a (files s)
  /\ episodes s' = episodes s /\ evidence_refs s' = evidence_refs s
  /\ (forall id, artifact_exists s id = true -> artifact_exists s' id = true)
  /\ (forall k, logged_key s k -> logged_key s' k)
  /\ artifact_settled ep a s'.
Proof.
  intros Hpin Hrun. rewrite (ingest_artifact_pinned _ _ _ _ Hpin) in Hrun.
  unfold bind in Hrun.
  destruct (append_event _ _ _ _ _ _ _ _) as [[r t]|e] eqn:Happ; [|discriminate].
  unfold ret in Hrun. injection Hrun as _ ->.
  destruct (append_event_effect _ _ _ _ _ _ _ _ _ _ Happ) as (Hsrc & Hmono & Hkey).
  destruct (sources_fields _ _ Hsrc) as (He & Ha & Hv & Hf & _).
  destruct (artifact_store_fields ep a s) as (Hf' & He' & Hv' & Hm' & Hex & Hown).
  split; [congruence|]. split; [congruence|]. split; [congruence|].
  unfold artifact_settled, artifact_exists in *. rewrite Ha.
  split; [exact Hex|]. split; [|split; [exact Hown|exact Hkey]].
  intros k Hk. apply Hmono. unfold logged_key in *. rewrite Hm'. exact Hk.
Qed.


Lemma artifact_store_settled ep a s fs :
  artifact_settled ep a s ->
  artifact_store ep a (set_files fs s) = set_files (file_step a fs) s.
Proof.
  intros [Hrow _]. unfold artifact_store.
  destruct (is_in (artifact_kind_of a) ["tool_output"; "doc"]).
  - specialize (Hrow eq_refl). unfold artifact_exists in Hrow.
    destruct s. cbn in *. rewrite insert_or_ignore_exists; [reflexivity|].
    rewrite <- Hrow. apply existsb_same. intros r. unfold same_artifact.
    cbn [art_artifact_id artifact_row_of]. apply String.eqb_sym.
  - destruct s. reflexivity.
Qed.

(** A pinned artifact that has been ingested touches nothing but its file. *)
Lemma ingest_artifact_again ep prod a s fs :
  artifact_pinned a -> artifact_settled ep a s ->
  ingest_artifact ep prod a (set_files fs s) = Ok (tt, set_files (file_step a fs) s).
Proof.
  intros Hpin Hset. rewrite (ingest_artifact_pinned _ _ _ _ Hpin).
  rewrite (artifact_store_settled _ _ _ _ Hset).
  destruct Hset as [_ Hkey].
  destruct (append_event_settled (set_files (file_step a fs) s) ep "artifact_recorded"
              (PayArtifactRecorded (text_of (ai_artifact_id a)) (artifact_kind_of a)
                 (artifact_hash a))
              (artifact_key ep a) prod RULE_VERSION true) as [r Hr].
  { unfold logged_key in *. destruct s. exact Hkey. }
  unfold bind. rewrite Hr. reflexivity.
Qed.

Lemma artifact_settled_grows ep a s s' :
  (forall id, artifact_exists s id = true -> artifact_exists s' id = true) ->
  (forall k, logged_key s k -> logged_key s' k) ->
  artifact_settled ep a s -> artifact_settled ep a s'.
Proof. intros Hrows Hkeys [Hrow Hkey]. split; auto. Qed.

(** The first run of the artifact loop. *)
Lemma ingest_artifacts_run ep prod arts : forall s u s',
  Forall artifact_pinned arts ->
  for_each arts (ingest_artifact ep prod) s = Ok (u, s') ->
  files s' = written arts (files s)
  /\ episodes s' = episodes s /\ evidence_refs s' = evidence_refs s
  /\ (forall id, artifact_exists s id = true -> artifact_exists s' id = true)
  /\ (forall k, logged_key s k -> logged_key s' k)
  /\ Forall (fun a => artifact_settled ep a s') arts.
Proof.
  induction arts as [|a arts IH]; intros s u s' Hpin Hrun.
  - injection Hrun as _ ->. repeat split; auto.
  - inversion Hpin as [|? ? Ha Harts]; subst.
    cbn [for_each] in Hrun. unfold bind in Hrun.
    destruct (ingest_artifact ep prod a s) as [[[] t]|e] eqn:Hstep; [|discriminate].
    destruct (ingest_artifact_run _ _ _ _ _ _ Ha Hstep) as (Hf & He & Hv & Hrows & Hkeys & Hset).
    destruct (IH _ _ _ Harts Hrun) as (Hf' & He' & Hv' & Hrows' & Hkeys' & Hall).
    split; [rewrite Hf', Hf; reflexivity|]. split; [congruence|]. split; [congruence|].
    split; [auto|]. split; [auto|].
    constructor; [|exact Hall].
    exact (artifact_settled_grows _ _ _ _ Hrows' Hkeys' Hset).
Qed.

(** The second run of the artifact loop. *)
Lemma ingest_artifacts_again ep prod arts s : forall fs,
  Forall artifact_pinned arts ->
  Forall (fun a => artifact_settled ep a s) arts ->
  for_each arts (ingest_artifact ep prod) (set_files fs s)
  = Ok (tt, set_files (written arts fs) s).
Proof.
  induction arts as [|a arts IH]; intros fs Hpin Hset; [reflexivity|].
  inversion Hpin as [|? ? Ha Harts]; subst. inversion Hset as [|? ? Hsa Hsarts]; subst.
  cbn [for_each]. unfold bind. rewrite (ingest_artifact_again _ _ _ _ _ Ha Hsa).
  apply IH; assumption.
Qed.

End IngestSteps.

Section EvidenceSteps.
Import Engine.
Context `{Platform}.

Lemma evidence_key_tables ep r s s' :
  episodes s' = episodes s -> artifacts s' = artifacts s -> files s' = files s ->
  evidence_key ep r s' = evidence_key ep r s.
Proof.
  intros He Ha Hf.
  unfold evidence_key, evidence_hash, evidence_excerpt, extract_evidence_excerpt.
  rewrite He, Ha, Hf. reflexivity.
Qed.

Lemma ingest_evidence_named ep prod r s :
  is_truthy (ei_evidence_ref_id r) = true ->
  ingest_evidence ep prod r s
  = ((if is_in (evidence_kind_of r) ["user_span"; "tool_output"; "doc_span"]
         && negb (evidence_exists s (text_of (ei_evidence_ref_id r)))
      then
        require (match ei_artifact_id r with
                 | Some a => artifact_exists s a
                 | None => true
                 end) (IntegrityError "FOREIGN KEY constraint failed") ;;;
        created_at <- read_current_timestamp ;;
        modify (fun s0 =>
          set_evidence_refs
            (evidence_refs s0
             ++ [{| ev_evidence_ref_id := text_of (ei_evidence_ref_id r); ev_episode_id := ep;
                    ev_artifact_id := ei_artifact_id r; ev_ref_kind := evidence_kind_of r;
                    ev_target_id := evidence_target r; ev_start_offset := ei_start_offset r;
                    ev_end_offset := ei_end_offset r; ev_line_start := ei_line_start r;
                    ev_line_end := ei_line_end r; ev_excerpt_text := evidence_excerpt ep r s;
                    ev_ref_hash := evidence_hash ep r s; ev_created_at := created_at |}]) s0)
      else ret tt) ;;;
     append_event ep "evidence_ref_recorded"
       (PayEvidenceRefRecorded (text_of (ei_evidence_ref_id r)) (evidence_kind_of r)
          (evidence_hash ep r s))
       (evidence_key ep r s) prod RULE_VERSION true ;;;
     ret tt) s.
Proof.
  intros Hid. unfold ingest_evidence, id_or_fresh. rewrite Hid.
  reflexivity.
Qed.


Lemma ingest_evidence_run ep prod r s u s' :
  is_truthy (ei_evidence_ref_id r) = true ->
  ingest_evidence ep prod r s = Ok (u, s') ->
  episodes s' = episodes s /\ artifacts s' = artifacts s /\ files s' = files s
  /\ (forall id, evidence_exists s id = true -> evidence_exists s' id = true)
  /\ (forall k, logged_key s k -> logged_key s' k)
  /\ evidence_settled ep r s s'.
Proof.
  intros Hid Hrun. rewrite (ingest_evidence_named _ _ _ _ Hid) in Hrun.
  unfold bind at 1 in Hrun.
  match type of Hrun with
  | match ?m s with _ => _ end = _ => destruct (m s) as [[[] t]|e] eqn:Hins; [|discriminate]
  end.
  assert (episodes t = episodes s /\ artifacts t = artifacts s /\ files t = files s
          /\ memory_events t = memory_events s
          /\ (forall id, evidence_exists s id = true -> evidence_exists t id = true)
          /\ (is_in (evidence_kind_of r) ["user_span"; "tool_output"; "doc_span"] = true
              -> evidence_exists t (text_of (ei_evidence_ref_id r)) = true)) as Ht.
  { destruct (is_in (evidence_kind_of r) ["user_span"; "tool_output"; "doc_span"]).
    - destruct (evidence_exists s (text_of (ei_evidence_ref_id r))) eqn:Hex.
      + cbn [andb negb] in Hins. injection Hins as <-. repeat split; auto.
      + cbn [andb negb] in Hins. unfold bind, require in Hins.
        destruct (match ei_artifact_id r with Some a => artifact_exists s a | None => true end);
          [|discriminate].
        cbv [ret read_current_timestamp modify] in Hins. injection Hins as <-.
        unfold evidence_exists. destruct s. cbn.
        repeat split; auto.
        * intros id Hk. rewrite existsb_app, Hk. reflexivity.
        * rewrite existsb_app. cbn. rewrite String.eqb_refl, !orb_true_r. reflexivity.
    - cbn [andb] in Hins. injection Hins as <-. repeat split; auto. discriminate. }
  destruct Ht as (He & Ha & Hf & Hm & Hrows & Hown).
  unfold bind in Hrun.
  destruct (append_event _ _ _ _ _ _ _ _) as [[res t']|e] eqn:Happ; [|discriminate].
  unfold ret in Hrun. injection Hrun as _ ->.
  destruct (append_event_effect _ _ _ _ _ _ _ _ _ _ Happ) as (Hsrc & Hmono & Hkey).
  destruct (sources_fields _ _ Hsrc) as (He' & Ha' & Hv' & Hf' & _).
  split; [congruence|]. split; [congruence|]. split; [congruence|].
  unfold evidence_settled, evidence_exists in *. rewrite Hv'.
  split; [exact Hrows|]. split; [|split; [exact Hown|exact Hkey]].
  intros k Hk. apply Hmono. unfold logged_key in *. rewrite Hm. exact Hk.
Qed.

(** An ingested evidence reference with its own identifier leaves the
    store as it is. *)
Lemma ingest_evidence_again ep prod r s :
  is_truthy (ei_evidence_ref_id r) = true -> evidence_settled ep r s s ->
  ingest_evidence ep prod r s = Ok (tt, s).
Proof.
  intros Hid [Hrow Hkey]. rewrite (ingest_evidence_named _ _ _ _ Hid).
  destruct (append_event_settled s ep "evidence_ref_recorded"
              (PayEvidenceRefRecorded (text_of (ei_evidence_ref_id r)) (evidence_kind_of r)
                 (evidence_hash ep r s))
              (evidence_key ep r s) prod RULE_VERSION true Hkey) as [res Hres].
  destruct (is_in (evidence_kind_of r) ["user_span"; "tool_output"; "doc_span"]).
  - rewrite (Hrow eq_refl). cbn [andb negb]. unfold bind, ret. rewrite Hres. reflexivity.
  - cbn [andb]. unfold bind, ret. rewrite Hres. reflexivity.
Qed.

Lemma evidence_settled_grows ep r s0 s s' :
  (forall id, evidence_exists s id = true -> evidence_exists s' id = true) ->
  (forall k, logged_key s k -> logged_key s' k) ->
  evidence_settled ep r s0 s -> evidence_settled ep r s0 s'.
Proof. intros Hrows Hkeys [Hrow Hkey]. split; auto. Qed.

Lemma evidence_settled_tables ep r s0 s1 s :
  episodes s1 = episodes s0 -> artifacts s1 = artifacts s0 -> files s1 = files s0 ->
  evidence_settled ep r s0 s -> evidence_settled ep r s1 s.
Proof.
  intros He Ha Hf [Hrow Hkey]. split; [exact Hrow|].
  rewrite (evidence_key_tables _ _ _ _ He Ha Hf). exact Hkey.
Qed.

(** The first run of the evidence loop. *)
Lemma ingest_evidences_run ep prod refs : forall s u s',
  Forall (fun r => is_truthy (ei_evidence_ref_id r) = true) refs ->
  for_each refs (ingest_evidence ep prod) s = Ok (u, s') ->
  episodes s' = episodes s /\ artifacts s' = artifacts s /\ files s' = files s
  /\ (forall id, evidence_exists s id = true -> evidence_exists s' id = true)
  /\ (forall k, logged_key s k -> logged_key s' k)
  /\ Forall (fun r => evidence_settled ep r s' s') refs.
Proof.
  induction refs as [|r refs IH]; intros s u s' Hnamed Hrun.
  - injection Hrun as _ ->. repeat split; auto.
  - inversion Hnamed as [|? ? Hr Hrefs]; subst.
    cbn [for_each] in Hrun. unfold bind in Hrun.
    destruct (ingest_evidence ep prod r s) as [[[] t]|e] eqn:Hstep; [|discriminate].
    destruct (ingest_evidence_run _ _ _ _ _ _ Hr Hstep) as (He & Ha & Hf & Hrows & Hkeys & Hset).
    destruct (IH _ _ _ Hrefs Hrun) as (He' & Ha' & Hf' & Hrows' & Hkeys' & Hall).
    split; [congruence|]. split; [congruence|]. split; [congruence|].
    split; [auto|]. split; [auto|].
    constructor; [|exact Hall].
    apply (evidence_settled_tables ep r s); [congruence..|].
    exact (evidence_settled_grows _ _ _ _ _ Hrows' Hkeys' Hset).
Qed.

(** The second run of the evidence loop. *)
Lemma ingest_evidences_again ep prod refs s :
  Forall (fun r => is_truthy (ei_evidence_ref_id r) = true) refs ->
  Forall (fun r => evidence_settled ep r s s) refs ->
  for_each refs (ingest_evidence ep prod) s = Ok (tt, s).
Proof.
  induction refs as [|r refs IH]; intros Hnamed Hset; [reflexivity|].
  inversion Hnamed as [|? ? Hr Hrefs]; subst. inversion Hset as [|? ? Hsr Hsrefs]; subst.
  cbn [for_each]. unfold bind. rewrite (ingest_evidence_again _ _ _ _ Hr Hsr).
  apply IH; assumption.
Qed.

End EvidenceSteps.

Section IngestTwice.
Import Engine.
Context `{Platform}.

Lemma set_episodes_same s : set_episodes (episodes s) s = s.
Proof. destruct s; reflexivity. Qed.

Lemma record_episode_pinned p prod s :
  payload_pinned p ->
  record_episode p prod s
  = (append_event (text_of (p_episode_id p)) "episode_recorded"
       (PayEpisodeRecorded (text_of (p_episode_id p)) (episode_hash p))
       ("episode_recorded:" ++ text_of (p_episode_id p) ++ ":" ++ episode_hash p)
       prod RULE_VERSION true ;;;
     for_each (p_artifacts p) (ingest_artifact (text_of (p_episode_id p)) prod) ;;;
     for_each (p_evidence_refs p) (ingest_evidence (text_of (p_episode_id p)) prod) ;;;
     append_event (text_of (p_episode_id p)) "consolidation_triggered"
       (PayConsolidationTriggered (text_of (p_episode_id p)) "post_episode_record")
       ("consolidation_triggered:" ++ text_of (p_episode_id p)) prod RULE_VERSION true ;;;
     ret {| ir_episode_id := text_of (p_episode_id p);
            ir_artifacts := length (p_artifacts p);
            ir_evidence_refs := length (p_evidence_refs p) |})
      (set_episodes (insert_or_ignore same_episode (episode_row_of p) (episodes s)) s).
Proof.
  intros (Hid & Hst & Hen & _).
  unfold record_episode, id_or_fresh, time_or_now. rewrite Hid, Hst, Hen. reflexivity.
Qed.

Lemma logged_key_events s s' k :
  memory_events s' = memory_events s -> logged_key s k -> logged_key s' k.
Proof. unfold logged_key. intros ->. auto. Qed.

Lemma artifact_exists_tables s s' id :
  artifacts s' = artifacts s -> artifact_exists s id = true -> artifact_exists s' id = true.
Proof. unfold artifact_exists. intros ->. auto. Qed.

Lemma evidence_exists_tables s s' id :
  evidence_refs s' = evidence_refs s ->
  evidence_exists s id = true -> evidence_exists s' id = true.
Proof. unfold evidence_exists. intros ->. auto. Qed.

(** The second run of a pinned payload finds everything in place. *)
Lemma record_episode_settles p prod s r s1 :
  payload_pinned p ->
  record_episode p prod s = Ok (r, s1) ->
  record_episode p prod s1 = Ok (r, s1).
Proof.
  intros Hpin Hrun. pose proof Hpin as (_ & _ & _ & Harts & Hrefs).
  rewrite (record_episode_pinned _ _ _ Hpin) in Hrun.
  rewrite (record_episode_pinned _ _ _ Hpin).
  set (ep := text_of (p_episode_id p)) in *.
  set (s0 := set_episodes (insert_or_ignore same_episode (episode_row_of p) (episodes s)) s)
    in *.
  unfold bind at 1 in Hrun.
  destruct (append_event ep "episode_recorded" _ _ prod RULE_VERSION true s0)
    as [[r1 sa]|e] eqn:Hone; [|discriminate].
  unfold bind at 1 in Hrun.
  destruct (for_each (p_artifacts p) (ingest_artifact ep prod) sa)
    as [[[] sb]|e] eqn:Htwo; [|discriminate].
  unfold bind at 1 in Hrun.
  destruct (for_each (p_evidence_refs p) (ingest_evidence ep prod) sb)
    as [[[] sc]|e] eqn:Hthree; [|discriminate].
  unfold bind at 1 in Hrun.
  destruct (append_event ep "consolidation_triggered" _ _ prod RULE_VERSION true sc)
    as [[r4 sd]|e] eqn:Hfour; [|discriminate].
  unfold ret in Hrun. injection Hrun as <- <-.
  destruct (append_event_effect _ _ _ _ _ _ _ _ _ _ Hone) as (Hsrc1 & Hmono1 & Hkey1).
  destruct (sources_fields _ _ Hsrc1) as (He1 & Ha1 & Hv1 & Hf1 & _).
  destruct (ingest_artifacts_run _ _ _ _ _ _ Harts Htwo)
    as (Hf2 & He2 & Hv2 & Hrows2 & Hmono2 & Hset2).
  destruct (ingest_evidences_run _ _ _ _ _ _ Hrefs Hthree)
    as (He3 & Ha3 & Hf3 & Hrows3 & Hmono3 & Hset3).
  destruct (append_event_effect _ _ _ _ _ _ _ _ _ _ Hfour) as (Hsrc4 & Hmono4 & Hkey4).
  destruct (sources_fields _ _ Hsrc4) as (He4 & Ha4 & Hv4 & Hf4 & _).
  (* the episode row is there *)
  assert (set_episodes (insert_or_ignore same_episode (episode_row_of p) (episodes sd)) sd = sd)
    as Hep.
  { rewrite insert_or_ignore_exists; [apply set_episodes_same|].
    rewrite He4, He3, He2, He1. subst s0. destruct s. cbn.
    apply insert_or_ignore_has. apply String.eqb_refl. }
  rewrite Hep.
  (* the first event is logged *)
  destruct (append_event_settled sd ep "episode_recorded"
              (PayEpisodeRecorded ep (episode_hash p))
              ("episode_recorded:" ++ ep ++ ":" ++ episode_hash p) prod RULE_VERSION true)
    as [r1' Hone']; [auto|].
  unfold bind at 1. rewrite Hone'.
  (* the artifacts *)
  assert (Forall (fun a => artifact_settled ep a sd) (p_artifacts p)) as Hset2'.
  { eapply List.Forall_impl; [|exact Hset2]. intros a Ha.
    apply (artifact_settled_grows ep a sb); [| |exact Ha].
    - intros id Hid. apply (artifact_exists_tables sb); [congruence|exact Hid].
    - auto. }
  assert (written (p_artifacts p) (files sd) = files sd) as Hfiles.
  { rewrite Hf4, Hf3, Hf2. apply written_twice. }
  unfold bind at 1. rewrite <- (set_files_same sd) at 1.
  rewrite (ingest_artifacts_again _ _ _ _ _ Harts Hset2'), Hfiles, set_files_same.
  (* the evidence references *)
  assert (Forall (fun r => evidence_settled ep r sd sd) (p_evidence_refs p)) as Hset3'.
  { eapply List.Forall_impl; [|exact Hset3]. intros r Hr.
    apply (evidence_settled_tables ep r sc); [congruence..|].
    apply (evidence_settled_grows ep r sc sc); [| |exact Hr].
    - intros id Hid. apply (evidence_exists_tables sc); [congruence|exact Hid].
    - auto. }
  unfold bind at 1. rewrite (ingest_evidences_again _ _ _ _ Hrefs Hset3').
  (* the trigger *)
  destruct (append_event_settled sd ep "consolidation_triggered"
              (PayConsolidationTriggered ep "post_episode_record")
              ("consolidation_triggered:" ++ ep) prod RULE_VERSION true Hkey4)
    as [r4' Hfour'].
  unfold bind. rewrite Hfour'. reflexivity.
Qed.

(** X1: when the payload names its episode, its start and end times, every
    artifact and every evidence reference, and each artifact carries its
    content or leaves its file to the engine, a second [record_episode] of
    the same payload right after the first returns the same answer and
    leaves the whole store (tables, event log, projections, files) as the
    first run left it. *)
Theorem record_episode_pinned_idempotent p prod s r s1 :
  payload_pinned p ->
  record_episode p prod s = Ok (r, s1) ->
  record_episode p prod s1 = Ok (r, s1).
Proof.
  intros Hpin Hrun. exact (record_episode_settles p prod s r s1 Hpin Hrun).
Qed.

(** C9 (as amended): for every payload that names its episode, its start
    and end times, every artifact and every evidence reference (each
    artifact carrying its content or leaving its file to the engine),
    running [record_episode] a second time right after the first returns,
    and leaves the event log, the canonical tables and every projection as
    the first run left them. *)
Theorem record_episode_twice p prod s r s1 :
  payload_pinned p ->
  record_episode p prod s = Ok (r, s1) ->
  exists r2 s2,
    record_episode p prod s1 = Ok (r2, s2)
    /\ memory_events s2 = memory_events s1
    /\ projection s2 = projection s1
    /\ episodes s2 = episodes s1 /\ artifacts s2 = artifacts s1
    /\ evidence_refs s2 = evidence_refs s1
    /\ ir_episode_id r2 = ir_episode_id r.
Proof.
  intros Hpin Hrun. exists r, s1.
  split; [exact (record_episode_settles p prod s r s1 Hpin Hrun)|].
  repeat split.
Qed.

End IngestTwice.

Lemma record_episode_pinned_idempotent_witness :
  exists r s1,
    Engine.record_episode (H := example_platform) Engine.pinned_payload "cli" Engine.empty_store
    = Engine.Ok (r, s1)
    /\ Engine.record_episode (H := example_platform) Engine.pinned_payload "cli" s1
       = Engine.Ok (r, s1).
Proof.
  destruct (Engine.record_episode (H := example_platform) Engine.pinned_payload "cli"
              Engine.empty_store) as [[r s1]|e] eqn:Hrun.
  - exists r, s1. split; [reflexivity|].
    apply (record_episode_pinned_idempotent (H := example_platform) Engine.pinned_payload
             "cli" Engine.empty_store r s1); [|exact Hrun].
    unfold Engine.payload_pinned, Engine.artifact_pinned.
    repeat split; repeat constructor.
  - vm_compute in Hrun. discriminate.
Defined.

Lemma record_episode_twice_witness :
  exists r s1 r2 s2,
    Engine.record_episode (H := example_platform) Engine.pinned_payload "cli" Engine.empty_store
    = Engine.Ok (r, s1)
    /\ Engine.record_episode (H := example_platform) Engine.pinned_payload "cli" s1
       = Engine.Ok (r2, s2)
    /\ Engine.memory_events s2 = Engine.memory_events s1
    /\ Engine.projection s2 = Engine.projection s1
    /\ Engine.episodes s2 = Engine.episodes s1 /\ Engine.artifacts s2 = Engine.artifacts s1
    /\ Engine.evidence_refs s2 = Engine.evidence_refs s1
    /\ Engine.ir_episode_id r2 = Engine.ir_episode_id r.
Proof.
  destruct (Engine.record_episode (H := example_platform) Engine.pinned_payload "cli"
              Engine.empty_store) as [[r s1]|e] eqn:Hrun.
  - destruct (record_episode_twice (H := example_platform) Engine.pinned_payload
                "cli" Engine.empty_store r s1) as (r2 & s2 & Hagain & Hrest);
      [|exact Hrun|].
    + unfold Engine.payload_pinned, Engine.artifact_pinned.
      repeat split; repeat constructor.
    + exists r, s1, r2, s2. split; [reflexivity|]. split; [exact Hagain|exact Hrest].
  - vm_compute in Hrun. discriminate.
Defined.

(** C9 as stated fails when the payload omits [episode_id]: each run draws
    a new identifier, so the second run registers a second episode and
    logs two more events. *)
Lemma record_episode_unpinned_counterexample :
  match Engine.record_episode (H := example_platform) Engine.bare_payload "cli"
          Engine.empty_store with
  | Engine.Ok (r1, s1) =>
      match Engine.record_episode (H := example_platform) Engine.bare_payload "cli" s1 with
      | Engine.Ok (r2, s2) =>
          Engine.ir_episode_id r1 <> Engine.ir_episode_id r2
          /\ length (Engine.episodes s1) = 1 /\ length (Engine.episodes s2) = 2
          /\ length (Engine.memory_events s1) = 2 /\ length (Engine.memory_events s2) = 4
      | Engine.Raise _ => False
      end
  | Engine.Raise _ => False
  end.
Proof. vm_compute. repeat split. discriminate. Qed.

Section Registering.
Import Engine.
Context `{Platform}.

Ltac run_bind H :=
  let a := fresh "a" in let s1 := fresh "s" in let H1 := fresh "Hrun" in
  apply bind_ok in H; destruct H as (a & s1 & H1 & H).

Lemma append_event_keeps_episodes ep ty p k prod rv apply :
  keeps episodes (append_event ep ty p k prod rv apply).
Proof.
  intros s r s' Hrun. destruct (append_event_effect _ _ _ _ _ _ _ _ _ _ Hrun) as (Hs & _).
  exact (proj1 (sources_fields _ _ Hs)).
Qed.

Lemma draw_uuid_keeps_episodes : keeps episodes draw_uuid.
Proof.
  intros s a s' Hm. unfold draw_uuid in Hm. injection Hm as _ <-. destruct s; reflexivity.
Qed.

Lemma ingest_artifact_keeps_episodes ep prod a : keeps episodes (ingest_artifact ep prod a).
Proof.
  unfold ingest_artifact, id_or_fresh, write_file.
  repeat first [ apply append_event_keeps_episodes | apply draw_uuid_keeps_episodes
               | keeps_step ].
Qed.

Lemma ingest_evidence_keeps_episodes ep prod r : keeps episodes (ingest_evidence ep prod r).
Proof.
  unfold ingest_evidence, id_or_fresh.
  repeat first [ apply append_event_keeps_episodes | apply draw_uuid_keeps_episodes
               | keeps_step ].
Qed.

Lemma id_or_fresh_given x prefix id s s' :
  id_or_fresh x prefix s = Ok (id, s') ->
  episodes s' = episodes s /\ (is_truthy x = true -> id = text_of x).
Proof.
  unfold id_or_fresh. destruct (is_truthy x).
  - intros Hrun. injection Hrun as <- <-. split; auto.
  - intros Hrun. run_bind Hrun. injection Hrun as _ <-.
    split; [exact (draw_uuid_keeps_episodes _ _ _ Hrun0)|discriminate].
Qed.

Lemma time_or_now_keeps_episodes x : keeps episodes (time_or_now x).
Proof. unfold time_or_now. keeps_auto. Qed.

(** X26: what [record_episode] leaves behind, whatever the payload gives
    or omits: the episode of the returned id is stored and its
    [consolidation_triggered] event is logged; the returned counts are the
    numbers of artifacts and evidence references of the payload; a given
    episode id is the one returned; and every episode stored before is
    still stored. *)
Theorem record_episode_registers p prod s r s' :
  record_episode p prod s = Ok (r, s') ->
  episode_exists s' (ir_episode_id r) = true
  /\ logged_key s' ("consolidation_triggered:" ++ ir_episode_id r)
  /\ ir_artifacts r = length (p_artifacts p)
  /\ ir_evidence_refs r = length (p_evidence_refs p)
  /\ (is_truthy (p_episode_id p) = true -> ir_episode_id r = text_of (p_episode_id p))
  /\ (forall id, episode_exists s id = true -> episode_exists s' id = true).
Proof.
  unfold record_episode. intros Hrun.
  run_bind Hrun. destruct (id_or_fresh_given _ _ _ _ _ Hrun0) as [He0 Hgiven].
  run_bind Hrun. pose proof (time_or_now_keeps_episodes _ _ _ _ Hrun1) as He1.
  run_bind Hrun. pose proof (time_or_now_keeps_episodes _ _ _ _ Hrun2) as He2.
  run_bind Hrun. unfold modify in Hrun3. injection Hrun3 as _ Hs3.
  run_bind Hrun. pose proof (append_event_keeps_episodes _ _ _ _ _ _ _ _ _ _ Hrun3) as He4.
  run_bind Hrun.
  pose proof (keeps_for_each episodes _ _ (ingest_artifact_keeps_episodes a prod)
                _ _ _ Hrun4) as He5.
  run_bind Hrun.
  pose proof (keeps_for_each episodes _ _ (ingest_evidence_keeps_episodes a prod)
                _ _ _ Hrun5) as He6.
  run_bind Hrun.
  destruct (append_event_effect _ _ _ _ _ _ _ _ _ _ Hrun6) as (Hs7 & _ & Hkey).
  pose proof (proj1 (sources_fields _ _ Hs7)) as He7.
  injection Hrun as <- <-. cbn [ir_episode_id ir_artifacts ir_evidence_refs].
  assert (episodes s7
          = insert_or_ignore same_episode
              {| ep_episode_id := a; ep_user_text := text_of (p_user_text p);
                 ep_assistant_text := text_of (p_assistant_text p);
                 ep_model_name := p_model_name p;
                 ep_metadata := default [] (p_metadata p);
                 ep_payload_hash :=
                   sha256_text
                     (canonical_json_episode
                        {| canon_episode_id := a; canon_user_text := text_of (p_user_text p);
                           canon_assistant_text := text_of (p_assistant_text p);
                           canon_model_name := p_model_name p;
                           canon_metadata := default [] (p_metadata p);
                           canon_started_at := a0; canon_ended_at := a1 |});
                 ep_started_at := a0; ep_ended_at := a1 |} (episodes s)) as Heps.
  { rewrite He7, He6, He5, He4, <- Hs3. destruct s2. cbn in *. congruence. }
  unfold episode_exists. rewrite Heps.
  split.
  { match goal with
    | |- existsb _ (insert_or_ignore _ ?row _) = true =>
        etransitivity;
          [|apply (insert_or_ignore_has same_episode row (episodes s)); apply String.eqb_refl]
    end.
    apply existsb_same. intros row. unfold same_episode. cbn [ep_episode_id].
    apply String.eqb_sym. }
  split; [exact Hkey|]. split; [reflexivity|]. split; [reflexivity|].
  split; [exact Hgiven|].
  intros id Hid. apply insert_or_ignore_keeps. exact Hid.
Qed.

End Registering.

Lemma record_episode_registers_witness :
  exists r s',
    Engine.record_episode (H := example_platform) Engine.bare_payload "cli" Engine.empty_store
    = Engine.Ok (r, s')
    /\ Engine.episode_exists s' (Engine.ir_episode_id r) = true
    /\ Engine.logged_key s' ("consolidation_triggered:" ++ Engine.ir_episode_id r)
    /\ Engine.ir_artifacts r = length (Engine.p_artifacts Engine.bare_payload)
    /\ Engine.ir_evidence_refs r = length (Engine.p_evidence_refs Engine.bare_payload)
    /\ (Engine.is_truthy (Engine.p_episode_id Engine.bare_payload) = true ->
        Engine.ir_episode_id r = Engine.text_of (Engine.p_episode_id Engine.bare_payload))
    /\ (forall id, Engine.episode_exists Engine.empty_store id = true ->
                   Engine.episode_exists s' id = true).
Proof.
  destruct (Engine.record_episode (H := example_platform) Engine.bare_payload "cli"
              Engine.empty_store) as [[r s']|e] eqn:Hrun.
  - exists r, s'. split; [reflexivity|].
    exact (record_episode_registers (H := example_platform) _ _ _ _ _ Hrun).
  - vm_compute in Hrun. discriminate.
Defined.
(** ** The event log and the reducer *)

Section LogProperties.
Import Engine.
Context `{Platform}.

(** X10: an event can only be inserted for a recorded episode: on an
    unknown episode a fresh key makes [append_event] raise the foreign key
    error, and any call that returns has inserted nothing and left the
    store as it was. *)
Theorem append_event_needs_episode s ep ty p k prod rv apply :
  episode_exists s ep = false ->
  (find_by_key (memory_events s) k = None ->
   append_event ep ty p k prod rv apply s
   = Raise (IntegrityError "FOREIGN KEY constraint failed"))
  /\ (forall r s', append_event ep ty p k prod rv apply s = Ok (r, s') ->
        r_inserted r = false /\ s' = s).
Proof.
  intros Hep. split.
  - intros Hf. apply append_event_unknown_episode; assumption.
  - intros r s' Hrun.
    destruct (append_event_log _ _ _ _ _ _ _ _ _ _ Hrun)
      as [(row & _ & -> & ->)|(_ & Hep' & _)]; [split; reflexivity|congruence].
Qed.

Lemma max_Z_none (l : list Z) : max_Z l = None -> l = [].
Proof.
  destruct l as [|y l] using rev_ind; [reflexivity|].
  rewrite max_Z_snoc. discriminate.
Qed.

Lemma max_Z_upper (l : list Z) : forall x, In x l -> (x <= default 0 (max_Z l))%Z.
Proof.
  induction l as [|y l IH] using rev_ind; intros x Hin; [destruct Hin|].
  rewrite max_Z_snoc. apply in_app_or in Hin.
  destruct Hin as [Hin|[->|[]]].
  - specialize (IH x Hin). destruct (max_Z l) as [m|] eqn:Hm.
    + cbv [default from_option Datatypes.id] in *. lia.
    + rewrite (max_Z_none _ Hm) in Hin. destruct Hin.
  - destruct (max_Z l) as [m|]; cbv [default from_option Datatypes.id]; lia.
Qed.

Lemma next_event_id_fresh events : ~ In (next_event_id events) (map me_event_id events).
Proof.
  intros Hin. apply max_Z_upper in Hin. unfold next_event_id in Hin. lia.
Qed.

Lemma try_append_log s c :
  memory_events (try_append s c) = memory_events s
  \/ (find_by_key (memory_events s) (call_idempotency_key c) = None
      /\ exists e, memory_events (try_append s c) = memory_events s ++ [e]
                   /\ me_event_id e = next_event_id (memory_events s)
                   /\ me_idempotency_key e = call_idempotency_key c).
Proof.
  unfold try_append, do_append.
  destruct (append_event _ _ _ _ _ _ _ s) as [[r s']|err] eqn:Hrun; [|left; reflexivity].
  destruct (append_event_log _ _ _ _ _ _ _ _ _ _ Hrun)
    as [(row & _ & _ & ->)|(Hf & _ & _ & Hlog & _)]; [left; reflexivity|].
  right. split; [exact Hf|]. eexists. split; [exact Hlog|]. split; reflexivity.
Qed.

(** X11: the event log is append-only and keeps its keys: over any series
    of [append_event] calls, failed ones rolled back, the events that were
    in the log stay, unchanged and in place, at the head of the log; the
    idempotency keys stay pairwise distinct and so do the event ids. *)
Theorem event_log_append_only (s : store) (calls : list append_call) :
  keys_distinct s ->
  List.NoDup (map me_event_id (memory_events s)) ->
  let s' := run_appends calls s in
  (exists new, memory_events s' = memory_events s ++ new)
  /\ keys_distinct s'
  /\ List.NoDup (map me_event_id (memory_events s')).
Proof.
  revert s. induction calls as [|c calls IH]; intros s Hkeys Hids.
  - cbn. split; [exists []; symmetry; apply app_nil_r|]. split; assumption.
  - cbn [run_appends fold_left].
    assert (exists new, memory_events (try_append s c) = memory_events s ++ new) as [new Hnew].
    { destruct (try_append_log s c) as [->|(_ & e & -> & _)]; [exists []|exists [e]];
        [symmetry; apply app_nil_r|reflexivity]. }
    assert (keys_distinct (try_append s c)
            /\ List.NoDup (map me_event_id (memory_events (try_append s c)))) as [Hk Hi].
    { unfold keys_distinct in *.
      destruct (try_append_log s c) as [->|(Hf & e & -> & Hid & Hkey)]; [split; assumption|].
      rewrite !map_app. cbn [map]. split.
      - apply List.NoDup_app; [exact Hkeys | repeat constructor; intros [] |].
        intros k Hin [<-|[]]. apply in_map_iff in Hin. destruct Hin as (e0 & Hk0 & Hin).
        apply (proj1 (find_by_key_none _ _) Hf e0 Hin). congruence.
      - apply List.NoDup_app; [exact Hids | repeat constructor; intros [] |].
        intros i Hin [<-|[]]. rewrite Hid in Hin. exact (next_event_id_fresh _ Hin). }
    destruct (IH (try_append s c) Hk Hi) as ((more & Hmore) & Hk' & Hi').
    fold (run_appends calls (try_append s c)) in *.
    split; [|split; assumption].
    exists (new ++ more). rewrite Hmore, Hnew, app_assoc. reflexivity.
Qed.

(** X12: the reducer writes projections only: whatever the event, a run of
    [apply_event] that returns leaves the episodes, the artifacts, the
    evidence references, the event log and the files as they were. *)
Theorem reducer_writes_projections_only eid ep ty p ts s u s' :
  apply_event eid ep ty p ts s = Ok (u, s') ->
  episodes s' = episodes s /\ artifacts s' = artifacts s
  /\ evidence_refs s' = evidence_refs s /\ memory_events s' = memory_events s
  /\ files s' = files s.
Proof.
  intros Hrun. pose proof (apply_event_keeps_canon _ _ _ _ _ _ _ _ Hrun) as Hc.
  unfold canon in Hc. injection Hc as -> -> -> -> -> _. repeat split.
Qed.

End LogProperties.

Lemma append_event_needs_episode_witness :
  (Engine.find_by_key (Engine.memory_events Engine.empty_store) "k1" = None ->
   Engine.append_event (H := example_platform) "ep1" "episode_recorded"
     (Engine.PayEpisodeRecorded "ep1" "h") "k1" "cli" "v1" true Engine.empty_store
   = Engine.Raise (Engine.IntegrityError "FOREIGN KEY constraint failed"))
  /\ (forall r s',
        Engine.append_event (H := example_platform) "ep1" "episode_recorded"
          (Engine.PayEpisodeRecorded "ep1" "h") "k1" "cli" "v1" true Engine.empty_store
        = Engine.Ok (r, s') ->
        Engine.r_inserted r = false /\ s' = Engine.empty_store).
Proof.
  apply (append_event_needs_episode (H := example_platform) Engine.empty_store "ep1").
  reflexivity.
Defined.

Lemma event_log_append_only_witness :
  let s' := Engine.run_appends (H := example_platform) Engine.example_calls
              Engine.one_episode_store in
  (exists new, Engine.memory_events s'
               = Engine.memory_events Engine.one_episode_store ++ new)
  /\ Engine.keys_distinct s'
  /\ List.NoDup (map Engine.me_event_id (Engine.memory_events s')).
Proof.
  apply (event_log_append_only (H := example_platform) Engine.one_episode_store
           Engine.example_calls); constructor.
Defined.

Lemma reducer_writes_projections_only_witness :
  exists s',
    Engine.apply_event (H := example_platform) 1 "ep1" "outcome_recorded"
      (Engine.PayOutcomeRecorded "success" [] []) "2026-01-01 00:00:00"
      Engine.one_episode_store = Engine.Ok (tt, s')
    /\ Engine.episodes s' = Engine.episodes Engine.one_episode_store
    /\ Engine.artifacts s' = Engine.artifacts Engine.one_episode_store
    /\ Engine.evidence_refs s' = Engine.evidence_refs Engine.one_episode_store
    /\ Engine.memory_events s' = Engine.memory_events Engine.one_episode_store
    /\ Engine.files s' = Engine.files Engine.one_episode_store.
Proof.
  destruct (Engine.apply_event (H := example_platform) 1 "ep1" "outcome_recorded"
              (Engine.PayOutcomeRecorded "success" [] []) "2026-01-01 00:00:00"
              Engine.one_episode_store) as [[[] s']|e] eqn:Hrun.
  - exists s'. split; [reflexivity|].
    exact (reducer_writes_projections_only (H := example_platform) _ _ _ _ _ _ _ _ Hrun).
  - vm_compute in Hrun. discriminate.
Defined.
(** ** Disputes: refusals and repetition *)

Section DisputeProperties.
Import Engine.
Context `{Platform}.

(** X13: what [record_dispute] refuses: an evidence reference that is not
    stored raises [ValueError]; a new dispute against a card that is not
    stored raises the foreign key error of the disputes table, so no
    dispute is ever stored for a card that does not exist. *)
Theorem record_dispute_refusals s ep cid ev prod :
  (evidence_exists s ev = false ->
   record_dispute ep cid ev prod s
   = Raise (ValueError ("Evidence ref not found: " ++ ev)))
  /\ (evidence_exists s ev = true -> episode_exists s ep = true ->
      card_exists s cid = false ->
      find_by_key (memory_events s) (dispute_key cid ev) = None ->
      record_dispute ep cid ev prod s
      = Raise (IntegrityError "FOREIGN KEY constraint failed")).
Proof.
  split.
  - intros Hev. unfold record_dispute, bind, get_store.
    destruct (select_one _ (evidence_refs s)) as [ref|] eqn:Href; [|reflexivity].
    unfold select_one in Href. apply find_some in Href as [Hin Hid].
    unfold evidence_exists in Hev.
    assert (existsb (fun r => ev_evidence_ref_id r =s? ev) (evidence_refs s) = true) as Hex
      by (apply existsb_exists; eauto).
    congruence.
  - intros Hev Hep Hcard Hfresh.
    destruct (evidence_exists_select _ _ Hev) as [ref Href].
    unfold record_dispute. unfold bind at 1, get_store. rewrite Href.
    unfold bind at 1. rewrite (append_event_fresh _ _ _ _ _ _ _ _ Hfresh Hep). cbn zeta.
    set (e := new_event s ep "dispute_recorded" _ _ prod RULE_VERSION).
    change (apply_event (me_event_id e) ep "dispute_recorded"
              (PayDisputeRecorded (deterministic_id "disp" [cid; ev]) cid ev
                 (dispute_weight (ev_ref_kind ref))) (me_created_at e))
      with (bind (event_timestamp (me_created_at e)) (fun event_ts =>
              handle_dispute_recorded (me_event_id e)
                (PayDisputeRecorded (deterministic_id "disp" [cid; ev]) cid ev
                   (dispute_weight (ev_ref_kind ref))) event_ts)).
    destruct (event_timestamp_ok (me_created_at e) (logged s e)) as (ts' & s0 & Hts).
    assert (cards s0 = cards s) as Hc0.
    { rewrite (event_timestamp_keeps cards _ (fun n s => ltac:(destruct s; reflexivity))
                 _ _ _ Hts).
      apply logged_cards. }
    unfold bind at 1. rewrite Hts. unfold handle_dispute_recorded, bind, get_store.
    unfold card_exists in *. rewrite Hc0, Hcard. reflexivity.
Qed.


Lemma record_dispute_settled s ep cid ev prod ref :
  select_one (fun r => ev_evidence_ref_id r =s? ev) (evidence_refs s) = Some ref ->
  logged_key s (dispute_key cid ev) ->
  (forall card, find_card s cid = Some card ->
     PrimFloat.leb (dispute_threshold (c_scope_tier card)) (dispute_mass s cid)
     && (c_status card =s? "active") = true ->
     logged_key s (status_key cid (c_scope_tier card))) ->
  exists r', record_dispute ep cid ev prod s = Ok (r', s)
             /\ dr_dispute_id r' = deterministic_id "disp" [cid; ev].
Proof.
  intros Href Hkey Hstatus.
  unfold record_dispute. unfold bind at 1, get_store. rewrite Href.
  destruct (append_event_settled s ep "dispute_recorded"
              (PayDisputeRecorded (deterministic_id "disp" [cid; ev]) cid ev
                 (dispute_weight (ev_ref_kind ref)))
              (dispute_key cid ev) prod RULE_VERSION true Hkey) as [r1 Hone].
  unfold bind at 1. rewrite Hone. unfold bind at 1, get_store.
  destruct (find_card s cid) as [card|] eqn:Hcard; [|eexists; split; reflexivity].
  destruct (PrimFloat.leb (dispute_threshold (c_scope_tier card)) (dispute_mass s cid)
            && (c_status card =s? "active")) eqn:Hch.
  - destruct (append_event_settled s ep "card_status_changed"
                (PayCardStatusChanged cid "active" "needs_recheck"
                   "dispute_threshold_exceeded" (dispute_mass s cid)
                   (dispute_threshold (c_scope_tier card)))
                (status_key cid (c_scope_tier card)) prod RULE_VERSION true
                (Hstatus card eq_refl Hch)) as [r2 Htwo].
    unfold bind. rewrite Htwo. eexists; split; reflexivity.
  - eexists; split; reflexivity.
Qed.

(** X14: recording the same dispute again changes nothing: when
    [record_dispute] has returned, the same call on the store it left
    returns the same dispute id and leaves that store as it is, with no
    new event and no change of the mass or of the card. *)
Theorem record_dispute_repeat_is_noop s ep cid ev prod r s1 :
  record_dispute ep cid ev prod s = Ok (r, s1) ->
  exists r', record_dispute ep cid ev prod s1 = Ok (r', s1)
             /\ dr_dispute_id r' = dr_dispute_id r.
Proof.
  intros Hrun. unfold record_dispute in Hrun. unfold bind at 1, get_store in Hrun.
  destruct (select_one _ (evidence_refs s)) as [ref|] eqn:Href; [|discriminate].
  unfold bind at 1 in Hrun.
  destruct (append_event ep "dispute_recorded" _ _ prod RULE_VERSION true s)
    as [[r1 t]|err] eqn:Hone; [|discriminate].
  destruct (append_event_effect _ _ _ _ _ _ _ _ _ _ Hone) as (Hsrc1 & Hmono1 & Hkey1).
  destruct (sources_fields _ _ Hsrc1) as (_ & _ & Hv1 & _ & _).
  unfold bind at 1, get_store in Hrun.
  destruct (find_card t cid) as [card|] eqn:Hcard.
  - destruct (PrimFloat.leb (dispute_threshold (c_scope_tier card)) (dispute_mass t cid)
              && (c_status card =s? "active")) eqn:Hch.
    + unfold bind in Hrun.
      destruct (append_event ep "card_status_changed" _ _ prod RULE_VERSION true t)
        as [[r2 s2]|err] eqn:Htwo; [|discriminate].
      unfold ret in Hrun. injection Hrun as <- <-.
      destruct (append_event_effect _ _ _ _ _ _ _ _ _ _ Htwo) as (Hsrc2 & Hmono2 & Hkey2).
      destruct (sources_fields _ _ Hsrc2) as (_ & _ & Hv2 & _ & _).
      destruct (record_dispute_settled s2 ep cid ev prod ref) as (r' & Hagain & Hid).
      * rewrite Hv2, Hv1. exact Href.
      * auto.
      * intros card' Hcard' Hch'.
        destruct (append_event_inv _ _ _ _ _ _ _ _ _ _ Htwo)
          as [(row & _ & _ & ->)|(_ & _ & _ & Happ)].
        -- assert (card' = card) by congruence. subst card'. exact Hkey2.
        -- destruct (apply_recheck_run
                       (me_event_id (new_event t ep "card_status_changed"
                          (PayCardStatusChanged cid "active" "needs_recheck"
                             "dispute_threshold_exceeded" (dispute_mass t cid)
                             (dispute_threshold (c_scope_tier card)))
                          (status_key cid (c_scope_tier card)) prod RULE_VERSION))
                       ep cid "dispute_threshold_exceeded" (dispute_mass t cid)
                       (dispute_threshold (c_scope_tier card))
                       (me_created_at (new_event t ep "card_status_changed"
                          (PayCardStatusChanged cid "active" "needs_recheck"
                             "dispute_threshold_exceeded" (dispute_mass t cid)
                             (dispute_threshold (c_scope_tier card)))
                          (status_key cid (c_scope_tier card)) prod RULE_VERSION))
                       (logged t (new_event t ep "card_status_changed"
                          (PayCardStatusChanged cid "active" "needs_recheck"
                             "dispute_threshold_exceeded" (dispute_mass t cid)
                             (dispute_threshold (c_scope_tier card)))
                          (status_key cid (c_scope_tier card)) prod RULE_VERSION))
                       card) as (s' & Hrun' & Hcard2 & _).
           { unfold find_card. rewrite logged_cards. exact Hcard. }
           rewrite Happ in Hrun'. injection Hrun' as <-.
           rewrite Hcard2 in Hcard'. injection Hcard' as <-.
           cbn [c_status with_status] in Hch'.
           rewrite andb_false_r in Hch'. discriminate.
      * exists r'. split; [exact Hagain|exact Hid].
    + unfold bind, ret in Hrun. injection Hrun as <- <-.
      destruct (record_dispute_settled t ep cid ev prod ref) as (r' & Hagain & Hid).
      * rewrite Hv1. exact Href.
      * exact Hkey1.
      * intros card' Hcard' Hch'. congruence.
      * exists r'. split; [exact Hagain|exact Hid].
  - unfold ret in Hrun. injection Hrun as <- <-.
    destruct (record_dispute_settled t ep cid ev prod ref) as (r' & Hagain & Hid).
    + rewrite Hv1. exact Href.
    + exact Hkey1.
    + intros card' Hcard'. congruence.
    + exists r'. split; [exact Hagain|exact Hid].
Qed.

End DisputeProperties.

Lemma record_dispute_refusals_witness :
  Engine.record_dispute (H := example_platform) "ep1" "c1" "ev9" "cli" Engine.dispute_store
  = Engine.Raise (Engine.ValueError "Evidence ref not found: ev9")
  /\ Engine.record_dispute (H := example_platform) "ep1" "c9" "ev1" "cli" Engine.dispute_store
     = Engine.Raise (Engine.IntegrityError "FOREIGN KEY constraint failed").
Proof.
  split.
  - apply (proj1 (record_dispute_refusals (H := example_platform) Engine.dispute_store
                    "ep1" "c1" "ev9" "cli")).
    reflexivity.
  - apply (proj2 (record_dispute_refusals (H := example_platform) Engine.dispute_store
                    "ep1" "c9" "ev1" "cli")); reflexivity.
Defined.

Lemma record_dispute_repeat_is_noop_witness :
  exists r s1 r',
    Engine.record_dispute (H := example_platform) "ep1" "c1" "ev1" "cli" Engine.dispute_store
    = Engine.Ok (r, s1)
    /\ Engine.record_dispute (H := example_platform) "ep1" "c1" "ev1" "cli" s1
       = Engine.Ok (r', s1)
    /\ Engine.dr_dispute_id r' = Engine.dr_dispute_id r.
Proof.
  destruct (Engine.record_dispute (H := example_platform) "ep1" "c1" "ev1" "cli"
              Engine.dispute_store) as [[r s1]|e] eqn:Hrun.
  - destruct (record_dispute_repeat_is_noop (H := example_platform) _ _ _ _ _ _ _ Hrun)
      as (r' & Hagain & Hid).
    exists r, s1, r'. split; [reflexivity|]. split; [exact Hagain|exact Hid].
  - exfalso.
    destruct (record_dispute_step (H := example_platform) Engine.dispute_store "ep1" "c1"
                "ev1" "cli" Engine.example_card eq_refl eq_refl eq_refl)
      as (r & s' & Hok & _).
    congruence.
Defined.
(** ** The utility projection: rows and bounds *)

Section UtilityProperties.
Import Engine.










Lemma sum_Z_le {A} (f g : A -> Z) (l : list A) :
  (forall x, In x l -> (f x <= g x)%Z) -> (sum_Z (map f l) <= sum_Z (map g l))%Z.
Proof.
  induction l as [|x l IH]; intros Hle; [reflexivity|].
  unfold sum_Z in *. cbn [map fold_right].
  specialize (IH (fun y Hy => Hle y (or_intror Hy))).
  specialize (Hle x (or_introl eq_refl)). lia.
Qed.

Lemma filter_length_le {A} (p q : A -> bool) (l : list A) :
  (forall x, In x l -> p x = true -> q x = true) ->
  length (List.filter p l) <= length (List.filter q l).
Proof.
  induction l as [|x l IH]; intros Hpq; [reflexivity|].
  specialize (IH (fun y Hy => Hpq y (or_intror Hy))).
  specialize (Hpq x (or_introl eq_refl)).
  cbn [List.filter]. destruct (p x); [rewrite Hpq by reflexivity|destruct (q x)]; cbn; lia.
Qed.

Lemma filter_filter_length {A} (p q : A -> bool) (l : list A) :
  length (List.filter p (List.filter q l)) = length (List.filter (fun x => p x && q x) l).
Proof.
  induction l as [|x l IH]; [reflexivity|].
  cbn [List.filter]. destruct (q x); cbn [List.filter]; rewrite ?andb_true_r, ?andb_false_r;
    [destruct (p x); cbn; rewrite IH; reflexivity|exact IH].
Qed.

Lemma filter_firstn_length {A} (p : A -> bool) n (l : list A) :
  length (List.filter p (firstn n l)) <= length (List.filter p l).
Proof.
  revert n. induction l as [|x l IH]; intros [|n]; cbn [firstn List.filter]; try lia.
  - cbn. lia.
  - specialize (IH n). destruct (p x); cbn; lia.
Qed.

Lemma filter_perm_length {A} (p : A -> bool) (l l' : list A) :
  Permutation l l' -> length (List.filter p l) = length (List.filter p l').
Proof.
  induction 1 as [|x l l' _ IH|x y l|l l' l'' _ IH1 _ IH2]; cbn [List.filter].
  - reflexivity.
  - destruct (p x); cbn; rewrite IH; reflexivity.
  - destruct (p x), (p y); reflexivity.
  - congruence.
Qed.

(** An episode credits a card at most as often as the card was exposed in it. *)
Lemma credited_le s ep cid :
  credited s ep cid
  <= length (List.filter
               (fun e => (x_episode_id e =s? ep)
                         && ((x_card_id e =s? cid) && is_tactic s (x_card_id e)))
               (exposures s)).
Proof.
  unfold credited, eligible.
  destruct (anchored_present _); [|cbn; lia].
  destruct (first_terminal_seq _) as [q|]; [|cbn; lia].
  cbn [snd]. etransitivity; [apply filter_firstn_length|].
  unfold exposure_rows. rewrite (filter_perm_length _ _ _ (sort_by_perm _ _)).
  rewrite filter_filter_length. apply filter_length_le.
  intros e _ Hp. apply andb_prop in Hp as [Hcid Hp].
  apply andb_prop in Hp as [Hp _]. apply andb_prop in Hp as [Hp Htac].
  apply andb_prop in Hp as [Hep _]. rewrite Hep, Hcid, Htac. reflexivity.
Qed.

Lemma episode_sum_le (p : exposure_row -> bool) (l : list exposure_row) eps :
  List.NoDup eps ->
  (sum_Z (map (fun ep => Z.of_nat (length (List.filter
                            (fun e => (x_episode_id e =s? ep) && p e) l))) eps)
   <= Z.of_nat (length (List.filter p l)))%Z.
Proof.
  intros Hnd. induction l as [|e l IH].
  - cbn [List.filter length]. rewrite sum_Z_zero; [reflexivity|].
    apply List.Forall_forall. intros x Hx. apply in_map_iff in Hx. destruct Hx as (? & <- & _).
    reflexivity.
  - assert (sum_Z (map (fun ep => Z.of_nat (length (List.filter
                             (fun x => (x_episode_id x =s? ep) && p x) (e :: l)))) eps)
            = (sum_Z (map (fun ep => if (x_episode_id e =s? ep) && p e then 1 else 0) eps)
               + sum_Z (map (fun ep => Z.of_nat (length (List.filter
                             (fun x => (x_episode_id x =s? ep) && p x) l))) eps))%Z) as ->.
    { clear. induction eps as [|ep eps IH]; [reflexivity|].
      unfold sum_Z in *. cbn [map fold_right]. rewrite IH. cbn [List.filter].
      destruct ((x_episode_id e =s? ep) && p e); cbn [length]; lia. }
    assert (sum_Z (map (fun ep => if (x_episode_id e =s? ep) && p e then 1 else 0) eps)
            <= (if p e then 1 else 0))%Z as Hone.
    { clear IH. induction Hnd as [|ep eps Hnot _ IHnd]; [cbn; destruct (p e); lia|].
      unfold sum_Z in *. cbn [map fold_right].
      destruct (x_episode_id e =s? ep) eqn:Hep; cbn [andb].
      - apply String.eqb_eq in Hep. subst ep.
        assert (fold_right Z.add 0%Z
                  (map (fun ep => if (x_episode_id e =s? ep) && p e then 1 else 0) eps) = 0)%Z
          as ->.
        { apply (sum_Z_zero _). apply List.Forall_forall. intros x Hx.
          apply in_map_iff in Hx. destruct Hx as (ep' & <- & Hin).
          destruct (x_episode_id e =s? ep') eqn:Heq; [|reflexivity].
          apply String.eqb_eq in Heq. subst ep'. contradiction. }
        destruct (p e); lia.
      - exact IHnd. }
    cbn [List.filter]. destruct (p e); cbn [length]; lia.
Qed.

Lemma flagged_sum (f : string -> nat) (flag : string -> bool) (eps : list string) :
  (0 <= sum_Z (map (fun ep => if flag ep then Z.of_nat (f ep) else 0%Z) eps)
   <= sum_Z (map (fun ep => Z.of_nat (f ep)) eps))%Z.
Proof.
  induction eps as [|ep eps IH]; [cbn; lia|].
  unfold sum_Z in *. cbn [map fold_right]. destruct (flag ep); lia.
Qed.

(** X16: wins and losses are backed by exposures: after
    [recompute_utility_projection] no card has more wins, or more losses,
    than the reuse count that stands for its exposures, and none is
    negative. *)
Theorem utility_counts_bounded_by_reuse (s : store) (cid : string) :
  let u := stat_of (utility_stats (recompute_utility_projection s)) cid in
  (0 <= u_wins u <= u_reuse u)%Z /\ (0 <= u_losses u <= u_reuse u)%Z.
Proof.
  assert (utility_stats (recompute_utility_projection s)
          = fold_left (attribute_episode s) (outcome_episodes s) (reuse_stats s)) as Hstats
    by (destruct s; reflexivity).
  cbn zeta. rewrite Hstats.
  destruct (attribute_episodes s (outcome_episodes s) cid (reuse_stats s)) as (Hw & Hl & Hr).
  destruct (reuse_stats_stat s cid) as (Hw0 & Hl0 & Hr0).
  rewrite Hw, Hl, Hr, Hw0, Hl0, Hr0.
  assert (sum_Z (map (fun ep => Z.of_nat (credited s ep cid)) (outcome_episodes s))
          <= reuse_owed s cid)%Z as Hbound.
  { etransitivity.
    - apply (sum_Z_le _ (fun ep => Z.of_nat (length (List.filter
                 (fun e => (x_episode_id e =s? ep)
                           && ((x_card_id e =s? cid) && is_tactic s (x_card_id e)))
                 (exposures s))))).
      intros ep _. cbn beta. apply Nat2Z.inj_le. apply credited_le.
    - etransitivity; [apply episode_sum_le; apply NoDup_nodup|].
      unfold reuse_owed. rewrite filter_filter_length. reflexivity. }
  pose proof (fun flag => flagged_sum (fun ep => credited s ep cid) flag (outcome_episodes s))
    as Hflag.
  pose proof (Hflag (fun ep => success_signal (fst (eligible s ep)))) as Hwin.
  pose proof (Hflag (fun ep => failure_signal (fst (eligible s ep)))) as Hloss.
  cbn beta in Hwin, Hloss. lia.
Qed.

End UtilityProperties.
(** ** Consolidation: candidates and gates *)

Section ConsolidateProperties.
Import Engine.
Context `{Platform}.

Lemma candidate_kind_cases ref_kind text :
  In (candidate_kind ref_kind text) KINDS
  /\ (is_in (candidate_kind ref_kind text) NORMATIVE_KINDS = true -> ref_kind = "user_span")
  /\ (candidate_kind ref_kind text = "tactic" ->
      ref_kind = "tool_output" \/ ref_kind = "doc_span")
  /\ (candidate_kind ref_kind text = "negative_result" ->
      ref_kind = "tool_output" /\ Text.contains_failure_signal text = true).
Proof.
  unfold candidate_kind.
  destruct (ref_kind =s? "user_span") eqn:Hu;
    [apply String.eqb_eq in Hu|
     destruct (ref_kind =s? "tool_output") eqn:Ht;
       [apply String.eqb_eq in Ht|
        destruct (ref_kind =s? "doc_span") eqn:Hd; [apply String.eqb_eq in Hd|]]];
    repeat match goal with
           | |- context [if ?b then _ else _] => destruct b eqn:?
           end;
    cbn; repeat split; intros; try discriminate; auto 10.
Qed.

Lemma candidates_from_shape ep tier sid rows : forall start c,
  In c (candidates_from ep tier sid start rows) ->
  exists row,
    In row rows
    /\ cand_statement c = Text.normalize_statement (ev_excerpt_text row)
    /\ cand_statement c <> EmptyString
    /\ cand_kind c = candidate_kind (ev_ref_kind row) (cand_statement c)
    /\ cand_evidence_ref_ids c = [ev_evidence_ref_id row]
    /\ cand_scope_tier c = tier /\ cand_scope_id c = sid
    /\ cand_topic_key c = Text.topic_key (cand_statement c).
Proof.
  induction rows as [|row rows IH]; intros start c Hin; [destruct Hin|].
  cbn [candidates_from] in Hin.
  destruct (truthy (Text.normalize_statement (ev_excerpt_text row))) eqn:Htext.
  - destruct Hin as [<-|Hin].
    + exists row. cbn. repeat split; auto.
      intros Hempty. unfold truthy in Htext. rewrite Hempty in Htext. discriminate.
    + destruct (IH _ _ Hin) as (r & Hr & Hrest). exists r. split; [right; exact Hr|exact Hrest].
  - destruct (IH _ _ Hin) as (r & Hr & Hrest). exists r. split; [right; exact Hr|exact Hrest].
Qed.

(** X17: what [generate_candidates] makes of the evidence rows: every
    candidate comes from one row with a non-blank excerpt, has the
    normalized excerpt as statement, that row as its only evidence, the
    given scope and the topic key of its statement; its kind is one of the
    six; a preference, constraint or commitment comes from a user span
    only, a tactic from a tool output or a document span only, and a
    negative result from a tool output whose text shows a failure signal. *)
Theorem generate_candidates_classified ep tier sid rows c :
  In c (generate_candidates ep tier sid rows) ->
  exists row,
    In row rows
    /\ cand_statement c = Text.normalize_statement (ev_excerpt_text row)
    /\ cand_statement c <> EmptyString
    /\ cand_evidence_ref_ids c = [ev_evidence_ref_id row]
    /\ cand_scope_tier c = tier /\ cand_scope_id c = sid
    /\ cand_topic_key c = Text.topic_key (cand_statement c)
    /\ In (cand_kind c) KINDS
    /\ (is_in (cand_kind c) NORMATIVE_KINDS = true -> ev_ref_kind row = "user_span")
    /\ (cand_kind c = "tactic" ->
        ev_ref_kind row = "tool_output" \/ ev_ref_kind row = "doc_span")
    /\ (cand_kind c = "negative_result" ->
        ev_ref_kind row = "tool_output"
        /\ Text.contains_failure_signal (cand_statement c) = true).
Proof.
  intros Hin. destruct (candidates_from_shape _ _ _ _ _ _ Hin)
    as (row & Hrow & Hst & Hne & Hkind & Hev & Htier & Hsid & Htopic).
  exists row. rewrite Hkind.
  destruct (candidate_kind_cases (ev_ref_kind row) (cand_statement c)) as (Hk & Hn & Ht & Hr).
  repeat split; auto; apply Hr; assumption.
Qed.

Lemma episode_evidence_stored s ep row :
  In row (episode_evidence s ep) -> In row (evidence_refs s).
Proof.
  unfold episode_evidence. intros Hin.
  apply (Permutation_in _ (sort_by_perm _ _)) in Hin.
  apply List.filter_In in Hin. exact (proj1 Hin).
Qed.

Lemma evidence_kinds_own s row :
  In row (evidence_refs s) ->
  is_in (ev_ref_kind row) (evidence_kinds s [ev_evidence_ref_id row]) = true.
Proof.
  intros Hin. unfold is_in, evidence_kinds. apply mem_string_In. apply in_map.
  apply List.filter_In. split; [exact Hin|].
  unfold is_in, Text.mem_string. cbn [existsb]. rewrite String.eqb_refl. reflexivity.
Qed.

(** X18: the evidence invariant never fails on the engine's own
    candidates: every candidate that [generate_candidates] derives from
    the stored evidence of an episode passes
    [validate_evidence_invariant]. *)
Theorem generated_candidates_pass_invariant s ep tier sid c :
  In c (generate_candidates ep tier sid (episode_evidence s ep)) ->
  validate_evidence_invariant c s = (true, "ok").
Proof.
  intros Hin. destruct (candidates_from_shape _ _ _ _ _ _ Hin)
    as (row & Hrow & Hst & Hne & Hkind & Hev & _).
  apply episode_evidence_stored in Hrow.
  pose proof (evidence_kinds_own s row Hrow) as Hown.
  destruct (candidate_kind_cases (ev_ref_kind row) (cand_statement c)) as (Hk & Hn & Ht & Hr).
  rewrite <- Hkind in Hk, Hn, Ht, Hr.
  unfold validate_evidence_invariant. rewrite Hev.
  destruct (is_in (cand_kind c) ["preference"; "constraint"; "commitment"]) eqn:Hnorm.
  { rewrite (Hn Hnorm) in Hown. rewrite Hown. reflexivity. }
  destruct (cand_kind c =s? "tactic") eqn:Htac.
  { apply String.eqb_eq in Htac. destruct (Ht Htac) as [Hk'|Hk']; rewrite Hk' in Hown;
      rewrite Hown, ?orb_true_r; reflexivity. }
  destruct (cand_kind c =s? "negative_result") eqn:Hneg.
  { apply String.eqb_eq in Hneg. destruct (Hr Hneg) as [Hk' Hsig]. rewrite Hk' in Hown.
    rewrite Hown. cbn [negb].
    unfold Text.contains_failure_signal in *. rewrite lower_twice, Hsig. reflexivity. }
  destruct (cand_kind c =s? "fact"); [|reflexivity].
  destruct (evidence_kinds s [ev_evidence_ref_id row]); [discriminate Hown|reflexivity].
Qed.

End ConsolidateProperties.

Lemma generate_candidates_classified_witness :
  let rows := Engine.episode_evidence Engine.consolidation_store "ep1" in
  let c := nth 2 (Engine.generate_candidates (H := example_platform) "ep1" "repo" "default" rows)
               Engine.blank_candidate in
  exists row,
    In row rows
    /\ Engine.cand_statement c = Text.normalize_statement (Engine.ev_excerpt_text row)
    /\ Engine.cand_statement c <> EmptyString
    /\ Engine.cand_evidence_ref_ids c = [Engine.ev_evidence_ref_id row]
    /\ Engine.cand_scope_tier c = "repo" /\ Engine.cand_scope_id c = "default"
    /\ Engine.cand_topic_key c = Text.topic_key (Engine.cand_statement c)
    /\ In (Engine.cand_kind c) Engine.KINDS
    /\ (Engine.is_in (Engine.cand_kind c) Engine.NORMATIVE_KINDS = true ->
        Engine.ev_ref_kind row = "user_span")
    /\ (Engine.cand_kind c = "tactic" ->
        Engine.ev_ref_kind row = "tool_output" \/ Engine.ev_ref_kind row = "doc_span")
    /\ (Engine.cand_kind c = "negative_result" ->
        Engine.ev_ref_kind row = "tool_output"
        /\ Text.contains_failure_signal (Engine.cand_statement c) = true).
Proof.
  intros rows c.
  apply (generate_candidates_classified (H := example_platform) "ep1" "repo" "default" rows c).
  subst c rows. vm_compute. right. right. left. reflexivity.
Defined.

Lemma generated_candidates_pass_invariant_witness :
  Engine.validate_evidence_invariant
    (nth 1 (Engine.generate_candidates (H := example_platform) "ep1" "repo" "default"
              (Engine.episode_evidence Engine.consolidation_store "ep1"))
           Engine.blank_candidate)
    Engine.consolidation_store
  = (true, "ok").
Proof.
  apply (generated_candidates_pass_invariant (H := example_platform)
           Engine.consolidation_store "ep1" "repo" "default").
  vm_compute. right. left. reflexivity.
Defined.

Example consolidation_kinds :
  map (fun c => (Engine.cand_kind c, Engine.cand_statement c))
    (Engine.generate_candidates (H := example_platform) "ep1" "repo" "default"
       (Engine.episode_evidence Engine.consolidation_store "ep1"))
  = [("constraint", "We must always pin versions.");
     ("tactic", "Command succeeded.");
     ("negative_result", "Command succeeded. timeout after 30s")].
Proof. vm_compute. reflexivity. Qed.

Section NegativeResultGate.
Import Engine.
Context `{Platform}.



End NegativeResultGate.



Section BestMatch.
Import Engine.

Lemma best_from cand rows : forall b0,
  exists b, fold_left (best_step cand) rows (Some b0) = Some b
            /\ (b = b0 \/ exists r, In r rows /\ b = match_of cand r)
            /\ (bm_score b0 <= bm_score b)%R
            /\ (forall r, In r rows -> (bm_score (match_of cand r) <= bm_score b)%R).
Proof.
  induction rows as [|r rows IH]; intros b0.
  - exists b0. cbn. repeat split; [left; reflexivity|lra|intros r []].
  - cbn [fold_left best_step].
    destruct (Rgt_dec (bm_score (match_of cand r)) (bm_score b0)) as [Hgt|Hle].
    + destruct (IH (match_of cand r)) as (b & Hb & Hfrom & Hge & Hall).
      exists b. split; [exact Hb|]. split; [|split].
      * right. destruct Hfrom as [->|(r' & Hin & ->)]; [exists r|exists r']; split; auto;
          [left; reflexivity|right; exact Hin].
      * lra.
      * intros r' [<-|Hin]; [exact Hge|exact (Hall r' Hin)].
    + destruct (IH b0) as (b & Hb & Hfrom & Hge & Hall).
      exists b. split; [exact Hb|]. split; [|split].
      * destruct Hfrom as [->|(r' & Hin & ->)]; [left; reflexivity|].
        right. exists r'. split; [right; exact Hin|reflexivity].
      * exact Hge.
      * intros r' [<-|Hin]; [lra|exact (Hall r' Hin)].
Qed.


End BestMatch.

(** ** Consolidation: the episode loop *)

Section LoopProperties.
Import Engine.
Context `{Platform}.

Ltac run_bind H :=
  let a := fresh "a" in let s1 := fresh "s" in let H1 := fresh "Hrun" in
  apply bind_ok in H; destruct H as (a & s1 & H1 & H).

Lemma ret_ok {A} (a b : A) (s s' : store) : ret a s = Ok (b, s') -> b = a /\ s' = s.
Proof. unfold ret. intros Heq. injection Heq as <- <-. split; reflexivity. Qed.

Lemma tallied_rejected t : tallied 1 t (one_rejected t).
Proof. unfold tallied, decided, one_rejected. cbn. lia. Qed.

Lemma tallied_merged t : tallied 1 t (one_merged t).
Proof. unfold tallied, decided, one_merged. cbn. lia. Qed.

Lemma tallied_admitted k t : tallied 1 t (one_admitted k t).
Proof. unfold tallied, decided, one_admitted. cbn. lia. Qed.

Lemma tallied_superseded k t : tallied 1 t (one_superseded (one_admitted k t)).
Proof. unfold tallied, decided, one_superseded, one_admitted. cbn. lia. Qed.

Lemma reject_tally ep cand reason details prod t t' s s' :
  (append_reject ep cand reason details prod ;;; ret (one_rejected t)) s = Ok (t', s') ->
  tallied 1 t t'.
Proof.
  intros Hrun. run_bind Hrun. apply ret_ok in Hrun as [-> _]. apply tallied_rejected.
Qed.

Lemma merge_or_admit_tally ep prod t cand t' s s' :
  merge_or_admit ep prod t cand s = Ok (t', s') -> tallied 1 t t'.
Proof.
  unfold merge_or_admit. intros Hrun. run_bind Hrun.
  destruct (is_truthy (find_exact_merge_target cand a)).
  - run_bind Hrun. apply ret_ok in Hrun as [-> _]. apply tallied_merged.
  - run_bind Hrun. destruct (is_truthy (find_supersede_target cand a)).
    + run_bind Hrun. run_bind Hrun. apply ret_ok in Hrun as [-> _]. apply tallied_superseded.
    + apply ret_ok in Hrun as [-> _]. apply tallied_admitted.
Qed.

Lemma check_caps_tally ep prod t cand t' s s' :
  check_caps ep prod t cand s = Ok (t', s') -> tallied 1 t t'.
Proof.
  unfold check_caps. intros Hrun.
  destruct (EPISODE_KIND_CAPS (cand_kind cand)) as [cap|]; [|discriminate].
  destruct (cap <=? _); [exact (reject_tally _ _ _ _ _ _ _ _ _ Hrun)|].
  destruct (EPISODE_SOFT_CAP <=? _); [exact (reject_tally _ _ _ _ _ _ _ _ _ Hrun)|].
  run_bind Hrun.
  destruct (BUDGET_CAPS _ _) as [budget|]; [|discriminate].
  destruct (budget <=? _); [exact (reject_tally _ _ _ _ _ _ _ _ _ Hrun)|].
  exact (merge_or_admit_tally _ _ _ _ _ _ _ Hrun).
Qed.

Lemma consolidate_candidate_tally ep prod t cand t' s s' :
  consolidate_candidate ep prod t cand s = Ok (t', s') -> tallied 1 t t'.
Proof.
  unfold consolidate_candidate. intros Hrun. run_bind Hrun. run_bind Hrun.
  destruct (negb (fst (validate_evidence_invariant cand a0)));
    [exact (reject_tally _ _ _ _ _ _ _ _ _ Hrun)|].
  destruct (find_best_similarity_match cand a0) as [best|];
    [|exact (check_caps_tally _ _ _ _ _ _ _ Hrun)].
  destruct (is_duplicate best); [exact (reject_tally _ _ _ _ _ _ _ _ _ Hrun)|].
  destruct (lacks_novelty best); [exact (reject_tally _ _ _ _ _ _ _ _ _ Hrun)|].
  exact (check_caps_tally _ _ _ _ _ _ _ Hrun).
Qed.

Lemma tallied_trans n m t1 t2 t3 : tallied n t1 t2 -> tallied m t2 t3 -> tallied (m + n) t1 t3.
Proof. unfold tallied. intros (? & ? & ? & ? & ? & ?) (? & ? & ? & ? & ? & ?). lia. Qed.

Lemma consolidate_all_tally ep prod cands : forall t t' s s',
  consolidate_all ep prod cands t s = Ok (t', s') -> tallied (length cands) t t'.
Proof.
  induction cands as [|cand cands IH]; intros t t' s s' Hrun.
  - apply ret_ok in Hrun as [-> _]. unfold tallied. cbn. lia.
  - cbn [consolidate_all] in Hrun. run_bind Hrun.
    apply consolidate_candidate_tally in Hrun0. apply IH in Hrun.
    pose proof (tallied_trans _ _ _ _ _ Hrun0 Hrun) as Htot.
    cbn [length]. replace (S (length cands)) with (length cands + 1) by lia. exact Htot.
Qed.


Lemma candidates_from_length ep tier sid rows : forall start,
  length (candidates_from ep tier sid start rows) <= length rows.
Proof.
  induction rows as [|row rows IH]; intros start; [reflexivity|].
  cbn [candidates_from]. specialize (IH (S start)).
  destruct (truthy _); cbn [length]; lia.
Qed.

Lemma select_one_insert_or_replace {A} (same : A -> A -> bool) (row : A) rows
    (p : A -> bool) :
  p row = true -> select_one p (insert_or_replace same row rows) <> None.
Proof.
  intros Hp Hnone. unfold select_one, insert_or_replace in Hnone.
  pose proof (find_none _ _ Hnone row) as Hrow.
  rewrite Hrow in Hp; [discriminate|]. apply in_or_app. right. left. reflexivity.
Qed.

Lemma ledger_set_ledger v s : consolidation_ledger (set_consolidation_ledger v s) = v.
Proof. destruct s; reflexivity. Qed.

Lemma refresh_ledger_row ep s u s' :
  refresh_ledger ep s = Ok (u, s') ->
  select_one (fun r => cl_episode_id r =s? ep) (consolidation_ledger s') <> None.
Proof.
  unfold refresh_ledger. intros Hrun. run_bind Hrun. run_bind Hrun.
  unfold modify in Hrun. injection Hrun as _ <-.
  rewrite ledger_set_ledger. apply select_one_insert_or_replace.
  cbn. apply String.eqb_refl.
Qed.

(** X20: the accounts of [consolidate_episode]: it returns only for a
    recorded episode; every proposed candidate is decided exactly once, so
    proposed = admitted + rejected + merged; no more cards are superseded
    than admitted; there are no more candidates than evidence references
    of the episode; and the ledger row of the episode is returned. *)
Theorem consolidate_episode_accounts ep prod s r s' :
  consolidate_episode ep prod s = Ok (r, s') ->
  episode_exists s ep = true
  /\ cr_episode_id r = ep
  /\ cr_proposed r = cr_admitted r + cr_rejected r + cr_merged r
  /\ cr_superseded r <= cr_admitted r
  /\ cr_proposed r
     <= length (List.filter (fun e => ev_episode_id e =s? ep) (evidence_refs s))
  /\ cr_ledger r <> None.
Proof.
  unfold consolidate_episode. intros Hrun. run_bind Hrun. apply ret_ok in Hrun0 as [-> ->].
  destruct (select_one _ (episodes s)) as [episode|] eqn:Hep; [|discriminate].
  run_bind Hrun. run_bind Hrun. run_bind Hrun. apply ret_ok in Hrun2 as [-> ->].
  apply ret_ok in Hrun as [-> _]. cbn.
  apply consolidate_all_tally in Hrun0. destruct Hrun0 as (Hdec & _ & _ & _ & _ & Hsup).
  unfold decided in Hdec. cbn in Hdec, Hsup.
  split.
  { unfold episode_exists. unfold select_one in Hep. apply find_some in Hep as [Hin Hid].
    apply existsb_exists. eauto. }
  split; [reflexivity|]. split; [lia|]. split; [lia|]. split.
  - rewrite sort_by_length. etransitivity; [apply candidates_from_length|].
    unfold episode_evidence. rewrite sort_by_length. reflexivity.
  - exact (refresh_ledger_row _ _ _ _ Hrun1).
Qed.

End LoopProperties.

Lemma consolidate_episode_accounts_witness :
  exists r s',
    Engine.consolidate_episode (H := example_platform) "ep1" "cli" Engine.consolidation_store
    = Engine.Ok (r, s')
    /\ Engine.episode_exists Engine.consolidation_store "ep1" = true
    /\ Engine.cr_episode_id r = "ep1"
    /\ Engine.cr_proposed r
       = Engine.cr_admitted r + Engine.cr_rejected r + Engine.cr_merged r
    /\ Engine.cr_superseded r <= Engine.cr_admitted r
    /\ Engine.cr_proposed r
       <= length (List.filter (fun e => Engine.ev_episode_id e =s? "ep1")
                    (Engine.evidence_refs Engine.consolidation_store))
    /\ Engine.cr_ledger r <> None.
Proof.
  destruct (Engine.consolidate_episode (H := example_platform) "ep1" "cli"
              Engine.consolidation_store) as [[r s']|e] eqn:Hrun.
  - exists r, s'. split; [reflexivity|].
    exact (consolidate_episode_accounts (H := example_platform) _ _ _ _ _ Hrun).
  - vm_compute in Hrun. discriminate.
Defined.

Example consolidation_scenario :
  match Engine.consolidate_episode (H := example_platform) "ep1" "cli"
          Engine.consolidation_store with
  | Engine.Ok (r, s') =>
      (Engine.cr_proposed r, Engine.cr_admitted r, Engine.cr_rejected r,
       Engine.cr_merged r, Engine.cr_superseded r) = (3, 3, 0, 0, 0)
      /\ map (fun c => (Engine.c_kind c, Engine.c_statement c, Engine.c_status c))
             (Engine.cards s')
         = [("constraint", "We must always pin versions.", "active");
            ("negative_result", "Command succeeded. timeout after 30s", "active");
            ("tactic", "Command succeeded.", "active")]
  | Engine.Raise _ => False
  end.
Proof. vm_compute. split; reflexivity. Qed.

Section AuditTrail.
Import Engine.
Context `{Platform}.

Ltac run_bind H :=
  let a := fresh "a" in let s1 := fresh "s" in let H1 := fresh "Hrun" in
  apply bind_ok in H; destruct H as (a & s1 & H1 & H).

Lemma log_extends_refl s : log_extends s s.
Proof. split; auto. Qed.

Lemma log_extends_trans s1 s2 s3 :
  log_extends s1 s2 -> log_extends s2 s3 -> log_extends s1 s3.
Proof. intros [Ha Hk] [Ha' Hk']. split; [congruence|auto]. Qed.

Lemma append_event_extends s ep ty p k prod rv apply r s' :
  append_event ep ty p k prod rv apply s = Ok (r, s') ->
  log_extends s s' /\ logged_key s' k.
Proof.
  intros Hrun. destruct (append_event_effect _ _ _ _ _ _ _ _ _ _ Hrun) as (Hs & Hm & Hk).
  split; [split; assumption|exact Hk].
Qed.

Lemma reject_extends ep cand reason details prod (t t' : tally) s s' :
  (append_reject ep cand reason details prod ;;; ret t) s = Ok (t', s') ->
  log_extends s s'
  /\ logged_key s' ("card_rejected:" ++ ep ++ ":" ++ candidate_id cand ++ ":" ++ reason).
Proof.
  intros Hrun. run_bind Hrun. apply ret_ok in Hrun as [_ ->].
  unfold append_reject in Hrun0. run_bind Hrun0. apply ret_ok in Hrun0 as [_ ->].
  exact (append_event_extends _ _ _ _ _ _ _ _ _ _ Hrun).
Qed.

Lemma decision_logged_extends ep c s s' :
  log_extends s s' -> decision_logged ep c s -> decision_logged ep c s'.
Proof.
  intros [_ Hk] [(x & Hx)|[(x & Hx)|(x & Hx)]];
    [left|right; left|right; right]; exists x; auto.
Qed.

Lemma merge_or_admit_trail ep prod t cand t' s s' :
  merge_or_admit ep prod t cand s = Ok (t', s') ->
  log_extends s s' /\ decision_logged ep cand s'.
Proof.
  unfold merge_or_admit. intros Hrun. run_bind Hrun. apply ret_ok in Hrun0 as [-> ->].
  destruct (is_truthy (find_exact_merge_target cand s)).
  - run_bind Hrun. apply ret_ok in Hrun as [_ ->].
    destruct (append_event_extends _ _ _ _ _ _ _ _ _ _ Hrun0) as [Hext Hkey].
    split; [exact Hext|]. right. left. eexists. exact Hkey.
  - run_bind Hrun.
    destruct (append_event_extends _ _ _ _ _ _ _ _ _ _ Hrun0) as [Hext Hkey].
    assert (decision_logged ep cand s0) as Hdec by (right; right; eexists; exact Hkey).
    destruct (is_truthy (find_supersede_target cand s)).
    + run_bind Hrun. apply ret_ok in Hrun1 as [-> ->]. run_bind Hrun.
      apply ret_ok in Hrun as [_ ->].
      destruct (append_event_extends _ _ _ _ _ _ _ _ _ _ Hrun1) as [Hext' _].
      split; [exact (log_extends_trans _ _ _ Hext Hext')|].
      exact (decision_logged_extends _ _ _ _ Hext' Hdec).
    + apply ret_ok in Hrun as [_ ->]. split; assumption.
Qed.

Lemma rejected_trail ep cand reason details prod (t t' : tally) s s' :
  (append_reject ep cand reason details prod ;;; ret t) s = Ok (t', s') ->
  log_extends s s' /\ decision_logged ep cand s'.
Proof.
  intros Hrun. destruct (reject_extends _ _ _ _ _ _ _ _ _ Hrun) as [Hext Hkey].
  split; [exact Hext|]. left. eexists. exact Hkey.
Qed.

Lemma check_caps_trail ep prod t cand t' s s' :
  check_caps ep prod t cand s = Ok (t', s') ->
  log_extends s s' /\ decision_logged ep cand s'.
Proof.
  unfold check_caps. intros Hrun.
  destruct (EPISODE_KIND_CAPS (cand_kind cand)) as [cap|]; [|discriminate].
  destruct (cap <=? _); [exact (rejected_trail _ _ _ _ _ _ _ _ _ Hrun)|].
  destruct (EPISODE_SOFT_CAP <=? _); [exact (rejected_trail _ _ _ _ _ _ _ _ _ Hrun)|].
  run_bind Hrun. apply ret_ok in Hrun0 as [-> ->].
  destruct (BUDGET_CAPS _ _) as [budget|]; [|discriminate].
  destruct (budget <=? _); [exact (rejected_trail _ _ _ _ _ _ _ _ _ Hrun)|].
  exact (merge_or_admit_trail _ _ _ _ _ _ _ Hrun).
Qed.

Lemma consolidate_candidate_trail ep prod t cand t' s s' :
  consolidate_candidate ep prod t cand s = Ok (t', s') ->
  log_extends s s' /\ proposal_logged ep cand s' /\ decision_logged ep cand s'.
Proof.
  unfold consolidate_candidate. intros Hrun. run_bind Hrun. run_bind Hrun.
  apply ret_ok in Hrun1 as [-> ->].
  destruct (append_event_extends _ _ _ _ _ _ _ _ _ _ Hrun0) as [Hext Hkey].
  assert (log_extends s0 s' /\ decision_logged ep cand s') as [Hext' Hdec].
  { destruct (negb (fst (validate_evidence_invariant cand s0)));
      [exact (rejected_trail _ _ _ _ _ _ _ _ _ Hrun)|].
    destruct (find_best_similarity_match cand s0) as [best|];
      [|exact (check_caps_trail _ _ _ _ _ _ _ Hrun)].
    destruct (is_duplicate best); [exact (rejected_trail _ _ _ _ _ _ _ _ _ Hrun)|].
    destruct (lacks_novelty best); [exact (rejected_trail _ _ _ _ _ _ _ _ _ Hrun)|].
    exact (check_caps_trail _ _ _ _ _ _ _ Hrun). }
  split; [exact (log_extends_trans _ _ _ Hext Hext')|].
  split; [apply (proj2 Hext'); exact Hkey|exact Hdec].
Qed.

Lemma consolidate_all_trail ep prod cands : forall t t' s s',
  consolidate_all ep prod cands t s = Ok (t', s') ->
  log_extends s s'
  /\ forall c, In c cands -> proposal_logged ep c s' /\ decision_logged ep c s'.
Proof.
  induction cands as [|cand cands IH]; intros t t' s s' Hrun.
  - apply ret_ok in Hrun as [_ ->]. split; [apply log_extends_refl|intros c []].
  - cbn [consolidate_all] in Hrun. run_bind Hrun.
    destruct (consolidate_candidate_trail _ _ _ _ _ _ _ Hrun0) as (Hext & Hprop & Hdec).
    destruct (IH _ _ _ _ Hrun) as (Hext' & Hall).
    split; [exact (log_extends_trans _ _ _ Hext Hext')|].
    intros c [<-|Hin]; [|exact (Hall c Hin)].
    split; [apply (proj2 Hext'); exact Hprop|exact (decision_logged_extends _ _ _ _ Hext' Hdec)].
Qed.

(** X21: the audit trail of [consolidate_episode]: a run that returns has
    left the episodes, artifacts, evidence references and files as they
    were and every event of the log in the log; and for each candidate of
    the episode the log then holds its [candidate_proposed] event and its
    decision, a [card_rejected], [card_merged] or [card_admitted] event. *)
Theorem consolidate_episode_audit_trail ep prod s r s' :
  consolidate_episode ep prod s = Ok (r, s') ->
  log_extends s s'
  /\ forall c, In c (episode_candidates s ep) ->
       proposal_logged ep c s' /\ decision_logged ep c s'.
Proof.
  unfold consolidate_episode, episode_candidates. intros Hrun. run_bind Hrun.
  apply ret_ok in Hrun0 as [-> ->].
  destruct (select_one _ (episodes s)) as [episode|] eqn:Hep; [|discriminate].
  run_bind Hrun. run_bind Hrun. run_bind Hrun. apply ret_ok in Hrun2 as [-> ->].
  apply ret_ok in Hrun as [_ Hs']. rewrite Hs'. clear Hs'.
  destruct (consolidate_all_trail _ _ _ _ _ _ _ Hrun0) as (Hext & Hall).
  pose proof (refresh_ledger_keeps_canon _ _ _ _ Hrun1) as Hcanon.
  match goal with
  | |- log_extends _ ?sf /\ _ => assert (log_extends s0 sf) as Hext'
  end.
  { split; [exact (canon_sources _ _ Hcanon)|].
    intros k. apply logged_key_events. exact (canon_events _ _ Hcanon). }
  split; [exact (log_extends_trans _ _ _ Hext Hext')|].
  intros c Hin.
  assert (In c (sort_by candidate_before
                  (generate_candidates ep (md_get (ep_metadata episode) "scope_tier" "repo")
                     (md_get (ep_metadata episode) "scope_id" "default")
                     (episode_evidence s ep)))) as Hin'
    by (apply (Permutation_in _ (Permutation_sym (sort_by_perm _ _))); exact Hin).
  destruct (Hall c Hin') as [Hprop Hdec].
  split; [apply (proj2 Hext'); exact Hprop|exact (decision_logged_extends _ _ _ _ Hext' Hdec)].
Qed.

End AuditTrail.

Lemma consolidate_episode_audit_trail_witness :
  exists r s',
    Engine.consolidate_episode (H := example_platform) "ep1" "cli" Engine.consolidation_store
    = Engine.Ok (r, s')
    /\ Engine.log_extends Engine.consolidation_store s'
    /\ forall c, In c (Engine.episode_candidates (H := example_platform)
                         Engine.consolidation_store "ep1") ->
         Engine.proposal_logged "ep1" c s' /\ Engine.decision_logged "ep1" c s'.
Proof.
  destruct (Engine.consolidate_episode (H := example_platform) "ep1" "cli"
              Engine.consolidation_store) as [[r s']|e] eqn:Hrun.
  - exists r, s'. split; [reflexivity|].
    exact (consolidate_episode_audit_trail (H := example_platform) _ _ _ _ _ Hrun).
  - vm_compute in Hrun. discriminate.
Defined.

Section SoftCap.
Import Engine.
Context `{Platform}.

Ltac run_bind H :=
  let a := fresh "a" in let s1 := fresh "s" in let H1 := fresh "Hrun" in
  apply bind_ok in H; destruct H as (a & s1 & H1 & H).

Lemma capped_refl t : capped t t.
Proof. unfold capped. lia. Qed.

Lemma capped_trans t1 t2 t3 : capped t1 t2 -> capped t2 t3 -> capped t1 t3.
Proof. unfold capped. intros (? & ? & ?) (? & ? & ?). lia. Qed.

Lemma reject_capped ep cand reason details prod t t' s s' :
  (append_reject ep cand reason details prod ;;; ret (one_rejected t)) s = Ok (t', s') ->
  capped t t'.
Proof.
  intros Hrun. run_bind Hrun. apply ret_ok in Hrun as [-> _].
  unfold capped, one_rejected. cbn. lia.
Qed.

Lemma merge_or_admit_capped ep prod t cand t' s s' :
  t_total t < EPISODE_SOFT_CAP ->
  merge_or_admit ep prod t cand s = Ok (t', s') -> capped t t'.
Proof.
  unfold merge_or_admit. intros Hroom Hrun. run_bind Hrun.
  destruct (is_truthy (find_exact_merge_target cand a)).
  - run_bind Hrun. apply ret_ok in Hrun as [-> _]. unfold capped, one_merged. cbn. lia.
  - run_bind Hrun. destruct (is_truthy (find_supersede_target cand a)).
    + run_bind Hrun. run_bind Hrun. apply ret_ok in Hrun as [-> _].
      unfold capped, one_superseded, one_admitted. cbn. lia.
    + apply ret_ok in Hrun as [-> _]. unfold capped, one_admitted. cbn. lia.
Qed.

Lemma check_caps_capped ep prod t cand t' s s' :
  check_caps ep prod t cand s = Ok (t', s') -> capped t t'.
Proof.
  unfold check_caps. intros Hrun.
  destruct (EPISODE_KIND_CAPS (cand_kind cand)) as [cap|]; [|discriminate].
  destruct (cap <=? _); [exact (reject_capped _ _ _ _ _ _ _ _ _ Hrun)|].
  destruct (EPISODE_SOFT_CAP <=? t_total t) eqn:Hsoft;
    [exact (reject_capped _ _ _ _ _ _ _ _ _ Hrun)|].
  apply Nat.leb_gt in Hsoft. run_bind Hrun.
  destruct (BUDGET_CAPS _ _) as [budget|]; [|discriminate].
  destruct (budget <=? _); [exact (reject_capped _ _ _ _ _ _ _ _ _ Hrun)|].
  exact (merge_or_admit_capped _ _ _ _ _ _ _ Hsoft Hrun).
Qed.

Lemma consolidate_candidate_capped ep prod t cand t' s s' :
  consolidate_candidate ep prod t cand s = Ok (t', s') -> capped t t'.
Proof.
  unfold consolidate_candidate. intros Hrun. run_bind Hrun. run_bind Hrun.
  destruct (negb (fst (validate_evidence_invariant cand a0)));
    [exact (reject_capped _ _ _ _ _ _ _ _ _ Hrun)|].
  destruct (find_best_similarity_match cand a0) as [best|];
    [|exact (check_caps_capped _ _ _ _ _ _ _ Hrun)].
  destruct (is_duplicate best); [exact (reject_capped _ _ _ _ _ _ _ _ _ Hrun)|].
  destruct (lacks_novelty best); [exact (reject_capped _ _ _ _ _ _ _ _ _ Hrun)|].
  exact (check_caps_capped _ _ _ _ _ _ _ Hrun).
Qed.

Lemma consolidate_all_capped ep prod cands : forall t t' s s',
  consolidate_all ep prod cands t s = Ok (t', s') -> capped t t'.
Proof.
  induction cands as [|cand cands IH]; intros t t' s s' Hrun.
  - apply ret_ok in Hrun as [-> _]. apply capped_refl.
  - cbn [consolidate_all] in Hrun. run_bind Hrun.
    exact (capped_trans _ _ _ (consolidate_candidate_capped _ _ _ _ _ _ _ Hrun0)
             (IH _ _ _ _ Hrun)).
Qed.

(** X22: the soft cap of an episode: one run of [consolidate_episode]
    admits no more cards than the 12 of the soft cap leave once the cards
    that the episode's [card_admitted] events already carry are counted;
    so it never admits more than 12, and none when 12 are there. *)
Theorem consolidate_episode_soft_cap ep prod s r s' :
  consolidate_episode ep prod s = Ok (r, s') ->
  cr_admitted r <= EPISODE_SOFT_CAP - admitted_before s ep.
Proof.
  unfold consolidate_episode. intros Hrun. run_bind Hrun. apply ret_ok in Hrun0 as [-> ->].
  destruct (select_one _ (episodes s)) as [episode|]; [|discriminate].
  run_bind Hrun. run_bind Hrun. run_bind Hrun. apply ret_ok in Hrun as [-> _].
  cbn [cr_admitted].
  apply consolidate_all_capped in Hrun0. unfold capped in Hrun0.
  cbn [t_total t_admitted] in Hrun0.
  unfold admitted_before. unfold EPISODE_SOFT_CAP in *. lia.
Qed.

End SoftCap.

Lemma consolidate_episode_soft_cap_witness :
  exists r s',
    Engine.consolidate_episode (H := example_platform) "ep1" "cli" Engine.consolidation_store
    = Engine.Ok (r, s')
    /\ Engine.cr_admitted r
       <= Engine.EPISODE_SOFT_CAP - Engine.admitted_before Engine.consolidation_store "ep1".
Proof.
  destruct (Engine.consolidate_episode (H := example_platform) "ep1" "cli"
              Engine.consolidation_store) as [[r s']|e] eqn:Hrun.
  - exists r, s'. split; [reflexivity|].
    exact (consolidate_episode_soft_cap (H := example_platform) _ _ _ _ _ Hrun).
  - vm_compute in Hrun. discriminate.
Defined.

Section Targets.
Import Engine.

Lemma recent_first_rows (p : card_row -> bool) (s : store) (r : card_row) :
  In r (sort_by card_recent_first (List.filter p (cards s))) <-> In r (cards s) /\ p r = true.
Proof.
  rewrite <- List.filter_In. split; apply Permutation_in;
    [apply sort_by_perm|symmetry; apply sort_by_perm].
Qed.


End Targets.
(** ** The operations and the soundness of the log *)

Section Carrying.
Import Engine.
Context `{Platform}.

Lemma carries_ret {A} P (a : A) : carries P (ret a).
Proof. intros s a' s' Hm HP. injection Hm as _ <-. exact HP. Qed.

Lemma carries_raise {A} P (e : error) : carries P (raise (A := A) e).
Proof. intros s a s' Hm. discriminate. Qed.

Lemma carries_get_store P : carries P get_store.
Proof. intros s a s' Hm HP. injection Hm as _ <-. exact HP. Qed.

Lemma carries_require P (b : bool) (e : error) : carries P (require b e).
Proof. unfold require. destruct b; [apply carries_ret|apply carries_raise]. Qed.

Lemma carries_bind {A C} P (m : M A) (k : A -> M C) :
  carries P m -> (forall a, carries P (k a)) -> carries P (bind m k).
Proof.
  intros Hm Hk s c s' Hrun HP. unfold bind in Hrun.
  destruct (m s) as [[a s1]|e] eqn:Hms; [|discriminate].
  exact (Hk a s1 c s' Hrun (Hm s a s1 Hms HP)).
Qed.

Lemma carries_for_each {A} P (xs : list A) (body : A -> M unit) :
  (forall x, carries P (body x)) -> carries P (for_each xs body).
Proof.
  intros Hbody. induction xs as [|x xs IH]; cbn [for_each].
  - apply carries_ret.
  - apply carries_bind; [apply Hbody|intros _; exact IH].
Qed.

Lemma log_sound_events s s' :
  memory_events s' = memory_events s -> log_sound s -> log_sound s'.
Proof.
  unfold log_sound, seq_invariant, keys_distinct. intros ->. auto.
Qed.

(** A change of the store that leaves the log alone. *)
Lemma carries_frame {A} (m : M A) :
  keeps memory_events m -> carries log_sound m.
Proof. intros Hm s a s' Hrun. apply log_sound_events. exact (Hm s a s' Hrun). Qed.

Lemma append_event_sound ep ty p k prod rv apply :
  carries log_sound (append_event ep ty p k prod rv apply).
Proof.
  intros s r s' Hrun (Hseq & Hkeys & Hids).
  destruct (append_event_log _ _ _ _ _ _ _ _ _ _ Hrun)
    as [(row & _ & _ & ->)|(Hf & _ & _ & Hlog & _)]; [repeat split; assumption|].
  split; [exact (seq_invariant_append _ _ _ _ _ _ _ _ Hseq Hlog)|].
  unfold keys_distinct in *. rewrite Hlog, !map_app. cbn [map]. split.
  - apply List.NoDup_app; [exact Hkeys | repeat constructor; intros [] |].
    intros key Hin [<-|[]]. apply in_map_iff in Hin. destruct Hin as (e0 & Hk0 & Hin).
    exact (proj1 (find_by_key_none _ _) Hf e0 Hin Hk0).
  - apply List.NoDup_app; [exact Hids | repeat constructor; intros [] |].
    intros i Hin [<-|[]]. exact (next_event_id_fresh _ Hin).
Qed.

End Carrying.

Ltac frame_step :=
  first
    [ apply keeps_modify; let s := fresh in intros s; destruct s; reflexivity
    | apply keeps_read_now_iso; let n := fresh in let s := fresh in
        intros n s; destruct s; reflexivity
    | apply keeps_read_current_timestamp; let n := fresh in let s := fresh in
        intros n s; destruct s; reflexivity ].

Ltac carries_step :=
  first
    [ apply carries_ret | apply carries_raise | apply carries_get_store
    | apply carries_require | apply append_event_sound
    | apply carries_frame; frame_step
    | apply carries_for_each; intros ?
    | apply carries_bind; [|intros ?]
    | match goal with
      | |- Engine.carries _ (match ?x with _ => _ end) => destruct x
      | |- Engine.carries _ (if ?x then _ else _) => destruct x
      end ].

Ltac carries_auto := repeat carries_step.

Section OperationsKeepTheLog.
Import Engine.
Context `{Platform}.

Lemma draw_uuid_sound : carries log_sound draw_uuid.
Proof.
  apply carries_frame. intros s a s' Hm. unfold draw_uuid in Hm. injection Hm as _ <-.
  destruct s; reflexivity.
Qed.

Lemma id_or_fresh_sound x prefix : carries log_sound (id_or_fresh x prefix).
Proof.
  unfold id_or_fresh. destruct (is_truthy x); [apply carries_ret|].
  apply carries_bind; [apply draw_uuid_sound|intros u; apply carries_ret].
Qed.

Lemma time_or_now_sound x : carries log_sound (time_or_now x).
Proof. unfold time_or_now. carries_auto. Qed.

Lemma ingest_artifact_sound ep prod a : carries log_sound (ingest_artifact ep prod a).
Proof.
  unfold ingest_artifact, write_file.
  apply carries_bind; [apply id_or_fresh_sound|intros artifact_id]. carries_auto.
Qed.

Lemma ingest_evidence_sound ep prod r : carries log_sound (ingest_evidence ep prod r).
Proof.
  unfold ingest_evidence.
  apply carries_bind; [apply id_or_fresh_sound|intros evidence_ref_id]. carries_auto.
Qed.

Lemma record_episode_sound p prod : carries log_sound (record_episode p prod).
Proof.
  unfold record_episode.
  apply carries_bind; [apply id_or_fresh_sound|intros episode_id].
  apply carries_bind; [apply time_or_now_sound|intros started_at].
  apply carries_bind; [apply time_or_now_sound|intros ended_at].
  repeat first [ apply ingest_artifact_sound | apply ingest_evidence_sound | carries_step ].
Qed.

Lemma record_dispute_sound ep cid ev prod : carries log_sound (record_dispute ep cid ev prod).
Proof. unfold record_dispute. carries_auto. Qed.

Lemma append_reject_sound ep cand reason details prod :
  carries log_sound (append_reject ep cand reason details prod).
Proof. unfold append_reject. carries_auto. Qed.

Lemma merge_or_admit_sound ep prod t cand : carries log_sound (merge_or_admit ep prod t cand).
Proof. unfold merge_or_admit. carries_auto. Qed.

Lemma check_caps_sound ep prod t cand : carries log_sound (check_caps ep prod t cand).
Proof.
  unfold check_caps.
  repeat first [ apply append_reject_sound | apply merge_or_admit_sound | carries_step ].
Qed.

Lemma consolidate_candidate_sound ep prod t cand :
  carries log_sound (consolidate_candidate ep prod t cand).
Proof.
  unfold consolidate_candidate.
  repeat first [ apply append_reject_sound | apply check_caps_sound | carries_step ].
Qed.

Lemma consolidate_all_sound ep prod cands : forall t,
  carries log_sound (consolidate_all ep prod cands t).
Proof.
  induction cands as [|cand cands IH]; intros t; cbn [consolidate_all].
  - apply carries_ret.
  - apply carries_bind; [apply consolidate_candidate_sound|intros t'; apply IH].
Qed.

Lemma refresh_ledger_sound ep : carries log_sound (refresh_ledger ep).
Proof.
  apply carries_frame. intros s a s' Hrun.
  exact (canon_events _ _ (refresh_ledger_keeps_canon _ _ _ _ Hrun)).
Qed.

Lemma consolidate_episode_sound ep prod : carries log_sound (consolidate_episode ep prod).
Proof.
  unfold consolidate_episode.
  repeat first [ apply consolidate_all_sound | apply refresh_ledger_sound | carries_step ].
Qed.

(** X24: the operations keep the log sound: when every episode's sequence
    numbers are 1..N and the idempotency keys and the event ids are
    without repeat, they are so again after any [record_episode],
    [record_dispute] or [consolidate_episode] that returns. *)
Theorem operations_keep_log_sound (s s' : store) :
  log_sound s ->
  (forall p prod r, record_episode p prod s = Ok (r, s') -> log_sound s')
  /\ (forall ep cid ev prod r, record_dispute ep cid ev prod s = Ok (r, s') -> log_sound s')
  /\ (forall ep prod r, consolidate_episode ep prod s = Ok (r, s') -> log_sound s').
Proof.
  intros Hs. split; [|split].
  - intros p prod r Hrun. exact (record_episode_sound _ _ _ _ _ Hrun Hs).
  - intros ep cid ev prod r Hrun. exact (record_dispute_sound _ _ _ _ _ _ _ Hrun Hs).
  - intros ep prod r Hrun. exact (consolidate_episode_sound _ _ _ _ _ Hrun Hs).
Qed.

End OperationsKeepTheLog.

Lemma operations_keep_log_sound_witness :
  exists r s',
    Engine.record_episode (H := example_platform) Engine.pinned_payload "cli" Engine.empty_store
    = Engine.Ok (r, s')
    /\ Engine.log_sound s'.
Proof.
  destruct (Engine.record_episode (H := example_platform) Engine.pinned_payload "cli"
              Engine.empty_store) as [[r s']|e] eqn:Hrun.
  - exists r, s'. split; [reflexivity|].
    apply (proj1 (operations_keep_log_sound (H := example_platform) Engine.empty_store s'
                    (conj (fun ep => eq_refl) (conj (List.NoDup_nil _) (List.NoDup_nil _))))
             Engine.pinned_payload "cli" r).
    exact Hrun.
  - vm_compute in Hrun. discriminate.
Defined.
(** ** Statements with the same tokens, and the exact-statement merge *)

Section CounterNorm.
Import Text Similarity.

Lemma sum_squares_insert (m : gmap string nat) (i : string) (x : nat) :
  m !! i = None -> sum_squares (<[i := x]> m) = sum_squares m + x * x.
Proof.
  intros Hi. unfold sum_squares.
  rewrite (map_fold_insert_L (fun _ v acc => acc + v * v) 0 i x m); [reflexivity| |exact Hi].
  intros. lia.
Qed.

Lemma set_fold_shift (d : string -> nat) (X : gset string) (c : nat) :
  set_fold (fun t acc => acc + d t * d t) c X
  = set_fold (fun t acc => acc + d t * d t) 0 X + c.
Proof.
  rewrite <- (set_fold_comm_acc (fun t acc => acc + d t * d t) (fun acc => acc + c) 0 X).
  - reflexivity.
  - intros. lia.
Qed.

Lemma set_fold_agree (d d' : string -> nat) (X : gset string) :
  (forall t, t ∈ X -> d t = d' t) ->
  set_fold (fun t acc => acc + d t * d t) 0 X = set_fold (fun t acc => acc + d' t * d' t) 0 X.
Proof.
  intros Hagree. unfold set_fold. cbn.
  assert (forall t, t ∈ elements X -> d t = d' t) as Hl.
  { intros t Hin. apply Hagree. apply elem_of_elements. exact Hin. }
  induction (elements X) as [|t l IH]; [reflexivity|].
  cbn [foldr]. rewrite IH by (intros u Hu; apply Hl; right; exact Hu).
  rewrite (Hl t) by left. reflexivity.
Qed.

Lemma dot_common_self (m : gmap string nat) : dot_common m m = sum_squares m.
Proof.
  unfold dot_common.
  replace (dom m ∩ dom m) with (dom m) by (symmetry; apply gset_inter_same).
  induction m as [|i x m Hi IH] using map_ind.
  - rewrite dom_empty_L, set_fold_empty. reflexivity.
  - rewrite sum_squares_insert by exact Hi. rewrite dom_insert_L.
    rewrite (set_fold_disj_union_strong eq
               (fun t acc => acc + default 0 (<[i:=x]> m !! t) * default 0 (<[i:=x]> m !! t))
               0 {[i]} (dom m)).
    + rewrite set_fold_singleton, lookup_insert_eq. cbn [default from_option Datatypes.id].
      rewrite set_fold_shift.
      rewrite (set_fold_agree _ (fun t => default 0 (m !! t))).
      * rewrite IH. cbn. lia.
      * intros t Ht. rewrite lookup_insert_ne; [reflexivity|].
        intros <-. apply not_elem_of_dom in Hi. contradiction.
    + intros t. solve_proper.
    + intros. lia.
    + apply disjoint_singleton_l. apply not_elem_of_dom. exact Hi.
Qed.

End CounterNorm.

Section SameTokens.
Import Text Similarity Engine.

Lemma Counter_from_positive (tokens : list string) : forall m : gmap string nat,
  (forall t v, m !! t = Some v -> 1 <= v) ->
  forall t v, fold_left (fun m t => <[t := S (default 0 (m !! t))]> m) tokens m !! t = Some v ->
              1 <= v.
Proof.
  induction tokens as [|tok tokens IH]; intros m Hm; [exact Hm|].
  cbn [fold_left]. apply IH. intros t v.
  destruct (decide (tok = t)) as [->|Hne].
  - rewrite lookup_insert_eq. intros [= <-]. lia.
  - rewrite lookup_insert_ne by exact Hne. apply Hm.
Qed.

Lemma sum_squares_positive (m : gmap string nat) :
  (forall t v, m !! t = Some v -> 1 <= v) -> m <> ∅ -> 0 < sum_squares m.
Proof.
  induction m as [|i x m Hi _] using map_ind; intros Hpos Hne; [congruence|].
  rewrite sum_squares_insert by exact Hi.
  pose proof (Hpos i x (lookup_insert_eq m i x)). nia.
Qed.

(** Two statements with the same tokens have cosine similarity 1, unless
    they have no token at all. *)
Lemma cosine_same_tokens (a b : string) :
  tokenize a = tokenize b -> Counter (tokenize a) <> ∅ -> cosine_similarity_text a b = 1%R.
Proof.
  intros Heq Hne. unfold cosine_similarity_text. rewrite <- Heq.
  rewrite (bool_decide_eq_false_2 _ Hne). cbn [orb].
  rewrite dot_common_self.
  assert (0 < INR (sum_squares (Counter (tokenize a))))%R as Hpos.
  { apply lt_0_INR. apply sum_squares_positive; [|exact Hne].
    unfold Counter. apply Counter_from_positive. intros t v. rewrite lookup_empty. discriminate. }
  pose proof (sqrt_lt_R0 _ Hpos) as Hsqrt.
  destruct (Req_dec_T _ 0) as [Hz|_]; [lra|].
  rewrite sqrt_sqrt by lra. apply Rdiv_diag. lra.
Qed.

Lemma cosine_no_tokens (a b : string) :
  Counter (tokenize a) = ∅ -> cosine_similarity_text a b = 0%R.
Proof.
  intros He. unfold cosine_similarity_text. rewrite He.
  rewrite bool_decide_eq_true_2 by reflexivity. reflexivity.
Qed.

Lemma best_of_rows (cand : Candidate) (rows : list card_row) (r : card_row) :
  In r rows ->
  exists b r', best_of cand rows = Some b /\ In r' rows /\ b = match_of cand r'
               /\ (bm_score (match_of cand r) <= bm_score b)%R.
Proof.
  intros Hin. destruct rows as [|r0 rows]; [destruct Hin|].
  unfold best_of. cbn [fold_left best_step].
  destruct (best_from cand rows (match_of cand r0)) as (b & Hb & Hfrom & Hge & Hall).
  exists b.
  assert (exists r', In r' (r0 :: rows) /\ b = match_of cand r') as (r' & Hin' & Hb').
  { destruct Hfrom as [->|(r' & Hr' & ->)]; [exists r0|exists r']; split; auto;
      [left; reflexivity|right; exact Hr']. }
  exists r'. repeat split; [exact Hb|exact Hin'|exact Hb'|].
  destruct Hin as [<-|Hin]; [exact Hge|exact (Hall r Hin)].
Qed.

(** The rows that the similarity query yields are the comparable cards. *)
Lemma by_status_comparable (cand : Candidate) (rows : list card_row) (r : card_row) :
  In r (by_status (List.filter (comparable cand) rows))
  <-> In r rows /\ comparable cand r = true.
Proof.
  unfold by_status. rewrite in_app_iff, !List.filter_In. split.
  - intros [[H1 _]|[H1 _]]; exact H1.
  - intros [Hin Hc]. pose proof Hc as Hst. unfold comparable in Hst.
    apply andb_prop in Hst as [_ Hst]. unfold is_in, mem_string in Hst.
    cbn [existsb] in Hst. rewrite orb_false_r in Hst.
    apply orb_prop in Hst as [Hst|Hst]; [left|right]; (split; [split; assumption|]);
      exact Hst.
Qed.

Lemma same_tokens_gate (cand : Candidate) (s : store) (r : card_row) :
  In r (cards s) -> comparable cand r = true ->
  tokenize (c_statement r) = tokenize (cand_statement cand) ->
  exists b, find_best_similarity_match cand s = Some b /\ lacks_novelty b = true.
Proof.
  intros Hin Hc Htok. unfold find_best_similarity_match.
  assert (In r (by_status (List.filter (comparable cand) (cards s)))) as Hrow
    by (apply by_status_comparable; split; assumption).
  destruct (best_of_rows cand _ r Hrow) as (b & r' & Hb & _ & -> & Hge).
  exists (match_of cand r'). split; [exact Hb|].
  cbn [match_of bm_score] in Hge.
  rewrite (jaccard_same_sets (cand_statement cand) (c_statement r)) in Hge
    by (unfold token_set; rewrite Htok; reflexivity).
  unfold lacks_novelty. cbn [match_of bm_lexical bm_cosine].
  destruct (Rge_dec (jaccard_similarity (cand_statement cand) (c_statement r')) 0.65)
    as [|Hlex]; [reflexivity|].
  destruct (Rge_dec (cosine_similarity_text (cand_statement cand) (c_statement r')) 0.78)
    as [|Hcos]; [reflexivity|]. exfalso.
  destruct (decide (Counter (tokenize (cand_statement cand)) = ∅)) as [He|Hne].
  - rewrite !(cosine_no_tokens _ _ He) in *. lra.
  - rewrite (cosine_same_tokens (cand_statement cand) (c_statement r)) in Hge
      by (rewrite ?Htok; auto). lra.
Qed.

(** X28: a candidate is never admitted beside a card that says the same in
    the same tokens.  When some active or flagged card of the candidate's
    kind and scope has the candidate's tokens, in the same order,
    [find_best_similarity_match] finds a best match and that match meets
    the novelty gate (Jaccard at least 0.65 or cosine at least 0.78), so
    [consolidate_episode] rejects the candidate as a duplicate or for lack
    of novelty. *)
Theorem same_tokens_never_novel (cand : Candidate) (s : store) (r : card_row) :
  In r (cards s) -> comparable cand r = true ->
  tokenize (c_statement r) = tokenize (cand_statement cand) ->
  exists b, find_best_similarity_match cand s = Some b /\ lacks_novelty b = true.
Proof. exact (same_tokens_gate cand s r). Qed.

(** X29: the exact-statement merge is shadowed by the similarity gates.
    With the candidate's statement and the cards' statements normalized, as
    [generate_candidates] produces them, whenever
    [find_exact_merge_target] finds a card the best similarity match meets
    the novelty gate; [consolidate_episode] tests that gate before it looks
    for a merge target, so it rejects such a candidate and does not merge
    it. *)
Theorem merge_target_is_shadowed (cand : Candidate) (s : store) (id : string) :
  normalize_statement (cand_statement cand) = cand_statement cand ->
  (forall r, In r (cards s) -> normalize_statement (c_statement r) = c_statement r) ->
  find_exact_merge_target cand s = Some id ->
  exists b, find_best_similarity_match cand s = Some b /\ lacks_novelty b = true.
Proof.
  intros Hcand Hcards Hid. unfold find_exact_merge_target in Hid.
  destruct (List.find _ _) as [r|] eqn:Hfind; [|discriminate].
  apply find_some in Hfind as [Hin Hsame].
  apply recent_first_rows in Hin as [Hin Hc]. apply String.eqb_eq in Hsame.
  rewrite Hcand, (Hcards r Hin) in Hsame.
  apply (same_tokens_gate cand s r Hin Hc).
  unfold tokenize, raw_tokens. rewrite Hsame. reflexivity.
Qed.

End SameTokens.

Lemma same_tokens_never_novel_witness :
  let cand :=
    {| Engine.candidate_id := "cand_1"; Engine.cand_kind := "constraint";
       Engine.cand_statement := "MUST always pin: versions!";
       Engine.cand_scope_tier := "repo"; Engine.cand_scope_id := "default";
       Engine.cand_topic_key := "must"; Engine.cand_evidence_ref_ids := ["ev1"] |} in
  exists b, Engine.find_best_similarity_match cand Engine.dispute_store = Some b
            /\ Engine.lacks_novelty b = true.
Proof.
  intros cand.
  apply (same_tokens_never_novel cand Engine.dispute_store Engine.example_card).
  - left. reflexivity.
  - vm_compute. reflexivity.
  - vm_compute. reflexivity.
Defined.

Lemma merge_target_is_shadowed_witness :
  let cand :=
    {| Engine.candidate_id := "cand_1"; Engine.cand_kind := "constraint";
       Engine.cand_statement := "we must ALWAYS pin versions.";
       Engine.cand_scope_tier := "repo"; Engine.cand_scope_id := "default";
       Engine.cand_topic_key := "must"; Engine.cand_evidence_ref_ids := ["ev1"] |} in
  exists b, Engine.find_best_similarity_match cand Engine.dispute_store = Some b
            /\ Engine.lacks_novelty b = true.
Proof.
  intros cand.
  apply (merge_target_is_shadowed cand Engine.dispute_store "c1").
  - vm_compute. reflexivity.
  - intros r [<-|[]]. vm_compute. reflexivity.
  - vm_compute. reflexivity.
Defined.
